(** * MLQ scheduling simulator: FCFS, Round Robin and the multilevel dispatcher

    A shallow embedding of [fcfs.py], [Round_robin.py] and [mlq.py], and the
    properties of the three policies.

    - Python integers are unbounded, so every clock and every PCB field is a
      [Z].
    - An engine is a Python object whose attributes are rewritten by its
      methods; here each engine is a record and each method a function from
      the record to a [result] holding the new record.  A method that can
      raise returns [Raise e].  The Round Robin loop need not terminate: it
      takes fuel and answers [OutOfFuel] when the fuel is spent.
    - A queue is a Python list of [Process] objects mutated in place.  The
      objects of one queue are pairwise distinct (each is constructed once
      and appended to one queue), so an object is identified with its
      position in the list: mutating the PCB of [queue[i]] is writing the new
      value back at position [i], and [queue.index(p)] is the position of
      [p].
    - [Pcb.py] and [process.py] are not among the sources; [PCB], [Process]
      and their constructors are modelled from the specification.
    - Opening the input file and the results file is left out: the
      dispatcher is built from the lines of the input, and the results are
      the lines written.
    - A float is a binary64 number.  The conversions that make one from
      integers are computed exactly, with what they raise; the sums FCFS
      keeps in private attributes that nothing reads are not stored. *)

From Stdlib Require Import ZArith String Ascii List Lia Bool Sorted DecimalString.
From stdpp Require Import base list relations.

Local Open Scope Z_scope.

(** ** Exceptions and results *)

Inductive exn : Type :=
| IndexError
| ValueError
| ZeroDivisionError
| OverflowError
| NonTerminatingProcess.

Inductive result (A : Type) : Type :=
| Ok (a : A)
| Raise (e : exn)
| OutOfFuel.

Arguments Ok {A} a.
Arguments Raise {A} e.
Arguments OutOfFuel {A}.

Definition bind {A B : Type} (m : result A) (k : A -> result B) : result B :=
  match m with
  | Ok a => k a
  | Raise e => Raise e
  | OutOfFuel => OutOfFuel
  end.

Notation "'let*' x ':=' m 'in' k" := (bind m (fun x => k))
  (at level 10, x name, m at level 100, k at level 200).
Notation "'let*' ' pat ':=' m 'in' k" :=
  (bind m (fun x => match x with pat => k end))
  (at level 10, pat pattern, m at level 100, k at level 200).

(** [try: m except IndexError: h]. *)
Definition try_except_IndexError {A : Type} (m : result A) (h : result A) : result A :=
  match m with
  | Raise IndexError => h
  | _ => m
  end.

(** A run that did not exhaust its fuel: it returned or raised. *)
Definition terminated {A : Type} (m : result A) : Prop :=
  match m with
  | OutOfFuel => False
  | _ => True
  end.

(** ** Python lists *)

(** [l[i]]: a negative index counts from the end, an index out of range
    raises [IndexError]. *)
Definition py_index {A : Type} (l : list A) (i : Z) : option nat :=
  let n := Z.of_nat (length l) in
  if (0 <=? i) && (i <? n) then Some (Z.to_nat i)
  else if (- n <=? i) && (i <? 0) then Some (Z.to_nat (n + i))
  else None.

Definition py_getitem {A : Type} (l : list A) (i : Z) : result A :=
  match py_index l i with
  | Some k => match l !! k with Some x => Ok x | None => Raise IndexError end
  | None => Raise IndexError
  end.

(** The object at [l[i]] was mutated into [x]: the list holds [x] there. *)
Definition py_store {A : Type} (l : list A) (i : Z) (x : A) : list A :=
  match py_index l i with
  | Some k => <[k := x]> l
  | None => l
  end.

(** [for _ in l: body()], the body acting on the state [s]. *)
Fixpoint for_each {A S : Type} (l : list A) (body : S -> result S) (s : S) : result S :=
  match l with
  | [] => Ok s
  | _ :: l' => let* s' := body s in for_each l' body s'
  end.

(** [range(n)] as the list of its values. *)
Definition py_range (n : Z) : list Z :=
  map Z.of_nat (seq 0 (Z.to_nat n)).

(** ** Python strings and [int()]

    A string is the sequence of its bytes, and what follows is Python's on
    ASCII text.  [str.strip()] removes the white space of [str.isspace]:
    tab to carriage return, the four separators 0x1C to 0x1F and the space.
    [int()] skips a narrower set around the numeral (tab to carriage return
    and the space), then reads an optional sign and decimal digits with
    single underscores between them, and refuses a numeral of more than 4300
    digits (the default of [sys.set_int_max_str_digits]).  Python also reads
    the decimal digits and the white space of other scripts; on a string
    with a byte outside ASCII [py_int] raises, so it never returns a number
    that [int()] does not return. *)

Definition is_space (c : ascii) : bool :=
  let n := N_of_ascii c in
  (((9 <=? n) && (n <=? 13)) || ((28 <=? n) && (n <=? 32)))%N.

Definition is_int_space (c : ascii) : bool :=
  let n := N_of_ascii c in
  (((9 <=? n) && (n <=? 13)) || (n =? 32))%N.

Definition is_digit (c : ascii) : bool :=
  let n := N_of_ascii c in ((48 <=? n) && (n <=? 57))%N.

Definition digit_val (c : ascii) : Z := Z.of_N (N_of_ascii c) - 48.

Fixpoint lstrip (space : ascii -> bool) (cs : list ascii) : list ascii :=
  match cs with
  | [] => []
  | c :: cs' => if space c then lstrip space cs' else cs
  end.

Definition strip (space : ascii -> bool) (cs : list ascii) : list ascii :=
  rev (lstrip space (rev (lstrip space cs))).

Fixpoint digits (acc : Z) (after_digit : bool) (cs : list ascii) : option Z :=
  match cs with
  | [] => if after_digit then Some acc else None
  | c :: cs' =>
      if is_digit c then digits (10 * acc + digit_val c) true cs'
      else if Ascii.eqb c "_"%char && after_digit then digits acc false cs'
      else None
  end.

(** The number of decimal digits a conversion between [str] and [int]
    accepts. *)
Definition max_str_digits : nat := 4300.

Fixpoint count_digits (cs : list ascii) : nat :=
  match cs with
  | [] => O
  | c :: cs' => if is_digit c then S (count_digits cs') else count_digits cs'
  end.

Definition py_int (s : string) : result Z :=
  let cs := strip is_int_space (list_ascii_of_string s) in
  let body :=
    match cs with
    | c :: cs' =>
        if Ascii.eqb c "-"%char then option_map Z.opp (digits 0 false cs')
        else if Ascii.eqb c "+"%char then digits 0 false cs'
        else digits 0 false (c :: cs')
    | [] => None
    end in
  match body with
  | Some z => if (max_str_digits <? count_digits cs)%nat then Raise ValueError else Ok z
  | None => Raise ValueError
  end.

(** [str(n)], as an f-string prints an integer: the decimal digits, after a
    minus sign when [n] is negative; ValueError beyond the digit limit. *)
Definition py_str (n : Z) : result string :=
  if 10 ^ Z.of_nat max_str_digits <=? Z.abs n then Raise ValueError
  else Ok (NilZero.string_of_int (Z.to_int n)).

(** ** Python floats

    A finite binary64 number is [m * 2^e], negated when [float_neg] is set
    (the sign is kept apart because zero has one).  [nearest_float] rounds
    the ratio [n / d] of two positive integers to the nearest such number,
    ties to the even significand: 53 bits, or fewer below 2^-1022. *)

Record pyfloat : Type := mkFloat {
  float_neg : bool;
  float_m : Z;
  float_e : Z
}.

(** [n / d] rounded to the nearest integer, ties to even. *)
Definition round_half_even (n d : Z) : Z :=
  let q := n / d in
  let r := n mod d in
  if 2 * r <? d then q
  else if d <? 2 * r then q + 1
  else if Z.even q then q else q + 1.

(** The [e] with [2^e <= n / d < 2^(e+1)]. *)
Definition floor_log2 (n d : Z) : Z :=
  let k := Z.log2 n - Z.log2 d in
  if 0 <=? k then (if d * 2 ^ k <=? n then k else k - 1)
  else (if d <=? n * 2 ^ (- k) then k else k - 1).

Definition nearest_float (neg : bool) (n d : Z) : pyfloat :=
  if n =? 0 then mkFloat neg 0 0
  else
    let e := Z.max (floor_log2 n d - 52) (-1074) in
    let m := if 0 <=? e then round_half_even n (d * 2 ^ e)
             else round_half_even (n * 2 ^ (- e)) d in
    mkFloat neg m e.

(** From this magnitude on a number rounds beyond the largest float,
    2^1024 - 2^971. *)
Definition float_limit : Z := 2 ^ 1024 - 2 ^ 970.

(** The conversion of an integer that [float + int] and [float / int]
    perform: "int too large to convert to float". *)
Definition float_of_int (n : Z) : result pyfloat :=
  if float_limit <=? Z.abs n then Raise OverflowError
  else Ok (nearest_float (n <? 0) (Z.abs n) 1).

(** [a / b] on integers: the quotient correctly rounded;
    "integer division result too large for a float". *)
Definition true_divide (a b : Z) : result pyfloat :=
  if b =? 0 then Raise ZeroDivisionError
  else if float_limit * Z.abs b <=? Z.abs a then Raise OverflowError
  else Ok (nearest_float (xorb (a <? 0) (b <? 0)) (Z.abs a) (Z.abs b)).

(** The digit [k] as a character. *)
Definition digit_char (k : Z) : ascii := ascii_of_N (Z.to_N (48 + k)).

(** [f"{x:.2f}"]: the decimal numeral with two places nearest to [x], ties
    to the even last place, with the sign of [x]. *)
Definition format_2f (x : pyfloat) : string :=
  let m := float_m x in
  let e := float_e x in
  let t := if 0 <=? e then m * 100 * 2 ^ e
           else round_half_even (m * 100) (2 ^ (- e)) in
  ((if float_neg x then "-" else EmptyString)
   ++ NilZero.string_of_int (Z.to_int (t / 100)) ++ "."
   ++ String (digit_char (t mod 100 / 10)) (String (digit_char (t mod 100 mod 10)) EmptyString))%string.

(** [s.startswith("p")] *)
Definition startswith_p (s : string) : bool :=
  match s with
  | String c _ => Ascii.eqb c "p"%char
  | EmptyString => false
  end.

(** [s[1:]] *)
Definition tail1 (s : string) : string :=
  match s with
  | String _ s' => s'
  | EmptyString => EmptyString
  end.

(** ** Stable sorting by key

    [list.sort(key=f)] computes every key first (so a key that raises leaves
    the list as it was), then sorts the pairs on their keys alone, stably.
    A stable sort is determined by its input, so insertion from the right
    stands for CPython's merge sort. *)

Section StableSort.
  Context {K A : Type} (leb : K -> K -> bool).

Fixpoint insert_by (x : K * A) (l : list (K * A)) : list (K * A) :=
  match l with
  | [] => [x]
  | y :: l' => if leb (fst x) (fst y) then x :: y :: l' else y :: insert_by x l'
  end.

Definition sort_pairs (l : list (K * A)) : list (K * A) :=
  foldr insert_by [] l.

Fixpoint keyed (key : A -> result K) (l : list A) : result (list (K * A)) :=
  match l with
  | [] => Ok []
  | x :: l' =>
      let* k := key x in
      let* r := keyed key l' in
      Ok ((k, x) :: r)
  end.

Definition py_sort (key : A -> result K) (l : list A) : result (list A) :=
  let* kl := keyed key l in
  Ok (map snd (sort_pairs kl)).

End StableSort.

(** Tuples compare lexicographically. *)
Definition leb_ZZ (a b : Z * Z) : bool :=
  (fst a <? fst b) || ((fst a =? fst b) && (snd a <=? snd b)).

Definition leb_Zstring (a b : Z * string) : bool :=
  (fst a <? fst b) || ((fst a =? fst b) && String.leb (snd a) (snd b)).

(** ** PCB and Process *)

(** Modelled from the spec: the class [PCB] of [Pcb.py], which is not among
    the sources.  Its fields are the spec's data model (AT, BT, TE, CT, WT,
    RT, TAT, queue, priority, done) and the end time written by [set_et];
    every getter reads one field and every setter writes one field. *)
Record PCB : Type := mkPCB {
  get_at : Z;
  get_bt : Z;
  get_te : Z;
  get_ct : Z;
  get_wt : Z;
  get_rt : Z;
  get_tat : Z;
  get_et : Z;
  get_queue : Z;
  get_priority : string;
  is_done : bool
}.

Definition set_te (v : Z) (p : PCB) : PCB :=
  mkPCB (get_at p) (get_bt p) v (get_ct p) (get_wt p) (get_rt p) (get_tat p)
        (get_et p) (get_queue p) (get_priority p) (is_done p).
Definition set_ct (v : Z) (p : PCB) : PCB :=
  mkPCB (get_at p) (get_bt p) (get_te p) v (get_wt p) (get_rt p) (get_tat p)
        (get_et p) (get_queue p) (get_priority p) (is_done p).
Definition set_wt (v : Z) (p : PCB) : PCB :=
  mkPCB (get_at p) (get_bt p) (get_te p) (get_ct p) v (get_rt p) (get_tat p)
        (get_et p) (get_queue p) (get_priority p) (is_done p).
Definition set_rt (v : Z) (p : PCB) : PCB :=
  mkPCB (get_at p) (get_bt p) (get_te p) (get_ct p) (get_wt p) v (get_tat p)
        (get_et p) (get_queue p) (get_priority p) (is_done p).
Definition set_tat (v : Z) (p : PCB) : PCB :=
  mkPCB (get_at p) (get_bt p) (get_te p) (get_ct p) (get_wt p) (get_rt p) v
        (get_et p) (get_queue p) (get_priority p) (is_done p).
Definition set_et (v : Z) (p : PCB) : PCB :=
  mkPCB (get_at p) (get_bt p) (get_te p) (get_ct p) (get_wt p) (get_rt p) (get_tat p)
        v (get_queue p) (get_priority p) (is_done p).
Definition set_done (p : PCB) : PCB :=
  mkPCB (get_at p) (get_bt p) (get_te p) (get_ct p) (get_wt p) (get_rt p) (get_tat p)
        (get_et p) (get_queue p) (get_priority p) true.

(** Modelled from the spec: the PCB as created, "AT/BT fixed, RT=unset,
    TE=0, done=false", the unset RT being the negative sentinel that
    [__state_save] tests with [get_rt() < 0].  CT, WT, TAT and the end time
    are unset until written; they stand at 0 here and no engine reads them
    before it has written them.  ([get_metrics] reads them as they are: the
    statements about the results file are about queues that were run.) *)
Definition new_PCB (a b : Z) (priority : string) (queue : Z) : PCB :=
  mkPCB a b 0 0 0 (-1) 0 0 queue priority false.

(** Modelled from the spec: the class [Process] of [process.py], which is not
    among the sources: a tag paired with its PCB. *)
Record Process : Type := mkProcess {
  get_tag : string;
  get_pcb : PCB
}.

Definition with_pcb (p : Process) (pcb : PCB) : Process :=
  mkProcess (get_tag p) pcb.

(** Modelled from the spec: the constructor [Process(tag, at, bt, priority,
    queue)].  The spec's error design has it reject a burst time that is not
    positive ("NonTerminatingProcess — BT ≤ 0: rejected at construction"). *)
Definition new_Process (tag : string) (a b : Z) (priority : string) (queue : Z)
  : result Process :=
  if b <=? 0 then Raise NonTerminatingProcess
  else Ok (mkProcess tag (new_PCB a b priority queue)).

(** A process as created and not yet touched by an engine. *)
Definition fresh (p : Process) : Prop :=
  get_te (get_pcb p) = 0 /\ get_rt (get_pcb p) < 0 /\ is_done (get_pcb p) = false.

(** ** The shared ordering rule ([_order_queue] / [__order_queue]) *)

Definition key_suffix (p : Process) : result (Z * Z) :=
  let* n := py_int (tail1 (get_tag p)) in
  Ok (get_at (get_pcb p), n).

Definition key_tag (p : Process) : result (Z * string) :=
  Ok (get_at (get_pcb p), get_tag p).

Definition order_queue (q : list Process) : result (list Process) :=
  let* last := py_getitem q (-1) in
  if startswith_p (get_tag last)
  then py_sort leb_ZZ key_suffix q
  else py_sort leb_Zstring key_tag q.

(** ** fcfs.py *)

Module FCFS.

Record t : Type := mk {
  _ready_queue : list Process;
  _current_process : Z;
  _time : Z
}.

(** [FCFS(proceses, time)] *)
Definition init (proceses : list Process) (time : Z) : t :=
  mk proceses 0 time.

Definition get_time (s : t) : Z := _time s.

Definition _order_queue (s : t) : result t :=
  let* q := order_queue (_ready_queue s) in
  Ok (mk q (_current_process s) (_time s)).

Definition _excecute_process (s : t) : result t :=
  let* process := py_getitem (_ready_queue s) (_current_process s) in
  let pcb := get_pcb process in
  let pcb := set_rt (_time s) pcb in
  let pcb := set_wt (_time s - get_at pcb) pcb in
  let time := _time s + get_bt pcb in
  let pcb := set_ct time pcb in
  let pcb := set_tat (get_ct pcb - get_at pcb) pcb in
  Ok (mk (py_store (_ready_queue s) (_current_process s) (with_pcb process pcb))
         (_current_process s + 1)
         time).

(** The body of [for p in self._ready_queue] in [_calculate_metrics]: four
    times [float += int], each converting its integer. *)
Definition accumulate (p : Process) : result unit :=
  let pcb := get_pcb p in
  let* avg_ct := float_of_int (get_ct pcb) in
  let* avg_wt := float_of_int (get_wt pcb) in
  let* avg_rt := float_of_int (get_rt pcb) in
  let* avg_tat := float_of_int (get_ct pcb - get_at pcb) in
  Ok tt.

Fixpoint accumulate_all (q : list Process) : result unit :=
  match q with
  | [] => Ok tt
  | p :: q' => let* _ := accumulate p in accumulate_all q'
  end.

(** [_calculate_metrics].  The four averages are floats kept in private
    attributes that no method reads, so they are not stored; what the
    method can do is raise.  Each [+=] converts an integer to a float and
    raises OverflowError when it is beyond the float range (adding floats
    raises nothing), and [/= total_processes] raises ZeroDivisionError on
    zero (the length of a list always converts). *)
Definition _calculate_metrics (s : t) : result t :=
  let total_processes := Z.of_nat (length (_ready_queue s)) in
  let* _ := accumulate_all (_ready_queue s) in
  if total_processes =? 0 then Raise ZeroDivisionError
  else Ok s.

Definition start_processing (s : t) : result t :=
  let* s := _order_queue s in
  let* s := for_each (_ready_queue s) _excecute_process s in
  _calculate_metrics s.

(** The engine as its callers use it: construct, run, read the queue and the
    clock. *)
Definition run (q : list Process) (time : Z) : result (list Process * Z) :=
  let* s := start_processing (init q time) in
  Ok (_ready_queue s, get_time s).

End FCFS.

(** ** Round_robin.py *)

Module RoundRobin.

Record t : Type := mk {
  __quantum : Z;
  __time : Z;
  __initial_time : Z;
  __queue : list Process;
  __current_process_started : Z;
  __current_process_index : Z
}.

(** [RoundRobin(quantum, processes, time)] *)
Definition init (quantum : Z) (processes : list Process) (time : Z) : t :=
  mk quantum time time processes 0 0.

Definition get_time (s : t) : Z := __time s.

Definition with_queue (s : t) (q : list Process) : t :=
  mk (__quantum s) (__time s) (__initial_time s) q
     (__current_process_started s) (__current_process_index s).

Definition __order_queue (s : t) : result t :=
  let* q := order_queue (__queue s) in
  Ok (with_queue s q).

(** The methods below receive a process [p] of the queue; [i] is its
    position, which is also what [self.__queue.index(p)] finds. *)

Definition __state_save (s : t) (i : Z) : result t :=
  let* p := py_getitem (__queue s) i in
  let pcb := get_pcb p in
  let time_excecuted := __time s - __current_process_started s in
  let pcb := set_et (__time s) pcb in
  let pcb := set_te (get_te pcb + time_excecuted) pcb in
  let pcb := if get_rt pcb <? 0 then set_rt (__current_process_started s) pcb else pcb in
  Ok (with_queue s (py_store (__queue s) i (with_pcb p pcb))).

Definition __state_restore (s : t) (i : Z) : result Z :=
  let* p := py_getitem (__queue s) i in
  let pcb := get_pcb p in
  Ok (get_bt pcb - get_te pcb).

Definition __mark_process_done (s : t) (i : Z) : result t :=
  let* p := py_getitem (__queue s) i in
  let pcb := get_pcb p in
  let pcb := set_done pcb in
  let pcb := set_ct (__time s) pcb in
  let pcb := set_wt (get_ct pcb - get_at pcb - get_bt pcb) pcb in
  let pcb := set_tat (get_ct pcb - get_at pcb) pcb in
  Ok (with_queue s (py_store (__queue s) i (with_pcb p pcb))).

Definition tick (s : t) : t :=
  mk (__quantum s) (__time s + 1) (__initial_time s) (__queue s)
     (__current_process_started s) (__current_process_index s).

(** The body of [for i in range(self.__quantum)], over the values of [i]
    still to come.  The boolean tells whether [ProcessExpropiatedException]
    was raised ([true]) or the loop ran out ([false]). *)
Fixpoint slice (rng : list Z) (s : t) (p : Z) (remaining_time : Z) : result (t * bool) :=
  match rng with
  | [] => Ok (s, false)
  | i :: rng' =>
      let s := tick s in
      let remaining_time := remaining_time - 1 in
      if remaining_time =? 0 then
        let* s := __state_save s p in
        let* s := __mark_process_done s p in
        Ok (s, true)
      else if i =? __quantum s - 1 then
        let* s := __state_save s p in
        Ok (s, true)
      else slice rng' s p remaining_time
  end.

Definition __excecute_process (s : t) (p : Z) : result (t * bool) :=
  let s := mk (__quantum s) (__time s) (__initial_time s) (__queue s)
              (__time s) p in
  let* remaining_time := __state_restore s p in
  slice (py_range (__quantum s)) s p remaining_time.

(** [for i in range(...): p = queue[index + i + 1]; if not done: return p],
    followed by [raise IndexError]. *)
Fixpoint scan_after (q : list Process) (index : Z) (rng : list Z) : result (option Z) :=
  match rng with
  | [] => Raise IndexError
  | i :: rng' =>
      let* p := py_getitem q (index + i + 1) in
      if negb (is_done (get_pcb p)) then Ok (Some (index + i + 1))
      else scan_after q index rng'
  end.

(** [for p in queue: if not done: return p], then [return None]; [k] is the
    position of the head of [q]. *)
Fixpoint scan_front (q : list Process) (k : Z) : option Z :=
  match q with
  | [] => None
  | p :: q' => if negb (is_done (get_pcb p)) then Some k else scan_front q' (k + 1)
  end.

Definition __next_process (s : t) : result (option Z) :=
  try_except_IndexError
    (if __time s =? __initial_time s then
       let* p := py_getitem (__queue s) 0 in Ok (Some 0)
     else
       scan_after (__queue s) (__current_process_index s)
         (py_range (Z.of_nat (length (__queue s)) - __current_process_index s + 1)))
    (Ok (scan_front (__queue s) 0)).

(** [while next_process is not None: try: execute except: next_process = next]
    When [__excecute_process] returns without raising, the loop goes round
    with the same process. *)
Fixpoint loop (fuel : nat) (s : t) (next_process : option Z) : result t :=
  match next_process with
  | None => Ok s
  | Some p =>
      match fuel with
      | O => OutOfFuel
      | S fuel' =>
          let* '(s, expropiated) := __excecute_process s p in
          if (expropiated : bool) then
            let* next_process := __next_process s in
            loop fuel' s next_process
          else loop fuel' s (Some p)
      end
  end.

Definition start_processing (fuel : nat) (s : t) : result t :=
  let* s := __order_queue s in
  let* next_process := __next_process s in
  loop fuel s next_process.

Definition run (fuel : nat) (quantum : Z) (q : list Process) (time : Z)
  : result (list Process * Z) :=
  let* s := start_processing fuel (init quantum q time) in
  Ok (__queue s, get_time s).

End RoundRobin.

(** ** mlq.py *)

(** [s.split(";")] *)
Fixpoint split_semicolon (s : string) : list string :=
  match s with
  | EmptyString => [EmptyString]
  | String c s' =>
      if Ascii.eqb c ";"%char then EmptyString :: split_semicolon s'
      else match split_semicolon s' with
           | f :: fs => String c f :: fs
           | [] => [String c EmptyString]
           end
  end.

(** [s.strip()] *)
Definition py_strip (s : string) : string :=
  string_of_list_ascii (strip is_space (list_ascii_of_string s)).

(** The line feed. *)
Definition nl : string := String (ascii_of_nat 10) EmptyString.

Module MLQ.

Record t : Type := mk {
  __queues : list (list Process);
  __time : Z
}.

(** [queues[i].append(p)] *)
Definition append_to (queues : list (list Process)) (i : Z) (p : Process)
  : result (list (list Process)) :=
  let* q := py_getitem queues i in
  Ok (py_store queues i (q ++ [p])).

(** One line of the input: [tag, bt, at, queue, priority = line.split(";")],
    the three numbers converted, and the process constructed. *)
Definition read_line (line : string) : result Process :=
  match split_semicolon line with
  | [tag; bt; a; queue; priority] =>
      let* a := py_int (py_strip a) in
      let* bt := py_int (py_strip bt) in
      let* queue := py_int (py_strip queue) in
      new_Process tag a bt priority queue
  | _ => Raise ValueError
  end.

(** The loop over the lines, the first two being headers; [i] is the number
    of the head of [lines]. *)
Fixpoint read_lines (i : Z) (lines : list string) (processes : list Process)
  (max_queues : Z) : result (list Process * Z) :=
  match lines with
  | [] => Ok (processes, max_queues)
  | line :: lines' =>
      if (i =? 0) || (i =? 1) then read_lines (i + 1) lines' processes max_queues
      else
        let* p := read_line line in
        let queue := get_queue (get_pcb p) in
        let max_queues := if queue >? max_queues then queue else max_queues in
        read_lines (i + 1) lines' (processes ++ [p]) max_queues
  end.

(** [for p in processes: queues[p.queue - 1].append(p)] *)
Fixpoint distribute (processes : list Process) (queues : list (list Process))
  : result (list (list Process)) :=
  match processes with
  | [] => Ok queues
  | p :: processes' =>
      let* queues := append_to queues (get_queue (get_pcb p) - 1) p in
      distribute processes' queues
  end.

(** [__read_file], from the lines of the file. *)
Definition __read_file (lines : list string) : result (list (list Process)) :=
  let* '(processes, max_queues) := read_lines 0 lines [] 0 in
  distribute processes (map (fun _ => []) (py_range max_queues)).

(** [MLQ(filename)], from the lines of the file. *)
Definition init (lines : list string) : result t :=
  let* queues := __read_file lines in
  Ok (mk queues 0).

(** The body of [for i in range(len(self.__queues))]. *)
Definition step (fuel : nat) (s : t) (i : Z) : result t :=
  let* q := py_getitem (__queues s) i in
  if Z.of_nat (length q) >? 0 then
    if i =? 0 then
      let* rr3 := RoundRobin.start_processing fuel (RoundRobin.init 3 q (__time s)) in
      Ok (mk (py_store (__queues s) i (RoundRobin.__queue rr3)) (RoundRobin.get_time rr3))
    else if i =? 1 then
      let* rr5 := RoundRobin.start_processing fuel (RoundRobin.init 5 q (__time s)) in
      Ok (mk (py_store (__queues s) i (RoundRobin.__queue rr5)) (RoundRobin.get_time rr5))
    else if i =? 2 then
      let* fcfs := FCFS.start_processing (FCFS.init q (__time s)) in
      Ok (mk (py_store (__queues s) i (FCFS._ready_queue fcfs)) (FCFS.get_time fcfs))
    else Ok s
  else Ok s.

Fixpoint steps (fuel : nat) (rng : list Z) (s : t) : result t :=
  match rng with
  | [] => Ok s
  | i :: rng' => let* s := step fuel s i in steps fuel rng' s
  end.

Definition start_processing (fuel : nat) (s : t) : result t :=
  steps fuel (py_range (Z.of_nat (length (__queues s)))) s.

(** The first line [get_metrics] writes. *)
Definition metrics_header : string :=
  ("# etiqueta; BT; AT; Q; Pr; WT; CT; RT; TAT" ++ nl)%string.

(** The line [get_metrics] writes for a process; an integer beyond the
    digit limit makes the f-string raise ValueError. *)
Definition metrics_line (p : Process) : result string :=
  let pcb := get_pcb p in
  let wt := get_wt pcb in
  let ct := get_ct pcb in
  let rt := get_rt pcb in
  let tat := get_tat pcb in
  let* s_bt := py_str (get_bt pcb) in
  let* s_at := py_str (get_at pcb) in
  let* s_queue := py_str (get_queue pcb) in
  let* s_wt := py_str wt in
  let* s_ct := py_str ct in
  let* s_rt := py_str rt in
  let* s_tat := py_str tat in
  Ok (get_tag p ++ "; " ++ s_bt ++ "; " ++ s_at ++ "; " ++ s_queue ++ "; "
      ++ get_priority pcb ++ "; " ++ s_wt ++ "; " ++ s_ct ++ "; " ++ s_rt ++ "; "
      ++ s_tat ++ nl)%string.

(** The last line [get_metrics] writes: the four quotients are computed
    first, then printed with two decimals. *)
Definition averages_line (total_wt total_ct total_rt total_tat num_processes : Z)
  : result string :=
  let* avg_wt := true_divide total_wt num_processes in
  let* avg_ct := true_divide total_ct num_processes in
  let* avg_rt := true_divide total_rt num_processes in
  let* avg_tat := true_divide total_tat num_processes in
  Ok ("WT=" ++ format_2f avg_wt ++ "; CT=" ++ format_2f avg_ct ++ "; RT="
      ++ format_2f avg_rt ++ "; TAT=" ++ format_2f avg_tat ++ ";" ++ nl)%string.

(** [for p in queue], on the lines written so far, the four totals and the
    number of processes: the totals and the count are updated, then the line
    is written.  What was written stays written when a line raises. *)
Fixpoint write_queue (queue : list Process) (acc : list string * (Z * Z * Z * Z) * Z)
  : (list string * (Z * Z * Z * Z) * Z) * result unit :=
  match queue with
  | [] => (acc, Ok tt)
  | p :: queue' =>
      let '(written, (total_wt, total_ct, total_rt, total_tat), num_processes) := acc in
      let pcb := get_pcb p in
      let totals := (total_wt + get_wt pcb, total_ct + get_ct pcb,
                     total_rt + get_rt pcb, total_tat + get_tat pcb) in
      match metrics_line p with
      | Ok line => write_queue queue' (written ++ [line], totals, num_processes + 1)
      | Raise e => ((written, totals, num_processes + 1), Raise e)
      | OutOfFuel => ((written, totals, num_processes + 1), OutOfFuel)
      end
  end.

(** [for queue in self.__queues] *)
Fixpoint write_queues (queues : list (list Process))
  (acc : list string * (Z * Z * Z * Z) * Z)
  : (list string * (Z * Z * Z * Z) * Z) * result unit :=
  match queues with
  | [] => (acc, Ok tt)
  | queue :: queues' =>
      match write_queue queue acc with
      | (acc', Ok _) => write_queues queues' acc'
      | (acc', r) => (acc', r)
      end
  end.

(** [get_metrics]: the lines written to the results file, and whether the
    method returned or what it raised. *)
Definition get_metrics (s : t) : list string * result unit :=
  match write_queues (__queues s) ([metrics_header], (0, 0, 0, 0), 0) with
  | ((written, (total_wt, total_ct, total_rt, total_tat), num_processes), Ok _) =>
      match averages_line total_wt total_ct total_rt total_tat num_processes with
      | Ok line => (written ++ [line], Ok tt)
      | Raise e => (written, Raise e)
      | OutOfFuel => (written, OutOfFuel)
      end
  | ((written, _, _), r) => (written, r)
  end.

End MLQ.

(** * Definitions for the statements *)

(** The order of two keyed elements: that of their keys. *)
Definition key_le {K A : Type} (leb : K -> K -> bool) (x y : K * A) : Prop :=
  leb (fst x) (fst y) = true.

(** The key of [x] is equivalent to [k] in the order of the keys. *)
Definition same_key {K A : Type} (leb : K -> K -> bool) (key : A -> result K)
  (k : K) (x : A) : bool :=
  match key x with
  | Ok kx => leb k kx && leb kx k
  | _ => false
  end.

(** Ascending AT, ties by the integer after the tag's first character. *)
Definition by_at_suffix (p p' : Process) : Prop :=
  exists n n',
    py_int (tail1 (get_tag p)) = Ok n /\ py_int (tail1 (get_tag p')) = Ok n' /\
    (get_at (get_pcb p) < get_at (get_pcb p') \/
     (get_at (get_pcb p) = get_at (get_pcb p') /\ n <= n')).

(** Ascending AT, ties by the tag in lexicographic order. *)
Definition by_at_tag (p p' : Process) : Prop :=
  get_at (get_pcb p) < get_at (get_pcb p') \/
  (get_at (get_pcb p) = get_at (get_pcb p') /\ String.leb (get_tag p) (get_tag p') = true).

(** An ASCII letter. *)
Definition is_letter (c : ascii) : bool :=
  let n := N_of_ascii c in
  (((65 <=? n) && (n <=? 90)) || ((97 <=? n) && (n <=? 122)))%N.

(** A "letter+digits label": one letter followed by one digit or more. *)
Definition letter_digits (tag : string) : bool :=
  match tag with
  | String c (String d rest) =>
      is_letter c && forallb is_digit (d :: list_ascii_of_string rest)
  | _ => false
  end.

(** A "p+digits label": the letter p followed by one digit or more. *)
Definition p_digits (tag : string) : bool :=
  match tag with
  | String c (String d rest) =>
      Ascii.eqb c "p"%char && forallb is_digit (d :: list_ascii_of_string rest)
  | _ => false
  end.

(** The ordering rule in the specification's words: the tie-break is the
    integer suffix when every tag of the queue is a letter+digits label, and
    the tag otherwise. *)
Definition spec_order_rule (q s : list Process) : Prop :=
  q ≡ₚ s /\
  if forallb (fun p => letter_digits (get_tag p)) q
  then StronglySorted by_at_suffix s
  else StronglySorted by_at_tag s.

(** Two processes arriving together, "p10" before "p2" in the input: the
    last tag starts with "p", so the integer suffixes decide. *)
Definition tie_p10_p2 : list Process :=
  [mkProcess "p10" (new_PCB 0 4 "1" 1); mkProcess "p2" (new_PCB 0 4 "1" 1)].

(** The same two processes tagged "q10" and "q2": every tag is a
    letter+digits label, yet the queue is ordered by the tags as strings. *)
Definition tie_q10_q2 : list Process :=
  [mkProcess "q10" (new_PCB 0 4 "1" 1); mkProcess "q2" (new_PCB 0 4 "1" 1)].

(** The total burst time of a queue. *)
Definition sum_bt (q : list Process) : Z :=
  foldr (fun p acc => get_bt (get_pcb p) + acc) 0 q.

(** What [_excecute_process] leaves of a process dispatched at clock [t]. *)
Definition fcfs_executed (t : Z) (p : Process) : Process :=
  with_pcb p
    (set_tat (t + get_bt (get_pcb p) - get_at (get_pcb p))
       (set_ct (t + get_bt (get_pcb p))
          (set_wt (t - get_at (get_pcb p)) (set_rt t (get_pcb p))))).

(** The queue after FCFS has run it back to back from clock [t]. *)
Fixpoint fcfs_schedule (t : Z) (q : list Process) : list Process :=
  match q with
  | [] => []
  | p :: q' => fcfs_executed t p :: fcfs_schedule (t + get_bt (get_pcb p)) q'
  end.

(** A process arriving at 10 queued behind one arriving at 0: it is
    dispatched at clock 5, before it has arrived. *)
Definition early_dispatch : list Process :=
  [mkProcess "p1" (new_PCB 10 2 "1" 3); mkProcess "p2" (new_PCB 0 5 "1" 3)].

(** What [__state_save] leaves of a process whose slice started at clock
    [started] and is saved at clock [now]. *)
Definition rr_saved (started now : Z) (p : Process) : Process :=
  let pcb := get_pcb p in
  let pcb := set_et now pcb in
  let pcb := set_te (get_te pcb + (now - started)) pcb in
  with_pcb p (if get_rt pcb <? 0 then set_rt started pcb else pcb).

(** What [__mark_process_done] leaves of a process at clock [now]. *)
Definition rr_marked_done (now : Z) (p : Process) : Process :=
  let pcb := set_done (get_pcb p) in
  let pcb := set_ct now pcb in
  let pcb := set_wt (get_ct pcb - get_at pcb - get_bt pcb) pcb in
  with_pcb p (set_tat (get_ct pcb - get_at pcb) pcb).

(** The remaining burst reaches zero within the slice. *)
Definition finishes (quantum : Z) (p : Process) : bool :=
  let r := get_bt (get_pcb p) - get_te (get_pcb p) in
  (1 <=? r) && (r <=? quantum).

(** The ticks a dispatch of [p] takes. *)
Definition slice_len (quantum : Z) (p : Process) : Z :=
  if finishes quantum p then get_bt (get_pcb p) - get_te (get_pcb p) else quantum.

(** What a dispatch at clock [now] leaves of [p]. *)
Definition dispatched (quantum now : Z) (p : Process) : Process :=
  let p1 := rr_saved now (now + slice_len quantum p) p in
  if finishes quantum p then rr_marked_done (now + slice_len quantum p) p1 else p1.

(** The engine [d] ticks later. *)
Definition advance (s : RoundRobin.t) (d : Z) : RoundRobin.t :=
  RoundRobin.mk (RoundRobin.__quantum s) (RoundRobin.__time s + d)
    (RoundRobin.__initial_time s) (RoundRobin.__queue s)
    (RoundRobin.__current_process_started s) (RoundRobin.__current_process_index s).

(** The circular scan in closed form: the first process not done after
    position [k], else the first one not done from the front. *)
Definition circular_next (q : list Process) (k : nat) : option Z :=
  match RoundRobin.scan_front (drop (S k) q) (Z.of_nat (S k)) with
  | Some j => Some j
  | None => RoundRobin.scan_front q 0
  end.

(** The done flag of a process is set. *)
Definition finished (p : Process) : Prop := is_done (get_pcb p) = true.

(** One turn of the [while] loop, on the engine and the process chosen for
    the next turn. *)
Inductive rr_step : RoundRobin.t * option Z -> RoundRobin.t * option Z -> Prop :=
| rr_step_expropiated (s s' : RoundRobin.t) (p : Z) (n : option Z) :
    RoundRobin.__excecute_process s p = Ok (s', true) ->
    RoundRobin.__next_process s' = Ok n ->
    rr_step (s, Some p) (s', n)
| rr_step_returned (s s' : RoundRobin.t) (p : Z) :
    RoundRobin.__excecute_process s p = Ok (s', false) ->
    rr_step (s, Some p) (s', Some p).

(** A process an engine can run: TE within BT, and done exactly at TE = BT. *)
Definition live (p : Process) : Prop :=
  0 < get_bt (get_pcb p) /\ 0 <= get_te (get_pcb p) /\
  if is_done (get_pcb p) then get_te (get_pcb p) = get_bt (get_pcb p)
  else get_te (get_pcb p) < get_bt (get_pcb p).

(** The loop invariant: a positive quantum, a clock at or past the start
    time, live processes, and a next process that is in the queue and not
    done (or none when all are done). *)
Definition rr_inv (x : RoundRobin.t * option Z) : Prop :=
  0 < RoundRobin.__quantum (fst x) /\
  RoundRobin.__initial_time (fst x) <= RoundRobin.__time (fst x) /\
  Forall live (RoundRobin.__queue (fst x)) /\
  match snd x with
  | Some j =>
      exists (i : nat) (p : Process),
        j = Z.of_nat i /\ RoundRobin.__queue (fst x) !! i = Some p /\
        is_done (get_pcb p) = false
  | None => Forall finished (RoundRobin.__queue (fst x))
  end.

(** The state a dispatch of the process at position [i] leads to. *)
Definition after_dispatch (s : RoundRobin.t) (i : nat) (p : Process) : RoundRobin.t :=
  RoundRobin.mk (RoundRobin.__quantum s)
    (RoundRobin.__time s + slice_len (RoundRobin.__quantum s) p)
    (RoundRobin.__initial_time s)
    (<[i := dispatched (RoundRobin.__quantum s) (RoundRobin.__time s) p]>
       (RoundRobin.__queue s))
    (RoundRobin.__time s)
    (Z.of_nat i).

(** The burst a process still needs. *)
Definition remaining_of (p : Process) : Z :=
  if is_done (get_pcb p) then 0 else get_bt (get_pcb p) - get_te (get_pcb p).

(** The burst the processes of a queue still need. *)
Definition remaining (q : list Process) : Z :=
  foldr (fun p acc => remaining_of p + acc) 0 q.

(** The engine after [__init__] and [__order_queue]. *)
Definition ordered (quantum t0 : Z) (s : list Process) : RoundRobin.t :=
  RoundRobin.mk quantum t0 t0 s 0 0.

(** The specification's scenario: p1 (AT=0, BT=4) and p2 (AT=1, BT=4) under
    a quantum of 2 from time 0. *)
Definition rr_scenario : list Process :=
  [mkProcess "p1" (new_PCB 0 4 "1" 1); mkProcess "p2" (new_PCB 1 4 "1" 1)].

(** The times of a process seen at clock [now] in a run started at [t0]:
    a negative RT means never dispatched; a recorded RT is the clock of the
    first dispatch, and all executed time lies between it and [now]. *)
Definition timed (t0 now : Z) (p : Process) : Prop :=
  (get_rt (get_pcb p) < 0 ->
   get_te (get_pcb p) = 0 /\ is_done (get_pcb p) = false) /\
  (0 <= get_rt (get_pcb p) ->
   t0 <= get_rt (get_pcb p) /\ get_rt (get_pcb p) + get_te (get_pcb p) <= now) /\
  (is_done (get_pcb p) = true ->
   get_rt (get_pcb p) + get_bt (get_pcb p) <= get_ct (get_pcb p) /\
   get_ct (get_pcb p) <= now).

(** What the output reports of a process: tag, WT, CT, RT and TAT. *)
Definition metrics (p : Process) : string * (Z * Z * Z * Z) :=
  (get_tag p,
   (get_wt (get_pcb p), get_ct (get_pcb p), get_rt (get_pcb p), get_tat (get_pcb p))).

(** Each process dispatched once, back to back, from clock [t]. *)
Fixpoint rr_schedule (quantum t : Z) (q : list Process) : list Process :=
  match q with
  | [] => []
  | p :: q' => dispatched quantum t p :: rr_schedule quantum (t + get_bt (get_pcb p)) q'
  end.

(** An empty queue is skipped: no engine is built for it. *)
Definition on_nonempty (run : list Process -> Z -> result (list Process * Z))
  (q : list Process) (t : Z) : result (list Process * Z) :=
  match q with
  | [] => Ok ([], t)
  | _ :: _ => run q t
  end.



(** A queue as [__read_file] fills it: fresh processes with a positive BT. *)
Definition wf_queue (q : list Process) : Prop :=
  Forall (fun p => fresh p /\ 0 < get_bt (get_pcb p)) q.



(** A queue the ordering step accepts: empty (and skipped), or sorted without
    a [ValueError]. *)
Definition sortable (q : list Process) : Prop :=
  q = [] \/ exists s, order_queue q = Ok s.

(** The specification's scenario: queue 1 holds p1 (AT=0, BT=10) and queue 2
    holds p2 (AT=0, BT=2). *)
Definition two_queues : list (list Process) :=
  [[mkProcess "p1" (new_PCB 0 10 "1" 1)]; [mkProcess "p2" (new_PCB 0 2 "1" 2)]].

(** A file of two processes, one in queue 1 and one in queue 2. *)
Definition sample_lines : list string :=
  ["# file"; "# tag; BT; AT; Q; Pr"; "p1;10;0;1;5"; "p2; 2; 0; 2; 4"]%string.

(** The dispatcher built from that file. *)
Definition sample_state : MLQ.t :=
  MLQ.mk [[mkProcess "p1" (new_PCB 0 10 "5" 1)];
          [mkProcess "p2" (new_PCB 0 2 " 4" 2)]] 0.

(** The time the processes of a queue have executed. *)
Definition sum_te (q : list Process) : Z :=
  foldr (fun p acc => get_te (get_pcb p) + acc) 0 q.

(** What no engine changes of a process: tag, AT and BT. *)
Definition descriptor (p : Process) : string * Z * Z :=
  (get_tag p, get_at (get_pcb p), get_bt (get_pcb p)).

(** A lone process with BT = 0. *)
Definition zero_burst : Process := mkProcess "p1" (new_PCB 0 0 "1" 1).

(** The ticks the first slices of the processes of a queue take: each runs
    for the quantum, or for its whole burst when that is shorter. *)
Definition first_slices (quantum : Z) (q : list Process) : Z :=
  foldr (fun p acc => Z.min quantum (get_bt (get_pcb p)) + acc) 0 q.

(** The scenario's engine after the first slice of p1: the clock at 2, p1 at
    position 0 the process last dispatched. *)
Definition rr_preempted : RoundRobin.t :=
  after_dispatch (ordered 2 0 rr_scenario) 0 (mkProcess "p1" (new_PCB 0 4 "1" 1)).

(** The position [queues[p.get_pcb().get_queue() - 1]] denotes among
    [max_queues] queues, if any. *)
Definition queue_slot (max_queues : Z) (p : Process) : option nat :=
  py_index (py_range max_queues) (get_queue (get_pcb p) - 1).

(** A queue of mixed tags: a10 and p2, both with AT = 0. *)
Definition mixed_tags : list Process :=
  [mkProcess "a10" (new_PCB 0 1 "1" 1); mkProcess "p2" (new_PCB 0 1 "1" 1)].

(** The scenario's queue as an engine leaves it: both processes done with
    TE = BT. *)
Definition rr_scenario_done : list Process :=
  [mkProcess "p1" (mkPCB 0 4 4 6 2 0 6 6 1 "1" true);
   mkProcess "p2" (mkPCB 1 4 4 8 3 2 7 8 1 "1" true)].

(** The sum of a field of the PCB over the processes of a queue. *)
Definition total (field : PCB -> Z) (q : list Process) : Z :=
  foldr (fun p acc => field (get_pcb p) + acc) 0 q.

(** The dispatcher built from the sample file, once it has run. *)
Definition sample_done : MLQ.t :=
  Eval vm_compute in
    match MLQ.start_processing 10 sample_state with
    | Ok s => s
    | _ => sample_state
    end.

(** What the input file says of a process: tag, BT, AT, queue and priority. *)
Definition input_fields (p : Process) : string * Z * Z * Z * string :=
  (get_tag p, get_bt (get_pcb p), get_at (get_pcb p), get_queue (get_pcb p),
   get_priority (get_pcb p)).

(** The process chosen for the next turn of the loop is in the queue. *)
Definition valid_next (s : RoundRobin.t) (n : option Z) : Prop :=
  match n with
  | Some j => exists (i : nat) (p : Process),
                j = Z.of_nat i /\ RoundRobin.__queue s !! i = Some p
  | None => True
  end.

(** The time the processes of a queue have executed once each has been
    given [rounds] slices: the whole burst, or that many quanta. *)
Definition executed_by (quantum rounds : Z) (q : list Process) : Z :=
  foldr (fun p acc => Z.min (get_bt (get_pcb p)) (rounds * quantum) + acc) 0 q.

(** The slices a process needs: its burst time divided by the quantum,
    rounded up. *)
Definition slices_needed (quantum : Z) (p : Process) : Z :=
  (get_bt (get_pcb p) + quantum - 1) / quantum.

(** The clock at which the last slice of the process at position [i] ends:
    by then it and the processes before it have had as many slices as it
    needs, and the processes after it one fewer. *)
Definition rr_completion (quantum t0 : Z) (s : list Process) (i : nat) (p : Process) : Z :=
  let k := slices_needed quantum p in
  t0 + executed_by quantum k (take (S i) s) + executed_by quantum (k - 1) (drop (S i) s).

(** The processes before position [c] have had [r + 1] slices, the others
    [r]. *)
Definition in_round (quantum r : Z) (c : nat) (q : list Process) : Prop :=
  forall (j : nat) (p : Process),
    q !! j = Some p ->
    get_te (get_pcb p)
    = Z.min (get_bt (get_pcb p)) ((if (j <? c)%nat then r + 1 else r) * quantum).

(** The process chosen next is the first one not done from position [c] on,
    or, when there is none, the first one not done from the front. *)
Definition next_in_round (c : nat) (q : list Process) (n : option Z) : Prop :=
  match n with
  | Some j =>
      exists i : nat,
        j = Z.of_nat i /\
        (((c <= i)%nat /\
          forall m p, (c <= m < i)%nat -> q !! m = Some p -> finished p) \/
         ((i < c)%nat /\
          (forall m p, (c <= m)%nat -> q !! m = Some p -> finished p) /\
          (forall m p, (m < i)%nat -> q !! m = Some p -> finished p)))
  | None => True
  end.

(** The slices a process still needs. *)
Definition slices_left (quantum : Z) (p : Process) : Z :=
  if is_done (get_pcb p) then 0
  else (get_bt (get_pcb p) - get_te (get_pcb p) + quantum - 1) / quantum.

(** The dispatches a queue still needs. *)
Definition dispatches_left (quantum : Z) (q : list Process) : Z :=
  foldr (fun p acc => slices_left quantum p + acc) 0 q.

(** The dispatches a queue of fresh processes needs: the sum over its
    processes of BT / quantum rounded up. *)
Definition dispatches (quantum : Z) (q : list Process) : Z :=
  foldr (fun p acc => slices_needed quantum p + acc) 0 q.

(** The number of semicolons in a line. *)
Fixpoint semicolons (s : string) : nat :=
  match s with
  | EmptyString => O
  | String c s' => if Ascii.eqb c ";"%char then S (semicolons s') else semicolons s'
  end.

(** A file whose only line after the header is blank. *)
Definition blank_line_file : list string :=
  ["# file"; "# tag; BT; AT; Q; Pr"; EmptyString]%string.

(** The integer converts to a float. *)
Definition fits_float (n : Z) : bool := Z.abs n <? float_limit.

(** Every CT, WT, RT and CT - AT of the queue converts to a float, so that
    [_calculate_metrics] can add them up. *)
Definition floats_fit (q : list Process) : bool :=
  forallb (fun p => fits_float (get_ct (get_pcb p)) && fits_float (get_wt (get_pcb p))
                    && fits_float (get_rt (get_pcb p))
                    && fits_float (get_ct (get_pcb p) - get_at (get_pcb p))) q.

(** The queue and the clock of a new FCFS engine when [start_processing] has
    ordered the queue and executed every process, with [_calculate_metrics]
    still to run. *)
Definition FCFS_executed (q : list Process) (time : Z) : result (list Process * Z) :=
  let* s := FCFS._order_queue (FCFS.init q time) in
  let* s := for_each (FCFS._ready_queue s) FCFS._excecute_process s in
  Ok (FCFS._ready_queue s, FCFS.get_time s).

(** What the engine then answers its caller: the queue and the clock, or the
    OverflowError of [_calculate_metrics], the PCBs being written either
    way. *)
Definition FCFS_returns (q' : list Process) (t : Z) : result (list Process * Z) :=
  if floats_fit q' then Ok (q', t) else Raise OverflowError.

(** The numbers [get_metrics] prints for a process are within the float
    range (which lies within the digit limit of [str]). *)
Definition metrics_fit (p : Process) : bool :=
  let pcb := get_pcb p in
  fits_float (get_bt pcb) && fits_float (get_at pcb) && fits_float (get_queue pcb)
  && fits_float (get_wt pcb) && fits_float (get_ct pcb) && fits_float (get_rt pcb)
  && fits_float (get_tat pcb).

(** The start time, the bursts and the arrival times of a queue are small
    enough for every time FCFS computes to convert to a float. *)
Definition times_fit (t0 : Z) (q : list Process) : Prop :=
  Forall (fun p => 0 <= get_bt (get_pcb p) /\
                   Z.abs t0 + sum_bt q + Z.abs (get_at (get_pcb p)) < float_limit) q.

(** * Properties *)

(** ** The result monad *)

Lemma bind_Ok {A B : Type} (m : result A) (k : A -> result B) (b : B) :
  bind m k = Ok b -> exists a, m = Ok a /\ k a = Ok b.
Proof. destruct m; simpl; intros H; try discriminate. eauto. Qed.

Ltac inv_bind H :=
  let a := fresh "a" in
  let Ha := fresh "Ha" in
  apply bind_Ok in H; destruct H as (a & Ha & H).

(** ** Python lists *)

Lemma py_index_nat {A : Type} (l : list A) (i : nat) :
  (i < length l)%nat -> py_index l (Z.of_nat i) = Some i.
Proof.
  intros Hi. unfold py_index.
  replace (0 <=? Z.of_nat i) with true by (symmetry; apply Z.leb_le; lia).
  replace (Z.of_nat i <? Z.of_nat (length l)) with true
    by (symmetry; apply Z.ltb_lt; lia).
  simpl. f_equal. lia.
Qed.

Lemma py_index_ge {A : Type} (l : list A) (i : nat) :
  (length l <= i)%nat -> py_index l (Z.of_nat i) = None.
Proof.
  intros Hi. unfold py_index.
  replace (Z.of_nat i <? Z.of_nat (length l)) with false
    by (symmetry; apply Z.ltb_ge; lia).
  replace (Z.of_nat i <? 0) with false by (symmetry; apply Z.ltb_ge; lia).
  now rewrite !andb_false_r.
Qed.

Lemma py_getitem_nat {A : Type} (l : list A) (i : nat) :
  py_getitem l (Z.of_nat i) =
  match l !! i with Some x => Ok x | None => Raise IndexError end.
Proof.
  unfold py_getitem. destruct (Nat.lt_ge_cases i (length l)) as [Hi | Hi].
  - now rewrite py_index_nat.
  - rewrite py_index_ge by done. now rewrite (lookup_ge_None_2 l i Hi).
Qed.

Lemma py_store_nat {A : Type} (l : list A) (i : nat) (x : A) :
  py_store l (Z.of_nat i) x = <[i := x]> l.
Proof.
  unfold py_store. destruct (Nat.lt_ge_cases i (length l)) as [Hi | Hi].
  - now rewrite py_index_nat.
  - rewrite py_index_ge by done. now rewrite list_insert_ge.
Qed.

Lemma py_getitem_last {A : Type} (l : list A) :
  py_getitem l (-1) =
  match last l with Some x => Ok x | None => Raise IndexError end.
Proof.
  unfold py_getitem, py_index. destruct l as [| x l].
  - reflexivity.
  - replace (0 <=? -1) with false by reflexivity.
    replace (- Z.of_nat (length (x :: l)) <=? -1) with true
      by (symmetry; apply Z.leb_le; simpl length; lia).
    replace (-1 <? 0) with true by reflexivity.
    cbn [andb].
    replace (Z.to_nat (Z.of_nat (length (x :: l)) + -1)) with (length l)
      by (simpl length; lia).
    rewrite last_lookup. simpl length. simpl Nat.pred.
    destruct ((x :: l) !! length l) eqn:E; [done |].
    apply lookup_ge_None_1 in E. simpl in E. lia.
Qed.

Lemma py_range_nonpos (n : Z) : n <= 0 -> py_range n = [].
Proof.
  intros H. unfold py_range. replace (Z.to_nat n) with O by lia. reflexivity.
Qed.

(** ** Stable sorting *)

Section StableSortFacts.
  Context {K A : Type} (leb : K -> K -> bool).
  Hypothesis leb_total : forall a b, leb a b = false -> leb b a = true.
  Hypothesis leb_trans : forall a b c, leb a b = true -> leb b c = true -> leb a c = true.

Lemma insert_by_Permutation (x : K * A) (l : list (K * A)) :
  insert_by leb x l ≡ₚ x :: l.
Proof.
  induction l as [| y l IH]; simpl; [done |].
  destruct (leb (fst x) (fst y)); [done |].
  rewrite IH. apply Permutation_swap.
Qed.

Lemma sort_pairs_Permutation (l : list (K * A)) : sort_pairs leb l ≡ₚ l.
Proof.
  induction l as [| x l IH]; simpl; [done |].
  rewrite insert_by_Permutation. now rewrite IH.
Qed.

Lemma insert_by_sorted (x : K * A) (l : list (K * A)) :
  StronglySorted (key_le leb) l -> StronglySorted (key_le leb) (insert_by leb x l).
Proof.
  induction l as [| y l IH]; simpl; intros Hs.
  - repeat constructor.
  - apply StronglySorted_inv in Hs as [Hs Hy].
    destruct (leb (fst x) (fst y)) eqn:E.
    + constructor; [constructor; done |].
      constructor; [done |].
      eapply Forall_impl; [exact Hy |]. intros z Hz. unfold key_le in *. eauto.
    + constructor; [auto |].
      rewrite insert_by_Permutation. constructor; [| done].
      unfold key_le. auto.
Qed.

Lemma sort_pairs_sorted (l : list (K * A)) : StronglySorted (key_le leb) (sort_pairs leb l).
Proof.
  induction l as [| x l IH]; simpl; [constructor |].
  now apply insert_by_sorted.
Qed.

Lemma keyed_Ok (key : A -> result K) (l : list A) (kl : list (K * A)) :
  keyed key l = Ok kl ->
  map snd kl = l /\ Forall (fun kx => key (snd kx) = Ok (fst kx)) kl.
Proof.
  revert kl. induction l as [| x l IH]; simpl; intros kl H.
  - injection H as <-. split; constructor.
  - inv_bind H. inv_bind H. injection H as <-.
    destruct (IH _ Ha0) as [IH1 IH2]. simpl. split; [now rewrite IH1 |].
    constructor; done.
Qed.

Lemma keyed_total (key : A -> result K) (l : list A) :
  Forall (fun x => exists k, key x = Ok k) l -> exists kl, keyed key l = Ok kl.
Proof.
  induction 1 as [| x l [k Hk] _ [kl IH]]; simpl; [eauto |].
  rewrite Hk, IH. simpl. eauto.
Qed.

Lemma keyed_Raise (key : A -> result K) (l : list A) (e : exn) :
  Forall (fun x => (exists k, key x = Ok k) \/ key x = Raise e) l ->
  Exists (fun x => key x = Raise e) l ->
  keyed key l = Raise e.
Proof.
  induction 1 as [| x l Hx Hl IH]; intros Hex; [inversion Hex |].
  simpl. destruct Hx as [[k Hk] | Hk]; rewrite Hk; simpl; [| done].
  inversion Hex as [? ? Hx' | ? ? Hl']; subst; [congruence |].
  now rewrite IH.
Qed.

(** The sort is stable: the elements whose keys are equivalent to [k] come
    out in the order they went in. *)
Lemma insert_by_filter (k : K) (x : K * A) (l : list (K * A)) :
  filter (fun y => leb k (fst y) = true /\ leb (fst y) k = true) (insert_by leb x l) =
  filter (fun y => leb k (fst y) = true /\ leb (fst y) k = true) (x :: l).
Proof.
  induction l as [| z l IH]; [done |]. cbn [insert_by].
  destruct (leb (fst x) (fst z)) eqn:E; [done |].
  rewrite filter_cons, IH. rewrite !(filter_cons _ x), (filter_cons _ z).
  repeat case_decide; try done.
  exfalso.
  match goal with
  | Hx : _ /\ leb (fst x) k = true, Hz : leb k (fst z) = true /\ _ |- _ =>
      destruct Hx as [_ Hxk]; destruct Hz as [Hkz _];
      rewrite (leb_trans _ _ _ Hxk Hkz) in E; discriminate
  end.
Qed.

Lemma sort_pairs_stable (k : K) (l : list (K * A)) :
  filter (fun y => leb k (fst y) = true /\ leb (fst y) k = true) (sort_pairs leb l) =
  filter (fun y => leb k (fst y) = true /\ leb (fst y) k = true) l.
Proof.
  induction l as [| x l IH]; [done |]. cbn [sort_pairs foldr].
  rewrite insert_by_filter, !filter_cons. fold (sort_pairs leb l). now rewrite IH.
Qed.

(** The sorted list holds the same processes, ordered by their keys. *)
Lemma py_sort_Ok (key : A -> result K) (l s : list A) :
  py_sort leb key l = Ok s ->
  l ≡ₚ s /\
  StronglySorted
    (fun x y => exists kx ky, key x = Ok kx /\ key y = Ok ky /\ leb kx ky = true) s.
Proof.
  unfold py_sort. intros H. inv_bind H. injection H as <-.
  destruct (keyed_Ok _ _ _ Ha) as [Hmap Hkeys].
  split.
  - rewrite <- Hmap. now rewrite sort_pairs_Permutation.
  - assert (Hk : Forall (fun kx => key (snd kx) = Ok (fst kx)) (sort_pairs leb a))
      by now rewrite sort_pairs_Permutation.
    pose proof (sort_pairs_sorted a) as Hs.
    induction Hs as [| y m Hs IH Hy]; simpl; [constructor |].
    apply Forall_cons in Hk as [Hk1 Hk2].
    constructor; [auto |].
    rewrite Forall_fmap. rewrite Forall_forall in Hy, Hk2 |- *.
    intros z Hz. simpl. exists (fst y), (fst z).
    split; [done |]. split; [auto |]. apply Hy, Hz.
Qed.

Lemma filter_keyed (key : A -> result K) (k : K) (m : list (K * A)) :
  Forall (fun kx => key (snd kx) = Ok (fst kx)) m ->
  filter (fun x => same_key leb key k x = true) (map snd m) =
  map snd (filter (fun y => leb k (fst y) = true /\ leb (fst y) k = true) m).
Proof.
  induction 1 as [| y m Hy _ IH]; [done |].
  cbn [map]. rewrite !filter_cons, IH.
  assert (Hiff : same_key leb key k (snd y) = true <->
                 leb k (fst y) = true /\ leb (fst y) k = true)
    by (unfold same_key; rewrite Hy; apply andb_true_iff).
  repeat case_decide; try done; tauto.
Qed.

(** Python's sort is stable, and so is this one: the elements whose keys
    are equivalent keep the order of the input. *)
Lemma py_sort_stable (key : A -> result K) (l s : list A) (k : K) :
  py_sort leb key l = Ok s ->
  filter (fun x => same_key leb key k x = true) s =
  filter (fun x => same_key leb key k x = true) l.
Proof.
  unfold py_sort. intros H. inv_bind H. injection H as <-.
  destruct (keyed_Ok _ _ _ Ha) as [Hmap Hkeys].
  rewrite <- Hmap.
  rewrite !filter_keyed; [| done | now rewrite sort_pairs_Permutation].
  now rewrite sort_pairs_stable.
Qed.

End StableSortFacts.

Lemma StronglySorted_weaken {A : Type} (R R' : A -> A -> Prop) (l : list A) :
  (forall x y, R x y -> R' x y) -> StronglySorted R l -> StronglySorted R' l.
Proof.
  intros HR. induction 1 as [| x l Hs IH Hx]; constructor; [done |].
  eapply Forall_impl; [exact Hx |]. auto.
Qed.

(** ** Orders on keys *)

Lemma leb_ZZ_total (a b : Z * Z) : leb_ZZ a b = false -> leb_ZZ b a = true.
Proof.
  unfold leb_ZZ. rewrite orb_false_iff, andb_false_iff, orb_true_iff, andb_true_iff.
  rewrite !Z.ltb_ge, !Z.ltb_lt, !Z.eqb_neq, !Z.eqb_eq, !Z.leb_gt, !Z.leb_le. lia.
Qed.

Lemma leb_ZZ_trans (a b c : Z * Z) :
  leb_ZZ a b = true -> leb_ZZ b c = true -> leb_ZZ a c = true.
Proof.
  unfold leb_ZZ. rewrite !orb_true_iff, !andb_true_iff.
  rewrite !Z.ltb_lt, !Z.eqb_eq, !Z.leb_le. lia.
Qed.

Lemma string_compare_trans (a b c : string) :
  String.compare a b <> Gt -> String.compare b c <> Gt -> String.compare a c <> Gt.
Proof.
  revert b c. induction a as [| x a IH]; intros [| y b] [| z c]; simpl; try congruence.
  unfold Ascii.compare.
  destruct (N.compare_spec (N_of_ascii x) (N_of_ascii y)) as [E1 | E1 | E1];
    destruct (N.compare_spec (N_of_ascii y) (N_of_ascii z)) as [E2 | E2 | E2];
    destruct (N.compare_spec (N_of_ascii x) (N_of_ascii z)) as [E3 | E3 | E3];
    try congruence; try lia.
  apply IH.
Qed.

Lemma string_leb_trans (a b c : string) :
  String.leb a b = true -> String.leb b c = true -> String.leb a c = true.
Proof.
  unfold String.leb. intros H1 H2.
  pose proof (string_compare_trans a b c) as H.
  destruct (String.compare a b), (String.compare b c), (String.compare a c);
    try discriminate; try reflexivity; exfalso; apply H; congruence.
Qed.

Lemma leb_Zstring_total (a b : Z * string) :
  leb_Zstring a b = false -> leb_Zstring b a = true.
Proof.
  unfold leb_Zstring. rewrite orb_false_iff, andb_false_iff, orb_true_iff, andb_true_iff.
  rewrite !Z.ltb_ge, !Z.ltb_lt, !Z.eqb_neq, !Z.eqb_eq.
  destruct (String.leb_total (snd a) (snd b)) as [H | H]; rewrite H; intros [? [? | ?]];
    try discriminate; auto; lia.
Qed.

Lemma leb_Zstring_trans (a b c : Z * string) :
  leb_Zstring a b = true -> leb_Zstring b c = true -> leb_Zstring a c = true.
Proof.
  unfold leb_Zstring. rewrite !orb_true_iff, !andb_true_iff.
  rewrite !Z.ltb_lt, !Z.eqb_eq.
  intros [? | [? ?]] [? | [? ?]]; try (left; lia).
  right. split; [lia |]. eauto using string_leb_trans.
Qed.

Lemma py_int_cases (s : string) : (exists n, py_int s = Ok n) \/ py_int s = Raise ValueError.
Proof.
  unfold py_int.
  destruct (match strip is_int_space (list_ascii_of_string s) with
            | [] => None
            | c :: cs => _
            end); [| eauto].
  destruct (_ <? _)%nat; eauto.
Qed.

(** A numeral of decimal digits within the digit limit reads as an
    integer. *)
Lemma digit_not_space (c : ascii) : is_digit c = true -> is_int_space c = false.
Proof.
  unfold is_digit, is_int_space.
  rewrite andb_true_iff, orb_false_iff, andb_false_iff, !N.leb_le, !N.leb_gt, N.eqb_neq.
  lia.
Qed.

Lemma digit_not_sign (c : ascii) :
  is_digit c = true -> Ascii.eqb c "-"%char = false /\ Ascii.eqb c "+"%char = false.
Proof.
  intros H. split; apply Ascii.eqb_neq; intros ->; discriminate.
Qed.

Lemma lstrip_digits (cs : list ascii) :
  Forall (fun c => is_digit c = true) cs -> lstrip is_int_space cs = cs.
Proof.
  intros H. destruct H as [| c cs Hc _]; [reflexivity |].
  cbn [lstrip]. now rewrite (digit_not_space c Hc).
Qed.

Lemma strip_digits (cs : list ascii) :
  Forall (fun c => is_digit c = true) cs -> strip is_int_space cs = cs.
Proof.
  intros H. unfold strip. rewrite (lstrip_digits cs H).
  rewrite lstrip_digits by now apply Forall_rev.
  apply rev_involutive.
Qed.

Lemma digits_all (cs : list ascii) :
  Forall (fun c => is_digit c = true) cs ->
  forall (acc : Z) (after_digit : bool),
    cs <> [] \/ after_digit = true -> exists n, digits acc after_digit cs = Some n.
Proof.
  induction 1 as [| c cs Hc _ IH]; intros acc b Hb.
  - destruct Hb as [? | ->]; [done |]. simpl. eauto.
  - cbn [digits]. rewrite Hc. apply IH. now right.
Qed.

Lemma count_digits_all (cs : list ascii) :
  Forall (fun c => is_digit c = true) cs -> count_digits cs = length cs.
Proof.
  induction 1 as [| c cs Hc _ IH]; [reflexivity |].
  cbn [count_digits length]. now rewrite Hc, IH.
Qed.

Lemma py_int_digits (cs : list ascii) :
  cs <> [] -> Forall (fun c => is_digit c = true) cs ->
  (length cs <= max_str_digits)%nat ->
  exists n, py_int (string_of_list_ascii cs) = Ok n.
Proof.
  intros Hne Hall Hlen. unfold py_int.
  rewrite list_ascii_of_string_of_list_ascii, (strip_digits cs Hall).
  rewrite (count_digits_all cs Hall).
  destruct (Nat.ltb_spec max_str_digits (length cs)) as [? | _]; [lia |].
  destruct cs as [| c cs]; [done |].
  pose proof (Forall_inv Hall) as Hc.
  destruct (digit_not_sign c Hc) as [-> ->].
  destruct (digits_all (c :: cs) Hall 0 false) as [n ->]; [now left |]. eauto.
Qed.

Lemma length_list_ascii_of_string (s : string) :
  length (list_ascii_of_string s) = String.length s.
Proof. induction s as [| c s IH]; simpl; [reflexivity | now rewrite IH]. Qed.

(** A p+digits label of at most 4300 digits starts with "p" and reads as
    an integer after it. *)
Lemma p_digits_reads (tag : string) :
  p_digits tag = true -> (String.length tag <= max_str_digits)%nat ->
  startswith_p tag = true /\ exists n, py_int (tail1 tag) = Ok n.
Proof.
  destruct tag as [| c [| d rest]]; try discriminate.
  cbn [p_digits startswith_p tail1 String.length]. intros H Hlen.
  apply andb_true_iff in H as [Hp Hd]. split; [exact Hp |].
  pose proof (proj1 (forallb_forall _ _) Hd) as Hall.
  apply List.Forall_forall in Hall.
  replace (String d rest) with (string_of_list_ascii (d :: list_ascii_of_string rest))
    by (cbn [string_of_list_ascii]; now rewrite string_of_list_ascii_of_string).
  apply py_int_digits; [done | exact Hall |].
  cbn [length]. rewrite (length_list_ascii_of_string rest). lia.
Qed.

(** [int()] does not skip the separators 0x1C to 0x1F that [str.strip()]
    removes; both skip blanks and line ends. *)
Example py_int_white_space :
  py_int (String (ascii_of_nat 31) "5") = Raise ValueError /\
  py_strip (String (ascii_of_nat 31) "5") = "5"%string /\
  py_int (String (ascii_of_nat 9) " 5 ") = Ok 5 /\
  py_int " +1_000 " = Ok 1000 /\
  py_int "rinter" = Raise ValueError.
Proof. repeat split; vm_compute; reflexivity. Qed.

(** Quotients as [get_metrics] prints them: the nearest binary64 number is
    taken first, then its exact value is rounded to two decimals, ties to
    even. *)
Example averages_printed :
  option_map format_2f (match true_divide 1 3 with Ok x => Some x | _ => None end)
    = Some "0.33"%string /\
  option_map format_2f (match true_divide 1 8 with Ok x => Some x | _ => None end)
    = Some "0.12"%string /\
  option_map format_2f (match true_divide 3 8 with Ok x => Some x | _ => None end)
    = Some "0.38"%string /\
  option_map format_2f (match true_divide (-7) 2 with Ok x => Some x | _ => None end)
    = Some "-3.50"%string /\
  true_divide 1 0 = Raise ZeroDivisionError /\
  true_divide (2 ^ 1024) 1 = Raise OverflowError.
Proof. repeat split; vm_compute; reflexivity. Qed.

(** ** The ordering rule *)

Lemma order_queue_empty : order_queue [] = Raise IndexError.
Proof. reflexivity. Qed.

Lemma order_queue_last (q : list Process) (l : Process) :
  last q = Some l ->
  order_queue q =
  if startswith_p (get_tag l)
  then py_sort leb_ZZ key_suffix q
  else py_sort leb_Zstring key_tag q.
Proof.
  intros H. unfold order_queue. rewrite py_getitem_last, H. reflexivity.
Qed.

Lemma order_queue_Permutation (q s : list Process) :
  order_queue q = Ok s -> q ≡ₚ s.
Proof.
  unfold order_queue. intros H. inv_bind H.
  destruct (startswith_p (get_tag a)).
  - now apply (py_sort_Ok leb_ZZ leb_ZZ_total leb_ZZ_trans) in H.
  - now apply (py_sort_Ok leb_Zstring leb_Zstring_total leb_Zstring_trans) in H.
Qed.

Lemma order_queue_nonempty (q s : list Process) :
  order_queue q = Ok s -> q <> [] /\ s <> [].
Proof.
  intros H. pose proof (order_queue_Permutation _ _ H) as HP.
  destruct q; [discriminate |]. split; [done |].
  intros ->. now apply Permutation_nil_r in HP.
Qed.

Lemma sorted_by_suffix (q s : list Process) :
  py_sort leb_ZZ key_suffix q = Ok s -> StronglySorted by_at_suffix s.
Proof.
  intros H. apply (py_sort_Ok leb_ZZ leb_ZZ_total leb_ZZ_trans) in H as [_ H].
  eapply StronglySorted_weaken; [| exact H]. clear.
  intros p p' (k & k' & Hk & Hk' & Hle). unfold key_suffix in *.
  inv_bind Hk. inv_bind Hk'. injection Hk as <-. injection Hk' as <-.
  exists a, a0. split; [done |]. split; [done |].
  unfold leb_ZZ in Hle. simpl in Hle.
  rewrite orb_true_iff, andb_true_iff, Z.ltb_lt, Z.eqb_eq, Z.leb_le in Hle. lia.
Qed.

Lemma sorted_by_tag (q s : list Process) :
  py_sort leb_Zstring key_tag q = Ok s -> StronglySorted by_at_tag s.
Proof.
  intros H. apply (py_sort_Ok leb_Zstring leb_Zstring_total leb_Zstring_trans) in H as [_ H].
  eapply StronglySorted_weaken; [| exact H]. clear.
  intros p p' (k & k' & Hk & Hk' & Hle). unfold key_tag in *.
  injection Hk as <-. injection Hk' as <-.
  unfold leb_Zstring in Hle. simpl in Hle.
  rewrite orb_true_iff, andb_true_iff, Z.ltb_lt, Z.eqb_eq in Hle. exact Hle.
Qed.

(** C4 (as amended).  Both engines order a non-empty queue by
    [order_queue], which sorts ascending by AT: with ties broken by the
    integer after the "p" when every tag of the queue is "p" followed by an
    integer, and with ties broken by the tag in lexicographic order when no
    tag of the queue starts with "p".  The sorted queue is a permutation of
    the given one. *)
Theorem order_queue_rule (q : list Process) (time quantum : Z) :
  q <> [] ->
  FCFS._order_queue (FCFS.init q time) =
    (let* s := order_queue q in Ok (FCFS.mk s 0 time)) /\
  RoundRobin.__order_queue (RoundRobin.init quantum q time) =
    (let* s := order_queue q in Ok (RoundRobin.mk quantum time time s 0 0)) /\
  (Forall (fun p => startswith_p (get_tag p) = true /\
                    exists n, py_int (tail1 (get_tag p)) = Ok n) q ->
   exists s, order_queue q = Ok s /\ q ≡ₚ s /\ StronglySorted by_at_suffix s) /\
  (Forall (fun p => startswith_p (get_tag p) = false) q ->
   exists s, order_queue q = Ok s /\ q ≡ₚ s /\ StronglySorted by_at_tag s).
Proof.
  intros Hne. split; [reflexivity |]. split; [reflexivity |].
  destruct (last q) as [l |] eqn:Hl; [| now apply last_None in Hl].
  assert (Hin : l ∈ q).
  { apply last_Some in Hl as [q' ->]. apply elem_of_app. right. now left. }
  rewrite (order_queue_last q l Hl).
  split.
  - intros Hall. rewrite Forall_forall in Hall.
    destruct (Hall l Hin) as [-> _].
    destruct (keyed_total key_suffix q) as [kl Hkl].
    { apply Forall_forall. intros p Hp. destruct (Hall p Hp) as [_ [n Hn]].
      unfold key_suffix. rewrite Hn. simpl. eauto. }
    assert (Hs : py_sort leb_ZZ key_suffix q = Ok (map snd (sort_pairs leb_ZZ kl)))
      by (unfold py_sort; now rewrite Hkl).
    eexists. split; [exact Hs |]. split.
    + now apply (py_sort_Ok leb_ZZ leb_ZZ_total leb_ZZ_trans) in Hs.
    + eapply sorted_by_suffix, Hs.
  - intros Hall. rewrite Forall_forall in Hall. rewrite (Hall l Hin).
    destruct (keyed_total key_tag q) as [kl Hkl].
    { apply Forall_forall. intros p _. unfold key_tag. eauto. }
    assert (Hs : py_sort leb_Zstring key_tag q = Ok (map snd (sort_pairs leb_Zstring kl)))
      by (unfold py_sort; now rewrite Hkl).
    eexists. split; [exact Hs |]. split.
    + now apply (py_sort_Ok leb_Zstring leb_Zstring_total leb_Zstring_trans) in Hs.
    + eapply sorted_by_tag, Hs.
Qed.

Lemma order_queue_rule_witness :
  (exists s, order_queue tie_p10_p2 = Ok s /\ tie_p10_p2 ≡ₚ s /\
             StronglySorted by_at_suffix s) /\
  (exists s, order_queue tie_q10_q2 = Ok s /\ tie_q10_q2 ≡ₚ s /\
             StronglySorted by_at_tag s).
Proof.
  split.
  - assert (Hne : tie_p10_p2 <> []) by discriminate.
    destruct (order_queue_rule tie_p10_p2 0 3 Hne) as (_ & _ & H & _).
    apply H. repeat constructor; eexists; reflexivity.
  - assert (Hne : tie_q10_q2 <> []) by discriminate.
    destruct (order_queue_rule tie_q10_q2 0 3 Hne) as (_ & _ & _ & H).
    apply H. repeat constructor.
Defined.

Example order_queue_p10_p2 :
  order_queue tie_p10_p2 =
  Ok [mkProcess "p2" (new_PCB 0 4 "1" 1); mkProcess "p10" (new_PCB 0 4 "1" 1)].
Proof. reflexivity. Qed.

(** C4 (counterexample).  On a queue whose tags are all letter+digits labels
    but do not start with "p", the code's order is not the specification's:
    "q10" stays before "q2". *)
Lemma order_queue_not_spec_rule :
  exists s, order_queue tie_q10_q2 = Ok s /\ ~ spec_order_rule tie_q10_q2 s.
Proof.
  eexists. split; [reflexivity |].
  intros [_ H]. cbn in H.
  apply StronglySorted_inv in H as [_ H].
  apply Forall_cons in H as [(n & n' & Hn & Hn' & Hle) _].
  vm_compute in Hn, Hn'. injection Hn as <-. injection Hn' as <-.
  cbn in Hle. lia.
Qed.

(** C10.  Neither engine treats the empty queue as a no-op returning the
    start time: ordering the queue reads its last element, which raises
    [IndexError], whatever the start time, the quantum and the fuel. *)
Theorem engines_fail_on_empty_queue (time quantum : Z) (fuel : nat) :
  order_queue [] = Raise IndexError /\
  FCFS.run [] time = Raise IndexError /\
  RoundRobin.run fuel quantum [] time = Raise IndexError /\
  FCFS.run [] time <> Ok ([], time) /\
  RoundRobin.run fuel quantum [] time <> Ok ([], time).
Proof. repeat split; try reflexivity; discriminate. Qed.

(** ** FCFS *)

Lemma sum_bt_app (q q' : list Process) : sum_bt (q ++ q') = sum_bt q + sum_bt q'.
Proof. induction q as [| p q IH]; simpl; [done |]. rewrite IH. lia. Qed.

Lemma sum_bt_Permutation (q q' : list Process) : q ≡ₚ q' -> sum_bt q = sum_bt q'.
Proof. induction 1; simpl; lia. Qed.

Lemma fcfs_schedule_length (t : Z) (q : list Process) :
  length (fcfs_schedule t q) = length q.
Proof. revert t. induction q as [| p q IH]; intros t; simpl; [done |]. now rewrite IH. Qed.

Lemma fcfs_schedule_lookup (t : Z) (q : list Process) (i : nat) (p : Process) :
  q !! i = Some p ->
  fcfs_schedule t q !! i = Some (fcfs_executed (t + sum_bt (take i q)) p).
Proof.
  revert t i. induction q as [| x q IH]; intros t i H; [done |].
  destruct i as [| i]; simpl in *.
  - injection H as ->. f_equal. f_equal. lia.
  - rewrite (IH _ _ H). f_equal. f_equal. lia.
Qed.

Lemma FCFS_excecute_at (pre rest : list Process) (p : Process) (t : Z) :
  FCFS._excecute_process (FCFS.mk (pre ++ p :: rest) (Z.of_nat (length pre)) t) =
  Ok (FCFS.mk ((pre ++ [fcfs_executed t p]) ++ rest)
              (Z.of_nat (length (pre ++ [fcfs_executed t p])))
              (t + get_bt (get_pcb p))).
Proof.
  unfold FCFS._excecute_process. cbn [FCFS._ready_queue FCFS._current_process FCFS._time].
  rewrite py_getitem_nat.
  rewrite list_lookup_middle by done. cbn [bind].
  rewrite py_store_nat.
  f_equal. f_equal.
  - rewrite insert_app_r_alt by done. rewrite Nat.sub_diag. simpl.
    now rewrite <- app_assoc.
  - rewrite length_app. simpl. lia.
Qed.

Lemma FCFS_for_each {X : Type} (l : list X) (rest pre : list Process) (t : Z) :
  length l = length rest ->
  for_each l FCFS._excecute_process (FCFS.mk (pre ++ rest) (Z.of_nat (length pre)) t) =
  Ok (FCFS.mk (pre ++ fcfs_schedule t rest)
              (Z.of_nat (length pre + length rest))
              (t + sum_bt rest)).
Proof.
  revert rest pre t. induction l as [| x l IH]; intros [| p rest] pre t Hlen;
    try discriminate; simpl.
  - rewrite Nat.add_0_r, Z.add_0_r. reflexivity.
  - rewrite FCFS_excecute_at. cbn [bind].
    rewrite IH by (simpl in Hlen; lia).
    f_equal. f_equal.
    + now rewrite <- app_assoc.
    + rewrite length_app. simpl. lia.
    + lia.
Qed.

(** The conversions of [_calculate_metrics]. *)
Lemma float_of_int_fits (n : Z) :
  float_of_int n =
  if fits_float n then Ok (nearest_float (n <? 0) (Z.abs n) 1) else Raise OverflowError.
Proof.
  unfold float_of_int, fits_float.
  destruct (Z.leb_spec float_limit (Z.abs n)), (Z.ltb_spec (Z.abs n) float_limit);
    (reflexivity || lia).
Qed.

Lemma accumulate_all_spec (q : list Process) :
  FCFS.accumulate_all q = if floats_fit q then Ok tt else Raise OverflowError.
Proof.
  induction q as [| p q IH]; [reflexivity |].
  cbn [FCFS.accumulate_all floats_fit forallb]. unfold FCFS.accumulate.
  rewrite !float_of_int_fits.
  destruct (fits_float (get_ct (get_pcb p))); [| reflexivity].
  destruct (fits_float (get_wt (get_pcb p))); [| reflexivity].
  destruct (fits_float (get_rt (get_pcb p))); [| reflexivity].
  destruct (fits_float (get_ct (get_pcb p) - get_at (get_pcb p))); [| reflexivity].
  cbn [bind andb]. exact IH.
Qed.

(** The ordering and the loop, once the queue has been ordered. *)
Lemma FCFS_executed_sorted (q s : list Process) (t0 : Z) :
  order_queue q = Ok s ->
  FCFS_executed q t0 = Ok (fcfs_schedule t0 s, t0 + sum_bt q).
Proof.
  intros Hs. unfold FCFS_executed, FCFS._order_queue, FCFS.init.
  cbn [FCFS._ready_queue FCFS._current_process FCFS._time].
  rewrite Hs. cbn [bind FCFS._ready_queue].
  pose proof (FCFS_for_each s s [] t0 eq_refl) as Hrun.
  cbn [app length Nat.add] in Hrun. change (Z.of_nat 0) with 0 in Hrun.
  rewrite Hrun. cbn [bind FCFS._ready_queue FCFS.get_time FCFS._time].
  now rewrite (sum_bt_Permutation _ _ (order_queue_Permutation _ _ Hs)).
Qed.

(** The whole run, once the queue has been ordered. *)
Lemma FCFS_run_sorted (q s : list Process) (t0 : Z) :
  order_queue q = Ok s ->
  FCFS.run q t0 = FCFS_returns (fcfs_schedule t0 s) (t0 + sum_bt q).
Proof.
  intros Hs. unfold FCFS.run, FCFS.start_processing, FCFS._order_queue, FCFS.init.
  cbn [FCFS._ready_queue FCFS._current_process FCFS._time].
  rewrite Hs. cbn [bind FCFS._ready_queue].
  pose proof (FCFS_for_each s s [] t0 eq_refl) as Hrun.
  cbn [app length Nat.add] in Hrun. change (Z.of_nat 0) with 0 in Hrun.
  rewrite Hrun. cbn [bind].
  unfold FCFS._calculate_metrics, FCFS_returns. cbn [FCFS._ready_queue].
  rewrite accumulate_all_spec.
  destruct (floats_fit (fcfs_schedule t0 s)); [| reflexivity]. cbn [bind].
  destruct (order_queue_nonempty _ _ Hs) as [_ Hne].
  destruct (Z.eqb_spec (Z.of_nat (length (fcfs_schedule t0 s))) 0) as [E | E].
  - rewrite fcfs_schedule_length in E. destruct s; [done | simpl in E; lia].
  - cbn [bind FCFS._ready_queue FCFS.get_time FCFS._time].
    now rewrite (sum_bt_Permutation _ _ (order_queue_Permutation _ _ Hs)).
Qed.

(** The run in two steps, on any queue: the processes are executed, then
    the averages are taken. *)
Lemma FCFS_run_executed (q : list Process) (t0 : Z) :
  FCFS.run q t0 = let* '(q', t') := FCFS_executed q t0 in FCFS_returns q' t'.
Proof.
  destruct (order_queue q) as [s | e |] eqn:Hs.
  - now rewrite (FCFS_run_sorted q s t0 Hs), (FCFS_executed_sorted q s t0 Hs).
  - unfold FCFS.run, FCFS.start_processing, FCFS_executed, FCFS._order_queue.
    cbn [FCFS.init FCFS._ready_queue]. now rewrite Hs.
  - unfold FCFS.run, FCFS.start_processing, FCFS_executed, FCFS._order_queue.
    cbn [FCFS.init FCFS._ready_queue]. now rewrite Hs.
Qed.

(** Small times fit. *)
Lemma fits_float_bound (n b : Z) : Z.abs n <= b -> b < float_limit -> fits_float n = true.
Proof. intros H1 H2. unfold fits_float. apply Z.ltb_lt. lia. Qed.

Lemma fcfs_schedule_fits (s : list Process) :
  forall (t b : Z),
    Forall (fun p => 0 <= get_bt (get_pcb p) /\
                     b + Z.abs (get_at (get_pcb p)) < float_limit) s ->
    Z.abs t <= b -> Z.abs (t + sum_bt s) <= b ->
    floats_fit (fcfs_schedule t s) = true.
Proof.
  induction s as [| p s IH]; intros t b H Ht Hend; [reflexivity |].
  apply Forall_cons in H as [[Hbt Hp] Hs].
  assert (Hsum : 0 <= sum_bt s).
  { clear -Hs. induction Hs as [| x l [Hx _] _ IH]; simpl; lia. }
  cbn [fcfs_schedule floats_fit forallb]. fold (floats_fit (fcfs_schedule (t + get_bt (get_pcb p)) s)).
  cbn [sum_bt foldr] in Hend. fold (sum_bt s) in Hend.
  rewrite (IH (t + get_bt (get_pcb p)) b Hs) by lia.
  rewrite andb_true_r.
  destruct p as [tag [a bt te ct wt rt tat et qn pr d]].
  cbv [fcfs_executed with_pcb set_tat set_ct set_wt set_rt get_pcb get_tag
       get_at get_bt get_te get_ct get_wt get_rt get_tat get_et get_queue
       get_priority is_done] in *.
  rewrite !andb_true_iff.
  split; [split; [split |] |]; (apply (fits_float_bound _ (b + Z.abs a)); [lia | exact Hp]).
Qed.

Lemma times_fit_schedule (q s : list Process) (t0 : Z) :
  q ≡ₚ s -> times_fit t0 q -> floats_fit (fcfs_schedule t0 s) = true.
Proof.
  intros HP H. unfold times_fit in H. rewrite HP in H.
  rewrite (sum_bt_Permutation _ _ HP) in H.
  assert (Hsum : 0 <= sum_bt s).
  { clear -H. induction H as [| x l [Hx _] _ IH]; simpl; lia. }
  apply (fcfs_schedule_fits s t0 (Z.abs t0 + sum_bt s)); [| lia | lia].
  eapply Forall_impl; [exact H |]. intros p [? ?]. split; [done | lia].
Qed.

(** With times of ordinary size the run returns. *)
Lemma FCFS_run_fits (q s : list Process) (t0 : Z) :
  order_queue q = Ok s -> times_fit t0 q ->
  FCFS.run q t0 = Ok (fcfs_schedule t0 s, t0 + sum_bt q).
Proof.
  intros Hs Hfit. rewrite (FCFS_run_sorted q s t0 Hs). unfold FCFS_returns.
  now rewrite (times_fit_schedule q s t0 (order_queue_Permutation _ _ Hs) Hfit).
Qed.

(** What FCFS writes at each position of the ordered queue. *)
Lemma fcfs_schedule_written (s : list Process) (t0 : Z) (i : nat) (p : Process) :
  s !! i = Some p ->
  exists p', fcfs_schedule t0 s !! i = Some p' /\
    get_tag p' = get_tag p /\
    get_at (get_pcb p') = get_at (get_pcb p) /\
    get_bt (get_pcb p') = get_bt (get_pcb p) /\
    let t := t0 + sum_bt (take i s) in
    get_rt (get_pcb p') = t /\
    get_wt (get_pcb p') = t - get_at (get_pcb p) /\
    get_ct (get_pcb p') = t + get_bt (get_pcb p) /\
    get_tat (get_pcb p') = get_ct (get_pcb p') - get_at (get_pcb p).
Proof.
  intros Hp. exists (fcfs_executed (t0 + sum_bt (take i s)) p).
  split; [apply fcfs_schedule_lookup, Hp |].
  simpl. repeat split; lia.
Qed.

(** C2 (failing input).  One process tagged "printer", with AT = 0 and
    BT = 5, run under FCFS from time 0.  [_order_queue] sees a tag that
    starts with "p", reads the rest of it as an integer and raises
    ValueError: no process is dispatched and no end time is returned, where
    the claim has the process run from 0 to 5. *)
Theorem FCFS_unreadable_tag_raises :
  FCFS._order_queue (FCFS.init [mkProcess "printer" (new_PCB 0 5 "1" 3)] 0)
    = Raise ValueError /\
  FCFS.run [mkProcess "printer" (new_PCB 0 5 "1" 3)] 0 = Raise ValueError.
Proof. split; reflexivity. Qed.

(** The same input with the tag "p1" is run as the claim says. *)
Example FCFS_single_process :
  let r := FCFS.run [mkProcess "p1" (new_PCB 0 5 "1" 3)] 0 in
  exists p', r = Ok ([p'], 5) /\
    get_rt (get_pcb p') = 0 /\ get_wt (get_pcb p') = 0 /\
    get_ct (get_pcb p') = 5 /\ get_tat (get_pcb p') = 5.
Proof. eexists. split; [reflexivity |]. repeat split. Qed.

(** A burst time beyond the float range: every process is executed and its
    PCB written, then [_calculate_metrics] raises OverflowError. *)
Example FCFS_overflow :
  let q := [mkProcess "p1" (new_PCB 0 (2 ^ 1024) "1" 3)] in
  FCFS_executed q 0 = Ok (fcfs_schedule 0 q, 2 ^ 1024) /\
  FCFS.run q 0 = Raise OverflowError.
Proof. split; vm_compute; reflexivity. Qed.

(** X21.  FCFS runs a queue that it can order back to back from the start
    time [t0]: the process at position [i] of the ordered queue is dispatched
    at the clock [t = t0 + (sum of the BT before it)], whatever its AT, and
    receives RT = t, WT = t - AT, CT = t + BT and TAT = CT - AT; the clock
    ends at [t0 + (sum of all BT)].  The run returns that clock, unless one
    of the times is beyond the float range and [_calculate_metrics] raises
    OverflowError, which does not happen when the start time, the bursts and
    the arrival times are of ordinary size. *)
Theorem FCFS_back_to_back (q s : list Process) (t0 : Z) :
  order_queue q = Ok s ->
  exists s',
    FCFS_executed q t0 = Ok (s', t0 + sum_bt q) /\
    FCFS.run q t0 = FCFS_returns s' (t0 + sum_bt q) /\
    (times_fit t0 q -> FCFS.run q t0 = Ok (s', t0 + sum_bt q)) /\
    length s' = length s /\
    forall (i : nat) (p : Process), s !! i = Some p ->
      exists p', s' !! i = Some p' /\
        get_tag p' = get_tag p /\
        get_at (get_pcb p') = get_at (get_pcb p) /\
        get_bt (get_pcb p') = get_bt (get_pcb p) /\
        let t := t0 + sum_bt (take i s) in
        get_rt (get_pcb p') = t /\
        get_wt (get_pcb p') = t - get_at (get_pcb p) /\
        get_ct (get_pcb p') = t + get_bt (get_pcb p) /\
        get_tat (get_pcb p') = get_ct (get_pcb p') - get_at (get_pcb p).
Proof.
  intros Hs. exists (fcfs_schedule t0 s).
  split; [now apply FCFS_executed_sorted |].
  split; [now apply FCFS_run_sorted |].
  split; [now apply FCFS_run_fits |].
  split; [apply fcfs_schedule_length |].
  intros i p Hp. now apply fcfs_schedule_written.
Qed.

Lemma FCFS_back_to_back_witness :
  exists s',
    FCFS_executed early_dispatch 0 = Ok (s', 0 + sum_bt early_dispatch) /\
    FCFS.run early_dispatch 0 = FCFS_returns s' (0 + sum_bt early_dispatch) /\
    (times_fit 0 early_dispatch ->
     FCFS.run early_dispatch 0 = Ok (s', 0 + sum_bt early_dispatch)) /\
    length s' = 2%nat /\
    forall (i : nat) (p : Process),
      [mkProcess "p2" (new_PCB 0 5 "1" 3); mkProcess "p1" (new_PCB 10 2 "1" 3)] !! i
        = Some p ->
      exists p', s' !! i = Some p' /\
        get_tag p' = get_tag p /\
        get_at (get_pcb p') = get_at (get_pcb p) /\
        get_bt (get_pcb p') = get_bt (get_pcb p) /\
        let t := 0 + sum_bt (take i [mkProcess "p2" (new_PCB 0 5 "1" 3);
                                     mkProcess "p1" (new_PCB 10 2 "1" 3)]) in
        get_rt (get_pcb p') = t /\
        get_wt (get_pcb p') = t - get_at (get_pcb p) /\
        get_ct (get_pcb p') = t + get_bt (get_pcb p) /\
        get_tat (get_pcb p') = get_ct (get_pcb p') - get_at (get_pcb p).
Proof.
  exact (FCFS_back_to_back early_dispatch _ 0 eq_refl).
Defined.

Example FCFS_no_idle_wait :
  FCFS.run early_dispatch 0 =
  Ok ([fcfs_executed 0 (mkProcess "p2" (new_PCB 0 5 "1" 3));
       fcfs_executed 5 (mkProcess "p1" (new_PCB 10 2 "1" 3))], 7).
Proof. reflexivity. Qed.

Example early_dispatch_fits : times_fit 0 early_dispatch.
Proof. repeat constructor; vm_compute; congruence. Qed.




(** ** Round Robin: one dispatch *)

Lemma advance_tick (s : RoundRobin.t) (d : Z) :
  advance (RoundRobin.tick s) d = advance s (d + 1).
Proof. unfold advance, RoundRobin.tick. simpl. f_equal. lia. Qed.

Lemma state_save_at (s : RoundRobin.t) (k : nat) (p : Process) :
  RoundRobin.__queue s !! k = Some p ->
  RoundRobin.__state_save s (Z.of_nat k) =
  Ok (RoundRobin.with_queue s
        (<[k := rr_saved (RoundRobin.__current_process_started s) (RoundRobin.__time s) p]>
           (RoundRobin.__queue s))).
Proof.
  intros H. unfold RoundRobin.__state_save. rewrite py_getitem_nat, H. cbn [bind].
  now rewrite py_store_nat.
Qed.

Lemma mark_process_done_at (s : RoundRobin.t) (k : nat) (p : Process) :
  RoundRobin.__queue s !! k = Some p ->
  RoundRobin.__mark_process_done s (Z.of_nat k) =
  Ok (RoundRobin.with_queue s
        (<[k := rr_marked_done (RoundRobin.__time s) p]> (RoundRobin.__queue s))).
Proof.
  intros H. unfold RoundRobin.__mark_process_done. rewrite py_getitem_nat, H. cbn [bind].
  now rewrite py_store_nat.
Qed.

(** The slice loop in closed form: it stops after [remaining_time] ticks
    when that lies within the ticks left, and after all of them otherwise. *)
Lemma slice_spec (n a : nat) (s : RoundRobin.t) (k remaining_time : Z) :
  RoundRobin.__quantum s = Z.of_nat (a + n) ->
  RoundRobin.slice (map Z.of_nat (seq a n)) s k remaining_time =
  if (1 <=? remaining_time) && (remaining_time <=? Z.of_nat n) then
    let* s1 := RoundRobin.__state_save (advance s remaining_time) k in
    let* s2 := RoundRobin.__mark_process_done s1 k in
    Ok (s2, true)
  else
    match n with
    | O => Ok (s, false)
    | S _ =>
        let* s1 := RoundRobin.__state_save (advance s (Z.of_nat n)) k in
        Ok (s1, true)
    end.
Proof.
  revert a s remaining_time. induction n as [| n IH]; intros a s r HQ.
  - cbn [seq map RoundRobin.slice]. change (Z.of_nat 0) with 0.
    destruct (1 <=? r) eqn:E1; destruct (r <=? 0) eqn:E2; simpl; try reflexivity.
    apply Z.leb_le in E1, E2. lia.
  - cbn [seq map RoundRobin.slice].
    destruct (Z.eqb_spec (r - 1) 0) as [E | E].
    + replace r with 1 by lia.
      replace ((1 <=? 1) && (1 <=? Z.of_nat (S n))) with true
        by (symmetry; apply andb_true_iff; split; apply Z.leb_le; lia).
      reflexivity.
    + replace ((1 <=? r) && (r <=? Z.of_nat (S n)))
        with ((1 <=? r - 1) && (r - 1 <=? Z.of_nat n)).
      2:{ apply eq_true_iff_eq. rewrite !andb_true_iff, !Z.leb_le. lia. }
      change (RoundRobin.__quantum (RoundRobin.tick s)) with (RoundRobin.__quantum s).
      destruct (Z.eqb_spec (Z.of_nat a) (RoundRobin.__quantum s - 1)) as [E' | E'].
      * assert (n = O) by lia. subst n.
        replace ((1 <=? r - 1) && (r - 1 <=? Z.of_nat 0)) with false.
        2:{ symmetry. apply andb_false_iff. rewrite !Z.leb_gt. lia. }
        reflexivity.
      * rewrite (IH (S a) (RoundRobin.tick s) (r - 1)).
        2:{ change (RoundRobin.__quantum (RoundRobin.tick s)) with (RoundRobin.__quantum s).
            lia. }
        rewrite !advance_tick.
        replace (r - 1 + 1) with r by lia.
        replace (Z.of_nat n + 1) with (Z.of_nat (S n)) by lia.
        destruct n as [| n]; [lia | reflexivity].
Qed.

(** A dispatch in closed form, for a positive quantum. *)
Lemma excecute_process_spec (s : RoundRobin.t) (k : nat) (p : Process) :
  0 < RoundRobin.__quantum s ->
  RoundRobin.__queue s !! k = Some p ->
  RoundRobin.__excecute_process s (Z.of_nat k) =
  Ok (RoundRobin.mk (RoundRobin.__quantum s)
        (RoundRobin.__time s + slice_len (RoundRobin.__quantum s) p)
        (RoundRobin.__initial_time s)
        (<[k := dispatched (RoundRobin.__quantum s) (RoundRobin.__time s) p]>
           (RoundRobin.__queue s))
        (RoundRobin.__time s)
        (Z.of_nat k),
      true).
Proof.
  intros HQ Hp. unfold RoundRobin.__excecute_process.
  cbn [RoundRobin.__quantum RoundRobin.__time RoundRobin.__initial_time RoundRobin.__queue].
  unfold RoundRobin.__state_restore at 1. cbn [RoundRobin.__queue].
  rewrite py_getitem_nat, Hp. cbn [bind].
  unfold py_range. rewrite slice_spec by (cbn [RoundRobin.__quantum]; lia).
  rewrite Z2Nat.id by lia.
  unfold dispatched, slice_len, finishes.
  set (r := get_bt (get_pcb p) - get_te (get_pcb p)).
  destruct ((1 <=? r) && (r <=? RoundRobin.__quantum s)) eqn:E.
  - rewrite (state_save_at _ k p) by exact Hp. cbn [bind].
    erewrite mark_process_done_at.
    2:{ cbn [RoundRobin.with_queue RoundRobin.__queue advance].
        apply list_lookup_insert_eq. eapply lookup_lt_Some, Hp. }
    cbn [RoundRobin.with_queue RoundRobin.__queue RoundRobin.__time advance
         RoundRobin.__quantum RoundRobin.__initial_time
         RoundRobin.__current_process_started RoundRobin.__current_process_index].
    now rewrite list_insert_insert_eq.
  - destruct (Z.to_nat (RoundRobin.__quantum s)) eqn:En; [lia |].
    rewrite (state_save_at _ k p) by exact Hp. cbn [bind]. reflexivity.
Qed.

(** Without a positive quantum the slice loop has no iteration: the dispatch
    changes no process and raises nothing. *)
Lemma excecute_process_no_quantum (s : RoundRobin.t) (k : nat) (p : Process) :
  RoundRobin.__quantum s <= 0 ->
  RoundRobin.__queue s !! k = Some p ->
  RoundRobin.__excecute_process s (Z.of_nat k) =
  Ok (RoundRobin.mk (RoundRobin.__quantum s) (RoundRobin.__time s)
        (RoundRobin.__initial_time s) (RoundRobin.__queue s)
        (RoundRobin.__time s) (Z.of_nat k),
      false).
Proof.
  intros HQ Hp. unfold RoundRobin.__excecute_process.
  cbn [RoundRobin.__quantum RoundRobin.__time RoundRobin.__initial_time RoundRobin.__queue].
  unfold RoundRobin.__state_restore. cbn [RoundRobin.__queue].
  rewrite py_getitem_nat, Hp. cbn [bind].
  now rewrite py_range_nonpos.
Qed.

(** ** Round Robin: choosing the next process *)

Lemma scan_front_Some (q : list Process) (k0 j : Z) :
  RoundRobin.scan_front q k0 = Some j ->
  exists (i : nat) (p : Process),
    j = k0 + Z.of_nat i /\ q !! i = Some p /\ is_done (get_pcb p) = false.
Proof.
  revert k0. induction q as [| x q IH]; intros k0 H; [discriminate |].
  simpl in H. destruct (is_done (get_pcb x)) eqn:E; simpl in H.
  - destruct (IH _ H) as (i & p & -> & Hp & Hd).
    exists (S i), p. split; [lia | split; done].
  - injection H as <-. exists O, x. repeat split; [lia | done].
Qed.

Lemma scan_front_None (q : list Process) (k0 : Z) :
  RoundRobin.scan_front q k0 = None -> Forall finished q.
Proof.
  revert k0. induction q as [| x q IH]; intros k0 H; [constructor |].
  simpl in H. destruct (is_done (get_pcb x)) eqn:E; simpl in H; [| discriminate].
  constructor; eauto.
Qed.

Lemma scan_front_all_done (q : list Process) (k0 : Z) :
  Forall finished q -> RoundRobin.scan_front q k0 = None.
Proof.
  intros H. revert k0. induction H as [| x q Hx _ IH]; intros k0; [done |].
  simpl. unfold finished in Hx. rewrite Hx. simpl. apply IH.
Qed.

Lemma scan_after_spec (q : list Process) (ix n a : nat) :
  (length q <= ix + a + 1 + n)%nat ->
  RoundRobin.scan_after q (Z.of_nat ix) (map Z.of_nat (seq a n)) =
  match RoundRobin.scan_front (drop (ix + a + 1) q) (Z.of_nat (ix + a + 1)) with
  | Some j => Ok (Some j)
  | None => Raise IndexError
  end.
Proof.
  revert a. induction n as [| n IH]; intros a Hlen.
  - simpl. rewrite drop_ge by lia. reflexivity.
  - cbn [seq map RoundRobin.scan_after].
    replace (Z.of_nat ix + Z.of_nat a + 1) with (Z.of_nat (ix + a + 1)) by lia.
    rewrite py_getitem_nat.
    destruct (q !! (ix + a + 1)%nat) as [p |] eqn:E.
    + rewrite (drop_S _ _ _ E). cbn [bind RoundRobin.scan_front].
      destruct (negb (is_done (get_pcb p))); [reflexivity |].
      rewrite IH by lia.
      replace (ix + S a + 1)%nat with (S (ix + a + 1)) by lia.
      replace (Z.of_nat (ix + a + 1) + 1) with (Z.of_nat (S (ix + a + 1))) by lia.
      reflexivity.
    + apply lookup_ge_None_1 in E. rewrite drop_ge by lia. reflexivity.
Qed.

(** After the first dispatch the clock has left the start time, and
    [__next_process] is the circular scan. *)
Lemma next_process_spec (s : RoundRobin.t) (k : nat) :
  RoundRobin.__time s <> RoundRobin.__initial_time s ->
  RoundRobin.__current_process_index s = Z.of_nat k ->
  RoundRobin.__next_process s = Ok (circular_next (RoundRobin.__queue s) k).
Proof.
  intros Ht Hk. unfold RoundRobin.__next_process.
  destruct (Z.eqb_spec (RoundRobin.__time s) (RoundRobin.__initial_time s)); [done |].
  rewrite Hk. unfold py_range.
  rewrite scan_after_spec by lia.
  unfold circular_next.
  replace (k + 0 + 1)%nat with (S k) by lia.
  destruct (RoundRobin.scan_front (drop (S k) (RoundRobin.__queue s)) (Z.of_nat (S k)));
    reflexivity.
Qed.

(** At the start time the head of the queue is chosen, done or not. *)
Lemma next_process_first (s : RoundRobin.t) (p : Process) (q : list Process) :
  RoundRobin.__time s = RoundRobin.__initial_time s ->
  RoundRobin.__queue s = p :: q ->
  RoundRobin.__next_process s = Ok (Some 0).
Proof.
  intros Ht Hq. unfold RoundRobin.__next_process.
  rewrite Ht, Z.eqb_refl, Hq. reflexivity.
Qed.

Lemma circular_next_Some (q : list Process) (k : nat) (j : Z) :
  circular_next q k = Some j ->
  exists (i : nat) (p : Process),
    j = Z.of_nat i /\ q !! i = Some p /\ is_done (get_pcb p) = false.
Proof.
  unfold circular_next. intros H.
  destruct (RoundRobin.scan_front (drop (S k) q) (Z.of_nat (S k))) as [j' |] eqn:E.
  - injection H as ->. apply scan_front_Some in E as (i & p & -> & Hp & Hd).
    rewrite lookup_drop in Hp. exists (S k + i)%nat, p. split; [lia | split; done].
  - apply scan_front_Some in H as (i & p & -> & Hp & Hd).
    exists i, p. split; [lia | split; done].
Qed.

Lemma circular_next_None (q : list Process) (k : nat) :
  circular_next q k = None -> Forall finished q.
Proof.
  unfold circular_next. intros H.
  destruct (RoundRobin.scan_front (drop (S k) q) (Z.of_nat (S k))); [discriminate |].
  eapply scan_front_None, H.
Qed.

(** ** Round Robin: the loop as a step relation *)

Lemma loop_rtc (fuel : nat) (s s' : RoundRobin.t) (n : option Z) :
  RoundRobin.loop fuel s n = Ok s' -> rtc rr_step (s, n) (s', None).
Proof.
  revert s n. induction fuel as [| fuel IH]; intros s [p |] H; simpl in H;
    try discriminate; try (injection H as <-; apply rtc_refl).
  inv_bind H. destruct a as [s1 [|]].
  - inv_bind H. eapply rtc_l; [eapply rr_step_expropiated; eassumption |]. eauto.
  - eapply rtc_l; [eapply rr_step_returned; eassumption |]. eauto.
Qed.

(** Getters and setters are computed on a PCB given by its fields. *)
Ltac pcb_cbv :=
  cbv [dispatched slice_len finishes rr_saved rr_marked_done fcfs_executed
       with_pcb set_te set_ct set_wt set_rt set_tat set_et set_done
       get_tag get_pcb get_at get_bt get_te get_ct get_wt get_rt get_tat get_et
       get_queue get_priority is_done] in *.

Ltac destruct_process p :=
  let tag := fresh "tag" in
  destruct p as [tag [? ? ? ? ? ? ? ? ? ? ?]].

Lemma dispatched_facts (quantum now : Z) (p : Process) :
  0 < quantum -> live p -> is_done (get_pcb p) = false ->
  let p' := dispatched quantum now p in
  let d := slice_len quantum p in
  1 <= d /\ live p' /\
  get_tag p' = get_tag p /\
  get_at (get_pcb p') = get_at (get_pcb p) /\
  get_bt (get_pcb p') = get_bt (get_pcb p) /\
  get_te (get_pcb p') = get_te (get_pcb p) + d /\
  get_te (get_pcb p') <= get_bt (get_pcb p) /\
  is_done (get_pcb p') = finishes quantum p /\
  (is_done (get_pcb p') = true <-> get_te (get_pcb p') = get_bt (get_pcb p)) /\
  get_rt (get_pcb p') = (if get_rt (get_pcb p) <? 0 then now else get_rt (get_pcb p)) /\
  (is_done (get_pcb p') = true ->
   get_ct (get_pcb p') = now + d /\
   get_wt (get_pcb p') = get_ct (get_pcb p') - get_at (get_pcb p) - get_bt (get_pcb p) /\
   get_tat (get_pcb p') = get_ct (get_pcb p') - get_at (get_pcb p)).
Proof.
  intros HQ (Hbt & Hte & Hlive) Hd. unfold live.
  destruct_process p. pcb_cbv. subst.
  match goal with
  | |- context [ (?a && ?b)%bool ] => destruct (a && b)%bool eqn:E
  end.
  - apply andb_true_iff in E as [E1 E2]. apply Z.leb_le in E1, E2.
    match goal with
    | |- context [ ?a <? 0 ] => destruct (a <? 0) eqn:Er
    end.
    all: intuition (try discriminate; try lia).
  - apply andb_false_iff in E. rewrite !Z.leb_gt in E.
    match goal with
    | |- context [ ?a <? 0 ] => destruct (a <? 0) eqn:Er
    end.
    all: intuition (try discriminate; try lia).
Qed.

(** A dispatch that finishes its process first saves ([__state_save]: TE
    reaches BT, the process not yet done), then marks it done. *)
Lemma dispatched_finishing (quantum now : Z) (p : Process) :
  is_done (get_pcb p) = false ->
  is_done (get_pcb (dispatched quantum now p)) = true ->
  let p1 := rr_saved now (now + slice_len quantum p) p in
  dispatched quantum now p = rr_marked_done (now + slice_len quantum p) p1 /\
  get_te (get_pcb p1) = get_bt (get_pcb p) /\
  is_done (get_pcb p1) = false.
Proof.
  intros Hd Hd'. cbv zeta. unfold dispatched in *.
  destruct (finishes quantum p) eqn:Hfin.
  - split; [reflexivity |].
    unfold slice_len. rewrite Hfin.
    destruct p as [tag [a b te ct wt rt tat et qu pr dn]]. pcb_cbv.
    destruct (rt <? 0); pcb_cbv; split; try done; lia.
  - exfalso. unfold slice_len in Hd'. rewrite Hfin in Hd'.
    destruct p as [tag [a b te ct wt rt tat et qu pr dn]]. pcb_cbv.
    destruct (rt <? 0); pcb_cbv; congruence.
Qed.

(** From a state satisfying the invariant the loop takes exactly one step,
    and it is the dispatch in closed form followed by the circular scan. *)
Lemma rr_step_spec (s : RoundRobin.t) (i : nat) (p : Process) :
  0 < RoundRobin.__quantum s ->
  RoundRobin.__initial_time s <= RoundRobin.__time s ->
  RoundRobin.__queue s !! i = Some p ->
  live p -> is_done (get_pcb p) = false ->
  RoundRobin.__excecute_process s (Z.of_nat i) = Ok (after_dispatch s i p, true) /\
  RoundRobin.__next_process (after_dispatch s i p) =
    Ok (circular_next (RoundRobin.__queue (after_dispatch s i p)) i).
Proof.
  intros HQ Ht Hp Hl Hd. split; [now apply excecute_process_spec |].
  apply next_process_spec; [| reflexivity].
  pose proof (dispatched_facts _ (RoundRobin.__time s) p HQ Hl Hd) as [H1 _].
  simpl. lia.
Qed.

Lemma rr_step_inv (s : RoundRobin.t) (j : Z) (y : RoundRobin.t * option Z) :
  rr_inv (s, Some j) -> rr_step (s, Some j) y ->
  exists (i : nat) (p : Process),
    j = Z.of_nat i /\ RoundRobin.__queue s !! i = Some p /\
    live p /\ is_done (get_pcb p) = false /\
    y = (after_dispatch s i p,
         circular_next (RoundRobin.__queue (after_dispatch s i p)) i).
Proof.
  intros (HQ & Ht & Hlive & i & p & -> & Hp & Hd) Hstep. simpl in *.
  assert (Hl : live p) by (eapply Forall_lookup_1; eassumption).
  destruct (rr_step_spec s i p HQ Ht Hp Hl Hd) as [He Hn].
  exists i, p. do 4 (split; [done |]).
  inversion Hstep as [? ? ? ? He' Hn' | ? ? ? He']; subst.
  - rewrite He in He'. injection He' as <-. rewrite Hn in Hn'. now injection Hn' as <-.
  - rewrite He in He'. discriminate.
Qed.

Lemma rr_inv_after (s : RoundRobin.t) (i : nat) (p : Process) :
  rr_inv (s, Some (Z.of_nat i)) ->
  RoundRobin.__queue s !! i = Some p ->
  is_done (get_pcb p) = false ->
  rr_inv (after_dispatch s i p,
          circular_next (RoundRobin.__queue (after_dispatch s i p)) i).
Proof.
  intros (HQ & Ht & Hlive & _) Hp Hd. simpl in *.
  assert (Hl : live p) by (eapply Forall_lookup_1; eassumption).
  pose proof (dispatched_facts _ (RoundRobin.__time s) p HQ Hl Hd) as (H1 & H2 & _).
  split; [done |]. split; [simpl; lia |]. split; simpl.
  - apply Forall_insert; done.
  - destruct (circular_next _ i) as [j |] eqn:E.
    + now apply circular_next_Some in E.
    + now apply circular_next_None in E.
Qed.

Lemma rr_inv_step (x y : RoundRobin.t * option Z) :
  rr_inv x -> rr_step x y -> rr_inv y.
Proof.
  destruct x as [s [j |]]; intros Hinv Hstep; [| inversion Hstep].
  destruct (rr_step_inv _ _ _ Hinv Hstep) as (i & p & -> & Hp & _ & Hd & ->).
  now apply rr_inv_after.
Qed.

(** ** Round Robin: termination *)

Lemma remaining_insert (q : list Process) (i : nat) (p p' : Process) :
  q !! i = Some p ->
  remaining (<[i := p']> q) = remaining q - remaining_of p + remaining_of p'.
Proof.
  revert i. induction q as [| x q IH]; intros [| i] H; try discriminate; simpl in *.
  - injection H as ->. lia.
  - rewrite (IH _ H). lia.
Qed.

Lemma remaining_of_live (p : Process) : live p -> 0 <= remaining_of p.
Proof.
  intros (? & ? & H). unfold remaining_of. destruct (is_done (get_pcb p)); lia.
Qed.

Lemma remaining_of_not_done (p : Process) :
  live p -> is_done (get_pcb p) = false -> 1 <= remaining_of p.
Proof.
  intros (? & ? & H) Hd. unfold remaining_of. rewrite Hd in *. lia.
Qed.

Lemma remaining_nonneg (q : list Process) : Forall live q -> 0 <= remaining q.
Proof.
  induction 1 as [| p q Hp _ IH]; simpl; [lia |].
  pose proof (remaining_of_live p Hp). lia.
Qed.

Lemma remaining_ge (q : list Process) (i : nat) (p : Process) :
  Forall live q -> q !! i = Some p -> remaining_of p <= remaining q.
Proof.
  intros H. revert i. induction H as [| x q Hx Hq IH]; intros [| i] Hp;
    try discriminate; simpl in *.
  - injection Hp as ->. pose proof (remaining_nonneg q Hq). lia.
  - pose proof (IH _ Hp). pose proof (remaining_of_live x Hx). lia.
Qed.

Lemma remaining_dispatched (quantum now : Z) (p : Process) :
  0 < quantum -> live p -> is_done (get_pcb p) = false ->
  remaining_of (dispatched quantum now p) <= remaining_of p - 1.
Proof.
  intros HQ Hl Hd.
  pose proof (dispatched_facts quantum now p HQ Hl Hd)
    as (H1 & H2 & _ & _ & Hbt & Hte & _ & Hfin & Hiff & _).
  cbv zeta in *. unfold remaining_of. rewrite Hd, Hbt, Hte.
  destruct (is_done (get_pcb (dispatched quantum now p))) eqn:E; [| lia].
  destruct Hl as (? & ? & Hl). rewrite Hd in Hl. lia.
Qed.

Lemma remaining_fresh (q : list Process) :
  Forall fresh q -> remaining q = sum_bt q.
Proof.
  induction 1 as [| p q (Hte & _ & Hd) _ IH]; simpl; [done |].
  unfold remaining_of. rewrite Hd, Hte, IH. lia.
Qed.

Lemma fresh_live (p : Process) : fresh p -> 0 < get_bt (get_pcb p) -> live p.
Proof.
  intros (Hte & _ & Hd) Hbt. unfold live. rewrite Hd, Hte. lia.
Qed.

(** Fuel for the burst still to run is enough. *)
Lemma loop_terminates (fuel : nat) (s : RoundRobin.t) (n : option Z) :
  rr_inv (s, n) ->
  remaining (RoundRobin.__queue s) <= Z.of_nat fuel ->
  exists s', RoundRobin.loop fuel s n = Ok s'.
Proof.
  revert s n. induction fuel as [| fuel IH]; intros s [j |] Hinv Hfuel;
    try (eexists; reflexivity).
  - exfalso. destruct Hinv as (HQ & Ht & Hlive & i & p & -> & Hp & Hd). simpl in *.
    assert (Hl : live p) by (eapply Forall_lookup_1; eassumption).
    pose proof (remaining_of_not_done p Hl Hd).
    pose proof (remaining_ge _ _ _ Hlive Hp). lia.
  - pose proof Hinv as (HQ & Ht & Hlive & i & p & -> & Hp & Hd). simpl in *.
    assert (Hl : live p) by (eapply Forall_lookup_1; eassumption).
    destruct (rr_step_spec s i p HQ Ht Hp Hl Hd) as [He Hn].
    rewrite He. cbn [bind]. rewrite Hn. cbn [bind].
    apply IH; [now apply rr_inv_after |].
    cbn [after_dispatch RoundRobin.__queue].
    rewrite (remaining_insert _ _ _ _ Hp).
    pose proof (remaining_dispatched _ (RoundRobin.__time s) p HQ Hl Hd). lia.
Qed.

(** ** Round Robin: invariants of a run *)

(** A property of the engine kept by every dispatch holds all along. *)
Lemma rr_invariant (P : RoundRobin.t -> Prop) :
  (forall (s : RoundRobin.t) (i : nat) (p : Process),
     rr_inv (s, Some (Z.of_nat i)) -> P s ->
     RoundRobin.__queue s !! i = Some p -> is_done (get_pcb p) = false ->
     P (after_dispatch s i p)) ->
  forall x y, rtc rr_step x y -> rr_inv x -> P (fst x) -> rr_inv y /\ P (fst y).
Proof.
  intros Hkeep x y Hrtc. induction Hrtc as [x | x y z Hstep _ IH]; intros Hinv HP; [done |].
  apply IH.
  - eapply rr_inv_step; eassumption.
  - destruct x as [s [j |]]; [| inversion Hstep].
    destruct (rr_step_inv _ _ _ Hinv Hstep) as (i & p & -> & Hp & _ & Hd & ->).
    simpl. eapply Hkeep; eassumption.
Qed.

Lemma start_processing_ordered (fuel : nat) (quantum t0 : Z) (q s : list Process) :
  order_queue q = Ok s ->
  RoundRobin.__order_queue (RoundRobin.init quantum q t0) = Ok (ordered quantum t0 s) /\
  RoundRobin.__next_process (ordered quantum t0 s) = Ok (Some 0) /\
  RoundRobin.start_processing fuel (RoundRobin.init quantum q t0) =
    RoundRobin.loop fuel (ordered quantum t0 s) (Some 0).
Proof.
  intros Hs.
  assert (H1 : RoundRobin.__order_queue (RoundRobin.init quantum q t0)
               = Ok (ordered quantum t0 s)).
  { unfold RoundRobin.__order_queue, RoundRobin.init. cbn [RoundRobin.__queue].
    now rewrite Hs. }
  assert (H2 : RoundRobin.__next_process (ordered quantum t0 s) = Ok (Some 0)).
  { destruct (order_queue_nonempty _ _ Hs) as [_ Hne].
    destruct s as [| p s]; [done |]. now eapply next_process_first. }
  split; [done |]. split; [done |].
  unfold RoundRobin.start_processing. rewrite H1. cbn [bind]. now rewrite H2.
Qed.

Lemma ordered_inv (quantum t0 : Z) (q s : list Process) :
  0 < quantum ->
  Forall (fun p => fresh p /\ 0 < get_bt (get_pcb p)) q ->
  order_queue q = Ok s ->
  rr_inv (ordered quantum t0 s, Some 0).
Proof.
  intros HQ Hq Hs.
  rewrite (order_queue_Permutation _ _ Hs) in Hq.
  destruct (order_queue_nonempty _ _ Hs) as [_ Hne].
  split; [done |]. split; [simpl; lia |]. split; simpl.
  - eapply Forall_impl; [exact Hq |]. intros p [? ?]. now apply fresh_live.
  - destruct s as [| p s]; [done |]. exists O, p.
    apply Forall_cons in Hq as [[(_ & _ & Hd) _] _]. done.
Qed.

(** Enough fuel gives a result: the total burst time suffices. *)
Lemma RR_run_total (fuel : nat) (quantum t0 : Z) (q s : list Process) :
  0 < quantum ->
  Forall (fun p => fresh p /\ 0 < get_bt (get_pcb p)) q ->
  order_queue q = Ok s ->
  sum_bt q <= Z.of_nat fuel ->
  exists q' t', RoundRobin.run fuel quantum q t0 = Ok (q', t').
Proof.
  intros HQ Hq Hs Hfuel. unfold RoundRobin.run.
  destruct (start_processing_ordered fuel quantum t0 q s Hs) as (_ & _ & ->).
  destruct (loop_terminates fuel (ordered quantum t0 s) (Some 0)) as [s' Hs'].
  - eapply ordered_inv; eassumption.
  - simpl. rewrite remaining_fresh.
    + now rewrite <- (sum_bt_Permutation _ _ (order_queue_Permutation _ _ Hs)).
    + rewrite <- (order_queue_Permutation _ _ Hs).
      eapply Forall_impl; [exact Hq |]. now intros p [? _].
  - rewrite Hs'. cbn [bind]. eauto.
Qed.

(** A run that returned went through the steps of the loop from the ordered
    queue. *)
Lemma RR_run_rtc (fuel : nat) (quantum t0 t' : Z) (q q' : list Process) :
  RoundRobin.run fuel quantum q t0 = Ok (q', t') ->
  exists s sf,
    order_queue q = Ok s /\
    rtc rr_step (ordered quantum t0 s, Some 0) (sf, None) /\
    RoundRobin.__queue sf = q' /\ RoundRobin.__time sf = t'.
Proof.
  unfold RoundRobin.run. intros H. inv_bind H. injection H as <- <-.
  destruct (order_queue q) as [s | e |] eqn:Hs.
  - destruct (start_processing_ordered fuel quantum t0 q s Hs) as (_ & _ & Heq).
    rewrite Heq in Ha. exists s, a. split; [done |].
    split; [eapply loop_rtc, Ha | done].
  - unfold RoundRobin.start_processing, RoundRobin.__order_queue in Ha.
    cbn [RoundRobin.init RoundRobin.__queue] in Ha. rewrite Hs in Ha. discriminate.
  - unfold RoundRobin.start_processing, RoundRobin.__order_queue in Ha.
    cbn [RoundRobin.init RoundRobin.__queue] in Ha. rewrite Hs in Ha. discriminate.
Qed.

(** C6.  Under Round Robin with a positive quantum, on fresh processes with
    positive BT: a run that returns went through the steps of the loop from
    the ordered queue, and in every state the loop passes through every
    process has 0 <= TE <= BT and is done exactly when TE = BT; the dispatch
    of the next process is the one step possible, it changes that process
    alone, strictly increases its TE by the ticks the clock advanced, keeps
    TE within BT, and marks it done exactly when its TE has reached BT: the
    state is saved first (TE = BT, not yet done), then the process is marked
    done. *)
Theorem RR_te_strictly_increases (quantum t0 : Z) (q s0 : list Process) :
  0 < quantum ->
  Forall (fun p => fresh p /\ 0 < get_bt (get_pcb p)) q ->
  order_queue q = Ok s0 ->
  (forall (fuel : nat) (sf : RoundRobin.t),
     RoundRobin.start_processing fuel (RoundRobin.init quantum q t0) = Ok sf ->
     rtc rr_step (ordered quantum t0 s0, Some 0) (sf, None)) /\
  forall (s : RoundRobin.t) (n : option Z),
    rtc rr_step (ordered quantum t0 s0, Some 0) (s, n) ->
    Forall (fun p => 0 <= get_te (get_pcb p) <= get_bt (get_pcb p) /\
                     (is_done (get_pcb p) = true <->
                      get_te (get_pcb p) = get_bt (get_pcb p)))
           (RoundRobin.__queue s) /\
    forall j : Z, n = Some j ->
      exists (i : nat) (p p' : Process) (s' : RoundRobin.t) (n' : option Z),
        j = Z.of_nat i /\ RoundRobin.__queue s !! i = Some p /\
        is_done (get_pcb p) = false /\
        rr_step (s, n) (s', n') /\
        (forall y, rr_step (s, n) y -> y = (s', n')) /\
        RoundRobin.__queue s' = <[i := p']> (RoundRobin.__queue s) /\
        get_te (get_pcb p) < get_te (get_pcb p') /\
        get_te (get_pcb p') <= get_bt (get_pcb p') /\
        get_bt (get_pcb p') = get_bt (get_pcb p) /\
        get_te (get_pcb p') - get_te (get_pcb p)
          = RoundRobin.__time s' - RoundRobin.__time s /\
        (is_done (get_pcb p') = true <-> get_te (get_pcb p') = get_bt (get_pcb p')) /\
        (is_done (get_pcb p') = true ->
         let saved := rr_saved (RoundRobin.__time s) (RoundRobin.__time s') p in
         get_te (get_pcb saved) = get_bt (get_pcb p) /\
         is_done (get_pcb saved) = false /\
         p' = rr_marked_done (RoundRobin.__time s') saved).
Proof.
  intros HQ Hq Hs. split.
  - intros fuel sf H.
    destruct (start_processing_ordered fuel quantum t0 q s0 Hs) as (_ & _ & Heq).
    rewrite Heq in H. eapply loop_rtc, H.
  - intros s n Hrtc.
    pose proof (ordered_inv quantum t0 q s0 HQ Hq Hs) as Hinv0.
    destruct (rr_invariant (fun _ => True) (fun _ _ _ _ _ _ _ => I) _ _ Hrtc Hinv0 I)
      as [Hinv _].
    pose proof Hinv as (HQs & Ht & Hlive & Hn). cbn [fst snd] in *.
    split.
    + eapply Forall_impl; [exact Hlive |]. intros p (Hbt & Hte & Hd).
      destruct (is_done (get_pcb p)); split; try lia; split; intros; try lia;
        try done; try discriminate.
    + intros j ->. destruct Hn as (i & p & -> & Hp & Hd).
      assert (Hl : live p) by (eapply Forall_lookup_1; eassumption).
      destruct (rr_step_spec s i p HQs Ht Hp Hl Hd) as [He Hnx].
      pose proof (dispatched_facts _ (RoundRobin.__time s) p HQs Hl Hd)
        as (H1 & H2 & _ & _ & Hbt & Hte & Hle & _ & Hiff & _).
      cbv zeta in *.
      exists i, p, (dispatched (RoundRobin.__quantum s) (RoundRobin.__time s) p),
        (after_dispatch s i p),
        (circular_next (RoundRobin.__queue (after_dispatch s i p)) i).
      split; [done |]. split; [done |]. split; [done |].
      split; [eapply rr_step_expropiated; eassumption |].
      split.
      { intros y Hy.
        destruct (rr_step_inv _ _ _ Hinv Hy) as (i' & p'' & Hi' & Hp'' & _ & _ & ->).
        apply Nat2Z.inj in Hi'. subst i'.
        assert (p'' = p) by congruence. now subst p''. }
      split; [reflexivity |].
      cbn [after_dispatch RoundRobin.__time].
      rewrite Hbt.
      split; [lia |]. split; [lia |]. split; [reflexivity |]. split; [lia |].
      split; [tauto |].
      intros Hdone.
      destruct (dispatched_finishing _ (RoundRobin.__time s) p Hd Hdone) as (H3 & H4 & H5).
      cbv zeta. done.
Qed.

Lemma rr_scenario_fresh :
  Forall (fun p => fresh p /\ 0 < get_bt (get_pcb p)) rr_scenario.
Proof.
  repeat constructor; simpl; lia.
Defined.

Lemma RR_te_strictly_increases_witness :
  (forall (fuel : nat) (sf : RoundRobin.t),
     RoundRobin.start_processing fuel (RoundRobin.init 2 rr_scenario 0) = Ok sf ->
     rtc rr_step (ordered 2 0 rr_scenario, Some 0) (sf, None)) /\
  forall (s : RoundRobin.t) (n : option Z),
    rtc rr_step (ordered 2 0 rr_scenario, Some 0) (s, n) ->
    Forall (fun p => 0 <= get_te (get_pcb p) <= get_bt (get_pcb p) /\
                     (is_done (get_pcb p) = true <->
                      get_te (get_pcb p) = get_bt (get_pcb p)))
           (RoundRobin.__queue s) /\
    forall j : Z, n = Some j ->
      exists (i : nat) (p p' : Process) (s' : RoundRobin.t) (n' : option Z),
        j = Z.of_nat i /\ RoundRobin.__queue s !! i = Some p /\
        is_done (get_pcb p) = false /\
        rr_step (s, n) (s', n') /\
        (forall y, rr_step (s, n) y -> y = (s', n')) /\
        RoundRobin.__queue s' = <[i := p']> (RoundRobin.__queue s) /\
        get_te (get_pcb p) < get_te (get_pcb p') /\
        get_te (get_pcb p') <= get_bt (get_pcb p') /\
        get_bt (get_pcb p') = get_bt (get_pcb p) /\
        get_te (get_pcb p') - get_te (get_pcb p)
          = RoundRobin.__time s' - RoundRobin.__time s /\
        (is_done (get_pcb p') = true <-> get_te (get_pcb p') = get_bt (get_pcb p')) /\
        (is_done (get_pcb p') = true ->
         let saved := rr_saved (RoundRobin.__time s) (RoundRobin.__time s') p in
         get_te (get_pcb saved) = get_bt (get_pcb p) /\
         is_done (get_pcb saved) = false /\
         p' = rr_marked_done (RoundRobin.__time s') saved).
Proof.
  exact (RR_te_strictly_increases 2 0 rr_scenario rr_scenario
           eq_refl rr_scenario_fresh eq_refl).
Defined.

Example RR_scenario_run :
  exists p1 p2,
    RoundRobin.run 8 2 rr_scenario 0 = Ok ([p1; p2], 8) /\
    get_ct (get_pcb p1) = 6 /\ get_te (get_pcb p1) = 4 /\ get_rt (get_pcb p1) = 0 /\
    get_ct (get_pcb p2) = 8 /\ get_te (get_pcb p2) = 4 /\ get_rt (get_pcb p2) = 2.
Proof. do 2 eexists. split; [vm_compute; reflexivity |]. repeat split. Qed.

(** ** Round Robin: response and completion times *)

Lemma timed_mono (t0 now now' : Z) (p : Process) :
  now <= now' -> timed t0 now p -> timed t0 now' p.
Proof.
  intros Hle (H1 & H2 & H3). split; [exact H1 |]. split.
  - intros H. apply H2 in H. lia.
  - intros H. apply H3 in H. lia.
Qed.

Lemma timed_dispatched (quantum t0 now : Z) (p : Process) :
  0 < quantum -> 0 <= t0 -> t0 <= now ->
  live p -> is_done (get_pcb p) = false ->
  timed t0 now p ->
  timed t0 (now + slice_len quantum p) (dispatched quantum now p).
Proof.
  intros HQ H0 Hnow Hl Hd (H1 & H2 & _).
  pose proof (dispatched_facts quantum now p HQ Hl Hd)
    as (Hd1 & _ & _ & _ & Hbt & Hte & _ & _ & Hiff & Hrt & Hct).
  cbv zeta in *. unfold timed. rewrite Hrt, Hte, Hbt.
  destruct (Z.ltb_spec (get_rt (get_pcb p)) 0) as [Hneg | Hpos].
  - destruct (H1 Hneg) as [Hte0 _]. rewrite Hte0.
    split; [lia |]. split; [lia |].
    intros Hdone. destruct (Hct Hdone) as (-> & _).
    apply Hiff in Hdone. lia.
  - destruct (H2 Hpos) as [Ht0 Hsum].
    split; [lia |]. split; [lia |].
    intros Hdone. destruct (Hct Hdone) as (-> & _).
    apply Hiff in Hdone. lia.
Qed.

Lemma fresh_timed (t0 now : Z) (p : Process) : fresh p -> timed t0 now p.
Proof.
  intros (Hte & Hrt & Hd). unfold timed. rewrite Hd, Hte.
  repeat split; try lia; try done; discriminate.
Qed.

(** What a Round Robin run from a start time [t0 >= 0] leaves: the clock
    did not go back, every process is done, was first dispatched at or after
    [t0], completed at or before the end time, and RT + BT <= CT. *)
Lemma RR_run_facts (fuel : nat) (quantum t0 tr : Z) (q qr : list Process) :
  0 < quantum -> 0 <= t0 ->
  Forall (fun p => fresh p /\ 0 < get_bt (get_pcb p)) q ->
  RoundRobin.run fuel quantum q t0 = Ok (qr, tr) ->
  t0 <= tr /\
  Forall (fun p =>
            is_done (get_pcb p) = true /\
            t0 <= get_rt (get_pcb p) /\
            get_rt (get_pcb p) + get_bt (get_pcb p) <= get_ct (get_pcb p) /\
            get_ct (get_pcb p) <= tr) qr.
Proof.
  intros HQ H0 Hq Hrun.
  destruct (RR_run_rtc _ _ _ _ _ _ Hrun) as (s & sf & Hs & Hrtc & <- & <-).
  pose proof (ordered_inv quantum t0 q s HQ Hq Hs) as Hinv0.
  destruct (rr_invariant
              (fun st => RoundRobin.__initial_time st = t0 /\
                         Forall (timed t0 (RoundRobin.__time st)) (RoundRobin.__queue st)))
    with (x := (ordered quantum t0 s, Some 0)) (y := (sf, @None Z))
    as [(_ & Ht & _ & Hdone) [Hini Htimed]]; try done.
  - intros st i p (HQs & Hts & Hlive & _) [Hi Ht] Hp Hd. cbn [fst snd] in *.
    assert (Hl : live p) by (eapply Forall_lookup_1; eassumption).
    pose proof (dispatched_facts _ (RoundRobin.__time st) p HQs Hl Hd) as (Hd1 & _).
    cbv zeta in Hd1.
    split; [done |]. cbn [after_dispatch RoundRobin.__time RoundRobin.__queue].
    apply Forall_insert.
    + eapply Forall_impl; [exact Ht |]. intros x. apply timed_mono. lia.
    + apply timed_dispatched; try done; try lia.
      eapply Forall_lookup_1; eassumption.
  - split; [reflexivity |]. simpl.
    rewrite (order_queue_Permutation _ _ Hs) in Hq.
    eapply Forall_impl; [exact Hq |]. intros p [Hf _]. now apply fresh_timed.
  - cbn [fst snd] in *. split; [lia |].
    apply Forall_forall. intros p Hp.
    rewrite Forall_forall in Hdone, Htimed.
    pose proof (Hdone p Hp) as Hd. destruct (Htimed p Hp) as (H1 & H2 & H3).
    unfold finished in Hd.
    assert (Hrt : 0 <= get_rt (get_pcb p)).
    { destruct (Z.ltb_spec (get_rt (get_pcb p)) 0) as [Hneg | ?]; [| done].
      destruct (H1 Hneg) as [_ Hnd]. congruence. }
    destruct (H2 Hrt) as [? ?]. destruct (H3 Hd) as [? ?]. done.
Qed.

(** C9.  Every process executed by either policy has RT <= CT - BT: under
    FCFS with equality, and under Round Robin with a positive quantum and
    positive BT.  The clock of the data model is never negative (the
    dispatcher starts it at 0 and no engine turns it back), and a negative
    RT is what marks a process that has not been dispatched yet. *)
Theorem response_before_completion (q s : list Process) (t0 : Z) :
  order_queue q = Ok s ->
  (exists qf tf,
     FCFS_executed q t0 = Ok (qf, tf) /\
     FCFS.run q t0 = FCFS_returns qf tf /\
     Forall (fun p => get_rt (get_pcb p) = get_ct (get_pcb p) - get_bt (get_pcb p) /\
                      get_rt (get_pcb p) <= get_ct (get_pcb p) - get_bt (get_pcb p)) qf) /\
  (forall (fuel : nat) (quantum : Z),
     0 < quantum -> 0 <= t0 ->
     Forall (fun p => fresh p /\ 0 < get_bt (get_pcb p)) q ->
     sum_bt q <= Z.of_nat fuel ->
     exists qr tr,
       RoundRobin.run fuel quantum q t0 = Ok (qr, tr) /\
       Forall (fun p => get_rt (get_pcb p) <= get_ct (get_pcb p) - get_bt (get_pcb p)) qr).
Proof.
  intros Hs. split.
  - exists (fcfs_schedule t0 s), (t0 + sum_bt q).
    split; [now apply FCFS_executed_sorted |].
    split; [now apply FCFS_run_sorted |].
    apply Forall_lookup. intros i p' Hp'.
    assert (Hi : (i < length s)%nat)
      by (rewrite <- (fcfs_schedule_length t0); eapply lookup_lt_Some, Hp').
    destruct (lookup_lt_is_Some_2 s i Hi) as [p Hp].
    rewrite (fcfs_schedule_lookup t0 s i p Hp) in Hp'. injection Hp' as <-.
    simpl. lia.
  - intros fuel quantum HQ H0 Hq Hfuel.
    destruct (RR_run_total fuel quantum t0 q s HQ Hq Hs Hfuel) as (qr & tr & Hrun).
    exists qr, tr. split; [done |].
    destruct (RR_run_facts _ _ _ _ _ _ HQ H0 Hq Hrun) as [_ H].
    eapply Forall_impl; [exact H |]. intros p (_ & _ & ? & _). simpl. lia.
Qed.

Lemma response_before_completion_witness :
  (exists qf tf,
     FCFS_executed rr_scenario 0 = Ok (qf, tf) /\
     FCFS.run rr_scenario 0 = FCFS_returns qf tf /\
     Forall (fun p => get_rt (get_pcb p) = get_ct (get_pcb p) - get_bt (get_pcb p) /\
                      get_rt (get_pcb p) <= get_ct (get_pcb p) - get_bt (get_pcb p)) qf) /\
  (forall (fuel : nat) (quantum : Z),
     0 < quantum -> 0 <= 0 ->
     Forall (fun p => fresh p /\ 0 < get_bt (get_pcb p)) rr_scenario ->
     sum_bt rr_scenario <= Z.of_nat fuel ->
     exists qr tr,
       RoundRobin.run fuel quantum rr_scenario 0 = Ok (qr, tr) /\
       Forall (fun p => get_rt (get_pcb p) <= get_ct (get_pcb p) - get_bt (get_pcb p)) qr).
Proof.
  exact (response_before_completion rr_scenario rr_scenario 0 eq_refl).
Defined.

(** The specification's Round Robin scenario, run by both engines from
    time 0: each returns, and RT <= CT - BT holds of every process. *)
Example response_before_completion_scenario :
  (exists qf, FCFS.run rr_scenario 0 = Ok (qf, 8) /\
     Forall (fun p => get_rt (get_pcb p) <= get_ct (get_pcb p) - get_bt (get_pcb p)) qf) /\
  (exists qr, RoundRobin.run 8 2 rr_scenario 0 = Ok (qr, 8) /\
     Forall (fun p => get_rt (get_pcb p) <= get_ct (get_pcb p) - get_bt (get_pcb p)) qr).
Proof.
  split; eexists; (split; [vm_compute; reflexivity |]);
    repeat constructor; simpl; lia.
Qed.

(** Why the negative RT of a new PCB needs a clock that is not negative:
    [__state_save] takes any negative RT for unset.  Started at -10 with
    quantum 3 on one process of BT 5, the first slice records RT = -10 and
    the second records RT = -7. *)
Example RR_negative_start_response :
  exists p',
    RoundRobin.run 2 3 [mkProcess "p1" (new_PCB 0 5 "1" 1)] (-10) = Ok ([p'], -5) /\
    get_rt (get_pcb p') = -7 /\ get_ct (get_pcb p') = -5 /\ get_bt (get_pcb p') = 5.
Proof.
  eexists. split; [vm_compute; reflexivity |]. simpl. repeat split; lia.
Qed.

(** ** Round Robin with a quantum that covers every burst *)

Lemma fresh_one_slice (quantum t : Z) (p : Process) :
  fresh p -> 0 < get_bt (get_pcb p) <= quantum ->
  slice_len quantum p = get_bt (get_pcb p) /\
  is_done (get_pcb (dispatched quantum t p)) = true /\
  metrics (dispatched quantum t p) = metrics (fcfs_executed t p).
Proof.
  intros (Hte & Hrt & Hd) Hbt. unfold metrics.
  destruct p as [tag [a b te ct wt rt tat et qu pr dn]]. pcb_cbv. subst.
  replace ((1 <=? b - 0) && (b - 0 <=? quantum)) with true
    by (symmetry; apply andb_true_iff; split; apply Z.leb_le; lia).
  replace (rt <? 0) with true by (symmetry; apply Z.ltb_lt; lia).
  rewrite !Z.sub_0_r. replace (t + b - a - b) with (t - a) by lia.
  done.
Qed.

Lemma excecute_middle (pre rest : list Process) (p : Process) (quantum t t0 st ix : Z) :
  0 < quantum ->
  RoundRobin.__excecute_process
    (RoundRobin.mk quantum t t0 (pre ++ p :: rest) st ix) (Z.of_nat (length pre)) =
  Ok (RoundRobin.mk quantum (t + slice_len quantum p) t0
        (pre ++ dispatched quantum t p :: rest) t (Z.of_nat (length pre)),
      true).
Proof.
  intros HQ.
  rewrite (excecute_process_spec _ (length pre) p);
    [| exact HQ | now apply list_lookup_middle].
  cbn [RoundRobin.__quantum RoundRobin.__time RoundRobin.__initial_time
       RoundRobin.__queue].
  rewrite insert_app_r_alt, Nat.sub_diag by done. reflexivity.
Qed.

Lemma next_process_dispatched (q : list Process) (k : nat) (quantum t t0 st : Z) :
  t0 < t ->
  RoundRobin.__next_process (RoundRobin.mk quantum t t0 q st (Z.of_nat k)) =
  Ok (circular_next q k).
Proof.
  intros Ht. rewrite (next_process_spec _ k); [reflexivity | simpl; lia | reflexivity].
Qed.

Lemma loop_single_pass (rest : list Process) :
  forall (pre : list Process) (p : Process) (fuel : nat) (quantum t t0 st ix : Z),
    0 < quantum -> t0 <= t ->
    Forall finished pre ->
    Forall (fun p => fresh p /\ 0 < get_bt (get_pcb p) <= quantum) (p :: rest) ->
    (length (p :: rest) <= fuel)%nat ->
    exists st' ix',
      RoundRobin.loop fuel (RoundRobin.mk quantum t t0 (pre ++ p :: rest) st ix)
        (Some (Z.of_nat (length pre))) =
      Ok (RoundRobin.mk quantum (t + sum_bt (p :: rest)) t0
            (pre ++ rr_schedule quantum t (p :: rest)) st' ix').
Proof.
  induction rest as [| p2 rest IH]; intros pre p fuel quantum t t0 st ix HQ Ht Hpre Hall Hfuel.
  - destruct fuel as [| fuel]; [simpl in Hfuel; lia |].
    apply Forall_cons in Hall as [[Hf Hbt] _].
    destruct (fresh_one_slice quantum t p Hf Hbt) as (Hlen & Hdone & _).
    cbn [RoundRobin.loop].
    rewrite excecute_middle by done. cbn [bind].
    rewrite next_process_dispatched by lia. cbn [bind].
    unfold circular_next.
    rewrite drop_ge by (rewrite length_app; simpl; lia). cbn [RoundRobin.scan_front].
    rewrite scan_front_all_done.
    2:{ apply Forall_app. split; [done |]. now repeat constructor. }
    rewrite Hlen.
    destruct fuel; cbn [RoundRobin.loop]; do 2 eexists; simpl;
      now rewrite Z.add_0_r.
  - destruct fuel as [| fuel]; [simpl in Hfuel; lia |].
    apply Forall_cons in Hall as [[Hf Hbt] Hall].
    destruct (fresh_one_slice quantum t p Hf Hbt) as (Hlen & Hdone & _).
    cbn [RoundRobin.loop].
    rewrite excecute_middle by done. cbn [bind].
    rewrite next_process_dispatched by lia. cbn [bind].
    unfold circular_next.
    change (pre ++ dispatched quantum t p :: p2 :: rest)
      with (pre ++ [dispatched quantum t p] ++ p2 :: rest).
    rewrite app_assoc.
    replace (S (length pre)) with (length (pre ++ [dispatched quantum t p]))
      by (rewrite length_app; simpl; lia).
    rewrite drop_app_length. cbn [RoundRobin.scan_front].
    pose proof Hall as Hall'. apply Forall_cons in Hall' as [[(_ & _ & Hd2) _] _].
    rewrite Hd2. cbn [negb].
    rewrite Hlen.
    destruct (IH (pre ++ [dispatched quantum t p]) p2 fuel quantum
                (t + get_bt (get_pcb p)) t0 t (Z.of_nat (length pre)))
      as (st' & ix' & Hloop); try done; try lia.
    + apply Forall_app. split; [done |]. now repeat constructor.
    + simpl in *. lia.
    + rewrite Hloop. exists st', ix'. f_equal. f_equal.
      * simpl. lia.
      * rewrite <- app_assoc. reflexivity.
Qed.

Lemma RR_run_single_pass (fuel : nat) (quantum t0 : Z) (q s : list Process) :
  order_queue q = Ok s ->
  Forall (fun p => fresh p /\ 0 < get_bt (get_pcb p) <= quantum) q ->
  (length q <= fuel)%nat ->
  RoundRobin.run fuel quantum q t0 = Ok (rr_schedule quantum t0 s, t0 + sum_bt q).
Proof.
  intros Hs Hq Hfuel. unfold RoundRobin.run.
  destruct (start_processing_ordered fuel quantum t0 q s Hs) as (_ & _ & ->).
  pose proof (order_queue_Permutation _ _ Hs) as HP.
  rewrite HP in Hq. rewrite (Permutation_length HP) in Hfuel.
  rewrite (sum_bt_Permutation _ _ HP).
  destruct (order_queue_nonempty _ _ Hs) as [_ Hne].
  destruct s as [| p s]; [done |].
  assert (HQ : 0 < quantum).
  { apply Forall_cons in Hq as [[_ ?] _]. lia. }
  destruct (loop_single_pass s [] p fuel quantum t0 t0 0 0) as (st' & ix' & Hloop);
    try done; try lia.
  unfold ordered. cbn [app length] in Hloop. change (Z.of_nat 0) with 0 in Hloop.
  rewrite Hloop. reflexivity.
Qed.

Lemma metrics_schedules (quantum t : Z) (s : list Process) :
  Forall (fun p => fresh p /\ 0 < get_bt (get_pcb p) <= quantum) s ->
  map metrics (rr_schedule quantum t s) = map metrics (fcfs_schedule t s).
Proof.
  intros H. revert t. induction H as [| p s [Hf Hbt] _ IH]; intros t; [done |].
  simpl. rewrite IH. f_equal.
  now destruct (fresh_one_slice quantum t p Hf Hbt) as (_ & _ & ->).
Qed.

(** C7.  On a queue of fresh processes with positive BT, a quantum at least
    every BT makes Round Robin dispatch each process once: from the same
    start time it ends at the same clock as FCFS, and leaves the same tag,
    WT, CT, RT and TAT for every process, position by position.  FCFS
    returns that queue and clock (its [_calculate_metrics] raising
    OverflowError instead only on times beyond the float range). *)
Theorem RR_large_quantum_is_FCFS (fuel : nat) (quantum t0 : Z) (q s : list Process) :
  order_queue q = Ok s ->
  Forall (fun p => fresh p /\ 0 < get_bt (get_pcb p) <= quantum) q ->
  (length q <= fuel)%nat ->
  exists qr qf t,
    RoundRobin.run fuel quantum q t0 = Ok (qr, t) /\
    FCFS_executed q t0 = Ok (qf, t) /\
    FCFS.run q t0 = FCFS_returns qf t /\
    (times_fit t0 q -> FCFS.run q t0 = Ok (qf, t)) /\
    map metrics qr = map metrics qf.
Proof.
  intros Hs Hq Hfuel.
  exists (rr_schedule quantum t0 s), (fcfs_schedule t0 s), (t0 + sum_bt q).
  split; [now apply RR_run_single_pass |].
  split; [now apply FCFS_executed_sorted |].
  split; [now apply FCFS_run_sorted |].
  split; [now apply FCFS_run_fits |].
  apply metrics_schedules. now rewrite <- (order_queue_Permutation _ _ Hs).
Qed.

Lemma rr_scenario_small :
  Forall (fun p => fresh p /\ 0 < get_bt (get_pcb p) <= 4) rr_scenario.
Proof.
  repeat constructor; simpl; lia.
Defined.

Lemma RR_large_quantum_is_FCFS_witness :
  exists qr qf t,
    RoundRobin.run 2 4 rr_scenario 0 = Ok (qr, t) /\
    FCFS_executed rr_scenario 0 = Ok (qf, t) /\
    FCFS.run rr_scenario 0 = FCFS_returns qf t /\
    (times_fit 0 rr_scenario -> FCFS.run rr_scenario 0 = Ok (qf, t)) /\
    map metrics qr = map metrics qf.
Proof.
  apply (RR_large_quantum_is_FCFS 2 4 0 rr_scenario rr_scenario eq_refl rr_scenario_small).
  simpl. lia.
Defined.

(** On the specification's scenario both engines return. *)
Example RR_large_quantum_scenario :
  times_fit 0 rr_scenario /\
  exists qr qf,
    RoundRobin.run 2 4 rr_scenario 0 = Ok (qr, 8) /\
    FCFS.run rr_scenario 0 = Ok (qf, 8) /\
    map metrics qr = map metrics qf.
Proof.
  split; [repeat constructor; vm_compute; congruence |].
  do 2 eexists. split; [vm_compute; reflexivity |].
  split; [vm_compute; reflexivity |]. reflexivity.
Qed.

(** ** The MLQ dispatcher *)

Lemma py_range_nat (n : nat) : py_range (Z.of_nat n) = map Z.of_nat (seq 0 n).
Proof. unfold py_range. now rewrite Nat2Z.id. Qed.

Lemma MLQ_step_0 (fuel : nat) (q : list Process) (qs : list (list Process)) (t : Z) :
  MLQ.step fuel (MLQ.mk (q :: qs) t) 0 =
  let* '(q', t') := on_nonempty (RoundRobin.run fuel 3) q t in
  Ok (MLQ.mk (q' :: qs) t').
Proof.
  unfold MLQ.step. change 0 with (Z.of_nat 0) at 1. rewrite py_getitem_nat.
  cbn [lookup list_lookup bind MLQ.__queues MLQ.__time].
  destruct q as [| p l]; [reflexivity |].
  cbn [length Z.of_nat Z.gtb Z.compare Z.eqb on_nonempty].
  unfold RoundRobin.run.
  destruct (RoundRobin.start_processing fuel (RoundRobin.init 3 (p :: l) t));
    reflexivity.
Qed.

Lemma MLQ_step_1 (fuel : nat) (a q : list Process) (qs : list (list Process)) (t : Z) :
  MLQ.step fuel (MLQ.mk (a :: q :: qs) t) 1 =
  let* '(q', t') := on_nonempty (RoundRobin.run fuel 5) q t in
  Ok (MLQ.mk (a :: q' :: qs) t').
Proof.
  unfold MLQ.step. change 1 with (Z.of_nat 1) at 1. rewrite py_getitem_nat.
  cbn [lookup list_lookup bind MLQ.__queues MLQ.__time].
  destruct q as [| p l]; [reflexivity |].
  cbn [length Z.of_nat Z.gtb Z.compare Z.eqb on_nonempty].
  change (py_store (a :: (p :: l) :: qs) 1) with (py_store (a :: (p :: l) :: qs) (Z.of_nat 1)).
  unfold RoundRobin.run.
  destruct (RoundRobin.start_processing fuel (RoundRobin.init 5 (p :: l) t));
    cbn [bind]; rewrite ?py_store_nat; reflexivity.
Qed.

Lemma MLQ_step_2 (fuel : nat) (a b q : list Process) (qs : list (list Process)) (t : Z) :
  MLQ.step fuel (MLQ.mk (a :: b :: q :: qs) t) 2 =
  let* '(q', t') := on_nonempty FCFS.run q t in
  Ok (MLQ.mk (a :: b :: q' :: qs) t').
Proof.
  unfold MLQ.step. change 2 with (Z.of_nat 2) at 1. rewrite py_getitem_nat.
  cbn [lookup list_lookup bind MLQ.__queues MLQ.__time].
  destruct q as [| p l]; [reflexivity |].
  cbn [length Z.of_nat Z.gtb Z.compare Z.eqb on_nonempty].
  change (py_store (a :: b :: (p :: l) :: qs) 2)
    with (py_store (a :: b :: (p :: l) :: qs) (Z.of_nat 2)).
  unfold FCFS.run.
  destruct (FCFS.start_processing (FCFS.init (p :: l) t));
    cbn [bind]; rewrite ?py_store_nat; reflexivity.
Qed.

(** From the fourth queue on no branch of the dispatcher applies. *)
Lemma MLQ_steps_beyond (fuel n : nat) :
  forall (a : nat) (qs : list (list Process)) (t : Z),
    (3 <= a)%nat -> (a + n <= length qs)%nat ->
    MLQ.steps fuel (map Z.of_nat (seq a n)) (MLQ.mk qs t) = Ok (MLQ.mk qs t).
Proof.
  induction n as [| n IH]; intros a qs t Ha Hlen; [reflexivity |].
  cbn [seq map MLQ.steps].
  assert (Hstep : MLQ.step fuel (MLQ.mk qs t) (Z.of_nat a) = Ok (MLQ.mk qs t)).
  { unfold MLQ.step. rewrite py_getitem_nat. cbn [MLQ.__queues].
    destruct (lookup_lt_is_Some_2 qs a) as [q Hq]; [lia |]. rewrite Hq. cbn [bind].
    destruct (Z.of_nat (length q) >? 0); [| reflexivity].
    destruct (Z.eqb_spec (Z.of_nat a) 0); [lia |].
    destruct (Z.eqb_spec (Z.of_nat a) 1); [lia |].
    destruct (Z.eqb_spec (Z.of_nat a) 2); [lia | reflexivity]. }
  rewrite Hstep. cbn [bind]. apply IH; lia.
Qed.

(** The dispatcher on three queues or more. *)
Lemma MLQ_start_processing_3 (fuel : nat) (q1 q2 q3 : list Process)
  (rest : list (list Process)) (t0 : Z) :
  MLQ.start_processing fuel (MLQ.mk (q1 :: q2 :: q3 :: rest) t0) =
  let* '(q1', t1) := on_nonempty (RoundRobin.run fuel 3) q1 t0 in
  let* '(q2', t2) := on_nonempty (RoundRobin.run fuel 5) q2 t1 in
  let* '(q3', t3) := on_nonempty FCFS.run q3 t2 in
  Ok (MLQ.mk (q1' :: q2' :: q3' :: rest) t3).
Proof.
  unfold MLQ.start_processing. cbn [MLQ.__queues]. rewrite py_range_nat.
  cbn [length seq map MLQ.steps].
  change (Z.of_nat 0) with 0. change (Z.of_nat 1) with 1. change (Z.of_nat 2) with 2.
  rewrite MLQ_step_0.
  destruct (on_nonempty (RoundRobin.run fuel 3) q1 t0) as [[q1' t1] | e |];
    cbn [bind]; try reflexivity.
  rewrite MLQ_step_1.
  destruct (on_nonempty (RoundRobin.run fuel 5) q2 t1) as [[q2' t2] | e |];
    cbn [bind]; try reflexivity.
  rewrite MLQ_step_2.
  destruct (on_nonempty FCFS.run q3 t2) as [[q3' t3] | e |];
    cbn [bind]; try reflexivity.
  apply MLQ_steps_beyond; simpl; lia.
Qed.

(** The dispatcher as a table of three entries, on any list of queues: an
    empty or absent queue is skipped, and the queues from the fourth on come
    out as they went in. *)
Lemma MLQ_start_processing_table (fuel : nat) (qs : list (list Process)) (t0 : Z) :
  MLQ.start_processing fuel (MLQ.mk qs t0) =
  let* '(q1', t1) := on_nonempty (RoundRobin.run fuel 3) (nth 0 qs []) t0 in
  let* '(q2', t2) := on_nonempty (RoundRobin.run fuel 5) (nth 1 qs []) t1 in
  let* '(q3', t3) := on_nonempty FCFS.run (nth 2 qs []) t2 in
  Ok (MLQ.mk (take (length qs) [q1'; q2'; q3'] ++ drop 3 qs) t3).
Proof.
  destruct qs as [| q1 [| q2 [| q3 rest]]].
  - reflexivity.
  - unfold MLQ.start_processing. cbn [MLQ.__queues]. rewrite py_range_nat.
    cbn [length seq map MLQ.steps nth on_nonempty bind take drop app].
    change (Z.of_nat 0) with 0. rewrite MLQ_step_0.
    destruct (on_nonempty (RoundRobin.run fuel 3) q1 t0) as [[q1' t1] | e |];
      reflexivity.
  - unfold MLQ.start_processing. cbn [MLQ.__queues]. rewrite py_range_nat.
    cbn [length seq map MLQ.steps nth on_nonempty bind take drop app].
    change (Z.of_nat 0) with 0. change (Z.of_nat 1) with 1. rewrite MLQ_step_0.
    destruct (on_nonempty (RoundRobin.run fuel 3) q1 t0) as [[q1' t1] | e |];
      cbn [bind]; try reflexivity.
    rewrite MLQ_step_1.
    destruct (on_nonempty (RoundRobin.run fuel 5) q2 t1) as [[q2' t2] | e |];
      reflexivity.
  - rewrite MLQ_start_processing_3. cbn [nth].
    destruct (on_nonempty (RoundRobin.run fuel 3) q1 t0) as [[q1' t1] | e |];
      cbn [bind]; try reflexivity.
    destruct (on_nonempty (RoundRobin.run fuel 5) q2 t1) as [[q2' t2] | e |];
      cbn [bind]; try reflexivity.
    destruct (on_nonempty FCFS.run q3 t2) as [[q3' t3] | e |];
      cbn [bind]; try reflexivity.
    cbn [length take drop app]. now rewrite take_nil.
Qed.


(** The tag "printer" reaches FCFS from an input file: a process line
    declaring queue 3 is read, placed in the third queue, and the dispatcher
    raises the ValueError of the ordering step. *)
Example MLQ_unreadable_tag :
  exists s,
    MLQ.init ["# header"; "# etiqueta; BT; AT; Q; Pr"; "printer;5;0;3;1"]%string = Ok s /\
    MLQ.__queues s = [[]; []; [mkProcess "printer" (new_PCB 0 5 "1" 3)]] /\
    MLQ.start_processing 0 s = Raise ValueError.
Proof. eexists. split; [vm_compute; reflexivity |]. split; vm_compute; reflexivity. Qed.

(** ** Termination of the engines *)

Lemma keyed_terminated {K A : Type} (key : A -> result K) (l : list A) :
  (forall x, key x <> OutOfFuel) -> keyed key l <> OutOfFuel.
Proof.
  intros Hkey. induction l as [| x l IH]; simpl; [discriminate |].
  specialize (Hkey x). destruct (key x); simpl; try done.
  destruct (keyed key l); simpl; done.
Qed.

Lemma order_queue_terminated (q : list Process) : order_queue q <> OutOfFuel.
Proof.
  unfold order_queue. rewrite py_getitem_last.
  destruct (last q) as [l |]; simpl; [| discriminate].
  destruct (startswith_p (get_tag l)); unfold py_sort.
  - pose proof (keyed_terminated key_suffix q) as H.
    destruct (keyed key_suffix q); simpl; try done.
    intros _. apply H; [| reflexivity].
    intros p. unfold key_suffix.
    destruct (py_int_cases (tail1 (get_tag p))) as [[n ->] | ->]; done.
  - pose proof (keyed_terminated key_tag q) as H.
    destruct (keyed key_tag q); simpl; try done.
    intros _. apply H; [| reflexivity]. done.
Qed.

Lemma FCFS_run_terminated (q : list Process) (t : Z) : terminated (FCFS.run q t).
Proof.
  destruct (order_queue q) as [s | e |] eqn:Hs.
  - rewrite (FCFS_run_sorted q s t Hs). unfold FCFS_returns.
    now destruct (floats_fit _).
  - unfold FCFS.run, FCFS.start_processing, FCFS._order_queue.
    cbn [FCFS.init FCFS._ready_queue]. now rewrite Hs.
  - now apply order_queue_terminated in Hs.
Qed.

Lemma RR_run_terminated (fuel : nat) (quantum t : Z) (q : list Process) :
  0 < quantum -> wf_queue q -> sum_bt q <= Z.of_nat fuel ->
  terminated (RoundRobin.run fuel quantum q t).
Proof.
  intros HQ Hq Hfuel. destruct (order_queue q) as [s | e |] eqn:Hs.
  - destruct (RR_run_total fuel quantum t q s HQ Hq Hs Hfuel) as (q' & t' & ->). done.
  - unfold RoundRobin.run, RoundRobin.start_processing, RoundRobin.__order_queue.
    cbn [RoundRobin.init RoundRobin.__queue]. now rewrite Hs.
  - now apply order_queue_terminated in Hs.
Qed.

(** A burst time that is not positive is never used up: the lone process is
    preempted at every slice and chosen again, whatever the fuel. *)
Lemma loop_nonpositive_burst (fuel : nat) :
  forall (quantum t t0 st ix : Z) (p : Process),
    0 < quantum -> t0 <= t ->
    get_bt (get_pcb p) - get_te (get_pcb p) <= 0 ->
    is_done (get_pcb p) = false ->
    RoundRobin.loop fuel (RoundRobin.mk quantum t t0 [p] st ix) (Some 0) = OutOfFuel.
Proof.
  induction fuel as [| fuel IH]; intros quantum t t0 st ix p HQ Ht Hr Hd; [reflexivity |].
  cbn [RoundRobin.loop].
  pose proof (excecute_middle [] [] p quantum t t0 st ix HQ) as He.
  cbn [app length] in He. change (Z.of_nat 0) with 0 in He. rewrite He. cbn [bind].
  assert (Hfin : finishes quantum p = false).
  { unfold finishes. apply andb_false_iff. left. apply Z.leb_gt. lia. }
  assert (Hlen : slice_len quantum p = quantum) by (unfold slice_len; now rewrite Hfin).
  rewrite Hlen.
  pose proof (next_process_dispatched [dispatched quantum t p] 0 quantum (t + quantum) t0 t)
    as Hn.
  change (Z.of_nat 0) with 0 in Hn. rewrite Hn by lia. cbn [bind].
  assert (Hp' : is_done (get_pcb (dispatched quantum t p)) = false /\
                get_bt (get_pcb (dispatched quantum t p))
                - get_te (get_pcb (dispatched quantum t p)) <= 0).
  { unfold dispatched. rewrite Hfin, Hlen. destruct p as [tag [a b te ct wt rt tat et qu pr dn]].
    pcb_cbv. destruct (rt <? 0); pcb_cbv; split; try done; lia. }
  destruct Hp' as [Hd' Hr'].
  unfold circular_next. cbn [drop RoundRobin.scan_front]. rewrite Hd'. cbn [negb].
  apply IH; try done; lia.
Qed.

Lemma loop_no_quantum (fuel : nat) :
  forall (s : RoundRobin.t) (k : nat) (p : Process),
    RoundRobin.__quantum s <= 0 ->
    RoundRobin.__queue s !! k = Some p ->
    RoundRobin.loop fuel s (Some (Z.of_nat k)) = OutOfFuel.
Proof.
  induction fuel as [| fuel IH]; intros s k p HQ Hp; [reflexivity |].
  cbn [RoundRobin.loop]. rewrite (excecute_process_no_quantum s k p HQ Hp). cbn [bind].
  now apply (IH _ k p).
Qed.

(** X2.  A quantum that is not positive gives the slice loop no iteration:
    [__excecute_process] returns without raising, the [while] loop goes round
    with the same process, and the run of any queue the ordering accepts
    does not return, whatever the fuel. *)
Theorem RR_no_quantum_never_returns (fuel : nat) (quantum t0 : Z) (q s : list Process) :
  quantum <= 0 ->
  order_queue q = Ok s ->
  RoundRobin.run fuel quantum q t0 = OutOfFuel.
Proof.
  intros HQ Hs. unfold RoundRobin.run.
  destruct (start_processing_ordered fuel quantum t0 q s Hs) as (_ & _ & ->).
  destruct (order_queue_nonempty _ _ Hs) as [_ Hne].
  destruct s as [| p s]; [done |].
  change (Some 0) with (Some (Z.of_nat 0)).
  now rewrite (loop_no_quantum fuel (ordered quantum t0 (p :: s)) 0 p).
Qed.

Lemma RR_no_quantum_never_returns_witness :
  RoundRobin.run 9 0 rr_scenario 0 = OutOfFuel.
Proof.
  apply (RR_no_quantum_never_returns 9 0 0 rr_scenario rr_scenario); [discriminate | reflexivity].
Defined.

Example RR_zero_burst_never_returns (fuel : nat) :
  RoundRobin.run fuel 3 [mkProcess "p1" (new_PCB 0 0 "1" 1)] 0 = OutOfFuel.
Proof.
  unfold RoundRobin.run.
  destruct (start_processing_ordered fuel 3 0 [mkProcess "p1" (new_PCB 0 0 "1" 1)]
              [mkProcess "p1" (new_PCB 0 0 "1" 1)] eq_refl)
    as (_ & _ & ->).
  unfold ordered. rewrite loop_nonpositive_burst; try done.
Qed.

(** ** Partition by declared queue *)

Lemma append_to_Ok (queues queues' : list (list Process)) (i : Z) (p : Process) :
  MLQ.append_to queues i p = Ok queues' ->
  exists (k : nat) (q : list Process),
    py_index queues i = Some k /\ queues !! k = Some q /\
    queues' = <[k := q ++ [p]]> queues.
Proof.
  unfold MLQ.append_to, py_getitem, py_store. intros H.
  destruct (py_index queues i) as [k |]; [| discriminate].
  destruct (queues !! k) as [q |] eqn:Hq; [| discriminate].
  cbn [bind] in H. injection H as <-. eauto.
Qed.






(** ** Clock handoff between the queues *)

Lemma sum_bt_nonneg (q : list Process) :
  Forall (fun p => 0 < get_bt (get_pcb p)) q -> 0 <= sum_bt q.
Proof. induction 1; simpl; lia. Qed.

Lemma wf_queue_sum_nonneg (q : list Process) : wf_queue q -> 0 <= sum_bt q.
Proof.
  intros H. apply sum_bt_nonneg. eapply Forall_impl; [exact H |]. now intros p [_ ?].
Qed.

Lemma fcfs_schedule_bounds (s : list Process) :
  Forall (fun p => 0 < get_bt (get_pcb p)) s ->
  forall t : Z,
    Forall (fun p => t <= get_rt (get_pcb p) /\ get_ct (get_pcb p) <= t + sum_bt s)
           (fcfs_schedule t s).
Proof.
  induction 1 as [| p s Hp Hs IH]; intros t; simpl; [constructor |].
  pose proof (sum_bt_nonneg s Hs) as Hnn.
  constructor.
  - simpl. lia.
  - eapply Forall_impl; [apply (IH (t + get_bt (get_pcb p))) |].
    intros x [? ?]. simpl in *. lia.
Qed.

Lemma RR_on_nonempty (fuel : nat) (quantum t : Z) (q : list Process) :
  0 < quantum -> 0 <= t -> wf_queue q -> sortable q -> sum_bt q <= Z.of_nat fuel ->
  exists q' t',
    on_nonempty (RoundRobin.run fuel quantum) q t = Ok (q', t') /\ t <= t' /\
    Forall (fun p => t <= get_rt (get_pcb p) /\ get_ct (get_pcb p) <= t') q'.
Proof.
  intros HQ Ht Hwf [-> | [s Hs]] Hfuel.
  - exists [], t. simpl. split; [done |]. split; [lia | constructor].
  - destruct (RR_run_total fuel quantum t q s HQ Hwf Hs Hfuel) as (q' & t' & Hrun).
    destruct (RR_run_facts _ _ _ _ _ _ HQ Ht Hwf Hrun) as [Hle Hall].
    exists q', t'. split.
    + destruct (order_queue_nonempty _ _ Hs) as [Hne _]. destruct q; [done |]. exact Hrun.
    + split; [done |]. eapply Forall_impl; [exact Hall |]. intros p (_ & ? & _ & ?). done.
Qed.

Lemma FCFS_on_nonempty (t : Z) (q : list Process) :
  wf_queue q -> sortable q ->
  exists q' t',
    on_nonempty FCFS_executed q t = Ok (q', t') /\
    on_nonempty FCFS.run q t = FCFS_returns q' t' /\
    (times_fit t q -> on_nonempty FCFS.run q t = Ok (q', t')) /\
    t <= t' /\
    Forall (fun p => t <= get_rt (get_pcb p) /\ get_ct (get_pcb p) <= t') q'.
Proof.
  intros Hwf [-> | [s Hs]].
  - exists [], t. simpl. do 3 (split; [done |]). split; [lia | constructor].
  - exists (fcfs_schedule t s), (t + sum_bt q).
    pose proof (wf_queue_sum_nonneg q Hwf).
    pose proof (order_queue_Permutation _ _ Hs) as HP.
    destruct (order_queue_nonempty _ _ Hs) as [Hne _].
    split; [destruct q; [done |]; now apply FCFS_executed_sorted |].
    split; [destruct q; [done |]; now apply FCFS_run_sorted |].
    split; [intros Hfit; destruct q; [done |]; now apply FCFS_run_fits |].
    split; [lia |]. rewrite (sum_bt_Permutation _ _ HP).
    apply fcfs_schedule_bounds. rewrite <- HP.
    eapply Forall_impl; [exact Hwf |]. now intros p [_ ?].
Qed.

Lemma nth_Forall {A : Type} (P : A -> Prop) (l : list A) (d : A) (k : nat) :
  Forall P l -> P d -> P (nth k l d).
Proof.
  intros H Hd. revert k. induction H as [| x l Hx _ IH]; intros [| k]; simpl; auto.
Qed.

(** C8.  The dispatcher started at clock 0 on queues of fresh processes with
    positive BT, with tags the ordering accepts and fuel for each queue's
    total burst: queues 1, 2, 3 run in that order, each engine being started
    at the end time [t1], [t2] the previous one returned (an empty queue
    hands the clock on unchanged), so 0 <= t1 <= t2 <= t3; every process of a
    queue is first dispatched at or after the start time of its queue and
    completes at or before its end time, hence no process of a later queue
    starts before every process of the earlier queues has completed.  The
    dispatcher adopts [t3] when FCFS returns it; FCFS raises OverflowError
    instead, after executing its queue, only on times beyond the float
    range. *)
Theorem MLQ_clock_handoff (fuel : nat) (qs : list (list Process)) :
  Forall wf_queue qs -> Forall sortable qs ->
  Forall (fun q => sum_bt q <= Z.of_nat fuel) qs ->
  exists (q1' q2' q3' : list Process) (t1 t2 t3 : Z),
    on_nonempty (RoundRobin.run fuel 3) (nth 0 qs []) 0 = Ok (q1', t1) /\
    on_nonempty (RoundRobin.run fuel 5) (nth 1 qs []) t1 = Ok (q2', t2) /\
    on_nonempty FCFS_executed (nth 2 qs []) t2 = Ok (q3', t3) /\
    on_nonempty FCFS.run (nth 2 qs []) t2 = FCFS_returns q3' t3 /\
    MLQ.start_processing fuel (MLQ.mk qs 0) =
      (if floats_fit q3'
       then Ok (MLQ.mk (take (length qs) [q1'; q2'; q3'] ++ drop 3 qs) t3)
       else Raise OverflowError) /\
    (times_fit t2 (nth 2 qs []) ->
     MLQ.start_processing fuel (MLQ.mk qs 0) =
       Ok (MLQ.mk (take (length qs) [q1'; q2'; q3'] ++ drop 3 qs) t3)) /\
    0 <= t1 /\ t1 <= t2 /\ t2 <= t3 /\
    Forall (fun p => 0 <= get_rt (get_pcb p) /\ get_ct (get_pcb p) <= t1) q1' /\
    Forall (fun p => t1 <= get_rt (get_pcb p) /\ get_ct (get_pcb p) <= t2) q2' /\
    Forall (fun p => t2 <= get_rt (get_pcb p) /\ get_ct (get_pcb p) <= t3) q3' /\
    (forall p p', p ∈ q1' -> p' ∈ q2' ++ q3' ->
                  get_ct (get_pcb p) <= get_rt (get_pcb p')) /\
    (forall p p', p ∈ q2' -> p' ∈ q3' ->
                  get_ct (get_pcb p) <= get_rt (get_pcb p')).
Proof.
  intros Hwf Hsort Hfuel.
  assert (Hwf0 : wf_queue []) by constructor.
  assert (Hs0 : sortable []) by now left.
  assert (Hf0 : sum_bt [] <= Z.of_nat fuel) by (simpl; lia).
  destruct (RR_on_nonempty fuel 3 0 (nth 0 qs [])) as (q1' & t1 & H1 & Ht1 & Hq1);
    try lia; try (apply nth_Forall; assumption).
  destruct (RR_on_nonempty fuel 5 t1 (nth 1 qs [])) as (q2' & t2 & H2 & Ht2 & Hq2);
    try lia; try (apply nth_Forall; assumption).
  destruct (FCFS_on_nonempty t2 (nth 2 qs []))
    as (q3' & t3 & H3e & H3 & H3f & Ht3 & Hq3);
    try (apply nth_Forall; assumption).
  exists q1', q2', q3', t1, t2, t3.
  do 4 (split; [assumption |]).
  split.
  { rewrite MLQ_start_processing_table, H1. cbn [bind]. rewrite H2. cbn [bind].
    rewrite H3. unfold FCFS_returns. now destruct (floats_fit q3'). }
  split.
  { intros Hfit. rewrite MLQ_start_processing_table, H1. cbn [bind]. rewrite H2.
    cbn [bind]. now rewrite (H3f Hfit). }
  do 3 (split; [assumption |]).
  do 3 (split; [assumption |]).
  rewrite Forall_forall in Hq1, Hq2, Hq3.
  split.
  - intros p p' Hp Hp'. destruct (Hq1 p Hp) as [_ Hc].
    apply elem_of_app in Hp' as [Hp' | Hp'].
    + destruct (Hq2 p' Hp') as [Hr _]. lia.
    + destruct (Hq3 p' Hp') as [Hr _]. lia.
  - intros p p' Hp Hp'. destruct (Hq2 p Hp) as [_ Hc].
    destruct (Hq3 p' Hp') as [Hr _]. lia.
Qed.

Lemma two_queues_wf : Forall wf_queue two_queues.
Proof. repeat constructor; simpl; lia. Defined.

Lemma two_queues_sortable : Forall sortable two_queues.
Proof.
  constructor; [right; eexists; reflexivity |].
  constructor; [right; eexists; reflexivity | constructor].
Defined.

Lemma two_queues_fuel : Forall (fun q => sum_bt q <= Z.of_nat 10) two_queues.
Proof. repeat constructor; simpl; lia. Defined.

Lemma MLQ_clock_handoff_witness :
  exists (q1' q2' q3' : list Process) (t1 t2 t3 : Z),
    on_nonempty (RoundRobin.run 10 3) (nth 0 two_queues []) 0 = Ok (q1', t1) /\
    on_nonempty (RoundRobin.run 10 5) (nth 1 two_queues []) t1 = Ok (q2', t2) /\
    on_nonempty FCFS_executed (nth 2 two_queues []) t2 = Ok (q3', t3) /\
    on_nonempty FCFS.run (nth 2 two_queues []) t2 = FCFS_returns q3' t3 /\
    MLQ.start_processing 10 (MLQ.mk two_queues 0) =
      (if floats_fit q3'
       then Ok (MLQ.mk (take (length two_queues) [q1'; q2'; q3'] ++ drop 3 two_queues) t3)
       else Raise OverflowError) /\
    (times_fit t2 (nth 2 two_queues []) ->
     MLQ.start_processing 10 (MLQ.mk two_queues 0) =
       Ok (MLQ.mk (take (length two_queues) [q1'; q2'; q3'] ++ drop 3 two_queues) t3)) /\
    0 <= t1 /\ t1 <= t2 /\ t2 <= t3 /\
    Forall (fun p => 0 <= get_rt (get_pcb p) /\ get_ct (get_pcb p) <= t1) q1' /\
    Forall (fun p => t1 <= get_rt (get_pcb p) /\ get_ct (get_pcb p) <= t2) q2' /\
    Forall (fun p => t2 <= get_rt (get_pcb p) /\ get_ct (get_pcb p) <= t3) q3' /\
    (forall p p', p ∈ q1' -> p' ∈ q2' ++ q3' ->
                  get_ct (get_pcb p) <= get_rt (get_pcb p')) /\
    (forall p p', p ∈ q2' -> p' ∈ q3' ->
                  get_ct (get_pcb p) <= get_rt (get_pcb p')).
Proof.
  exact (MLQ_clock_handoff 10 two_queues two_queues_wf two_queues_sortable two_queues_fuel).
Defined.

Example MLQ_two_queues_run :
  exists p1 p2,
    MLQ.start_processing 10 (MLQ.mk two_queues 0) = Ok (MLQ.mk [[p1]; [p2]] 12) /\
    get_ct (get_pcb p1) = 10 /\ get_rt (get_pcb p2) = 10 /\ get_ct (get_pcb p2) = 12.
Proof. do 2 eexists. split; [vm_compute; reflexivity |]. repeat split. Qed.

(** ** Construction of the processes *)

Lemma new_Process_Ok (tag priority : string) (a b queue : Z) (p : Process) :
  new_Process tag a b priority queue = Ok p ->
  fresh p /\ 0 < get_bt (get_pcb p).
Proof.
  unfold new_Process. destruct (Z.leb_spec b 0) as [Hle | Hgt]; [discriminate |].
  intros H. injection H as <-. unfold fresh. simpl. lia.
Qed.

Lemma read_line_Ok (line : string) (p : Process) :
  MLQ.read_line line = Ok p -> fresh p /\ 0 < get_bt (get_pcb p).
Proof.
  unfold MLQ.read_line.
  destruct (split_semicolon line) as [| tag [| bt [| a [| queue [| priority [|]]]]]];
    try discriminate.
  intros H. inv_bind H. inv_bind H. inv_bind H. eapply new_Process_Ok, H.
Qed.

Lemma read_lines_Ok (lines : list string) :
  forall (i : Z) (processes processes' : list Process) (max_queues max_queues' : Z),
    MLQ.read_lines i lines processes max_queues = Ok (processes', max_queues') ->
    (wf_queue processes -> wf_queue processes') /\
    forall (j : nat) (line : string),
      lines !! j = Some line -> 2 <= i + Z.of_nat j ->
      exists p, MLQ.read_line line = Ok p /\ 0 < get_bt (get_pcb p).
Proof.
  induction lines as [| l lines IH]; intros i ps ps' m m' H; simpl in H.
  - injection H as <- <-. split; [done |]. intros j line Hj. discriminate.
  - destruct ((i =? 0) || (i =? 1)) eqn:E.
    + destruct (IH _ _ _ _ _ H) as [IH1 IH2]. split; [done |].
      intros [| j] line Hj Hi; simpl in Hj.
      * apply orb_true_iff in E. rewrite !Z.eqb_eq in E. lia.
      * apply (IH2 j line Hj). lia.
    + inv_bind H. destruct (IH _ _ _ _ _ H) as [IH1 IH2].
      pose proof (read_line_Ok _ _ Ha) as Hp. split.
      * intros Hps. apply IH1. apply Forall_app. split; [done |]. now constructor.
      * intros [| j] line Hj Hi; simpl in Hj.
        -- injection Hj as <-. exists a. now split.
        -- apply (IH2 j line Hj). lia.
Qed.

Lemma distribute_wf (processes : list Process) :
  forall queues queues' : list (list Process),
    wf_queue processes -> Forall wf_queue queues ->
    MLQ.distribute processes queues = Ok queues' ->
    Forall wf_queue queues'.
Proof.
  induction processes as [| p ps IH]; intros queues queues' Hps Hqs H; simpl in H.
  - now injection H as <-.
  - inv_bind H. apply append_to_Ok in Ha as (k & q & Hk & Hq & ->).
    apply Forall_cons in Hps as [Hp Hps].
    eapply IH; [exact Hps | | exact H].
    apply Forall_insert; [done |].
    apply Forall_app. split; [| now constructor].
    eapply Forall_lookup_1; eassumption.
Qed.

Lemma init_Ok (lines : list string) (s : MLQ.t) :
  MLQ.init lines = Ok s ->
  MLQ.__time s = 0 /\ Forall wf_queue (MLQ.__queues s) /\
  forall (j : nat) (line : string),
    lines !! j = Some line -> (2 <= j)%nat ->
    exists p, MLQ.read_line line = Ok p /\ 0 < get_bt (get_pcb p).
Proof.
  unfold MLQ.init, MLQ.__read_file. intros H. inv_bind H. injection H as <-.
  inv_bind Ha. destruct a0 as [ps m].
  destruct (read_lines_Ok _ _ _ _ _ _ Ha0) as [H1 H2].
  split; [reflexivity |]. split.
  - eapply distribute_wf; [apply H1; constructor | | exact Ha].
    apply Forall_fmap, Forall_forall. intros x _. constructor.
  - intros j line Hj Hge. apply (H2 j line Hj). lia.
Qed.

Lemma on_nonempty_terminated (run : list Process -> Z -> result (list Process * Z))
  (q : list Process) (t : Z) :
  terminated (run q t) -> terminated (on_nonempty run q t).
Proof. destruct q; simpl; done. Qed.

Lemma MLQ_start_processing_terminated (fuel : nat) (qs : list (list Process)) (t0 : Z) :
  Forall wf_queue qs ->
  Forall (fun q => sum_bt q <= Z.of_nat fuel) qs ->
  terminated (MLQ.start_processing fuel (MLQ.mk qs t0)).
Proof.
  intros Hwf Hfuel.
  assert (Hwf0 : wf_queue []) by constructor.
  assert (Hf0 : sum_bt [] <= Z.of_nat fuel) by (simpl; lia).
  rewrite MLQ_start_processing_table.
  pose proof (on_nonempty_terminated (RoundRobin.run fuel 3) (nth 0 qs []) t0) as H1.
  destruct (on_nonempty (RoundRobin.run fuel 3) (nth 0 qs []) t0) as [[q1' t1] | e |];
    cbn [bind]; try done.
  2:{ apply H1, RR_run_terminated; try lia; now apply nth_Forall. }
  pose proof (on_nonempty_terminated (RoundRobin.run fuel 5) (nth 1 qs []) t1) as H2.
  destruct (on_nonempty (RoundRobin.run fuel 5) (nth 1 qs []) t1) as [[q2' t2] | e |];
    cbn [bind]; try done.
  2:{ apply H2, RR_run_terminated; try lia; now apply nth_Forall. }
  pose proof (on_nonempty_terminated FCFS.run (nth 2 qs []) t2) as H3.
  destruct (on_nonempty FCFS.run (nth 2 qs []) t2) as [[q3' t3] | e |];
    cbn [bind]; try done.
  apply H3, FCFS_run_terminated.
Qed.

(** C5.  With the constructor of the specification, which rejects a burst
    time that is not positive: when the dispatcher has been built from the
    lines of a file, every line after the two headers constructed a process
    with BT > 0, every process of every queue is fresh with BT > 0, and the
    dispatcher run with fuel for each queue's total burst stops (it returns
    or raises): no engine receives a BT that is not positive and none loops
    forever. *)
Theorem nonpositive_burst_rejected (lines : list string) (s : MLQ.t) (fuel : nat) :
  MLQ.init lines = Ok s ->
  (forall (tag priority : string) (a b queue : Z),
     b <= 0 -> new_Process tag a b priority queue = Raise NonTerminatingProcess) /\
  (forall (j : nat) (line : string),
     lines !! j = Some line -> (2 <= j)%nat ->
     exists p, MLQ.read_line line = Ok p /\ 0 < get_bt (get_pcb p)) /\
  Forall (Forall (fun p => fresh p /\ 0 < get_bt (get_pcb p))) (MLQ.__queues s) /\
  (Forall (fun q => sum_bt q <= Z.of_nat fuel) (MLQ.__queues s) ->
   terminated (MLQ.start_processing fuel s)).
Proof.
  intros H. destruct (init_Ok lines s H) as (Ht & Hwf & Hlines).
  split.
  { intros tag priority a b queue Hb. unfold new_Process.
    destruct (Z.leb_spec b 0); [reflexivity | lia]. }
  split; [exact Hlines |]. split; [exact Hwf |].
  intros Hfuel. destruct s as [qs t]. now apply MLQ_start_processing_terminated.
Qed.

Lemma sample_init : MLQ.init sample_lines = Ok sample_state.
Proof. vm_compute. reflexivity. Defined.

Lemma sample_run : MLQ.start_processing 10 sample_state = Ok sample_done.
Proof. vm_compute. reflexivity. Defined.

Lemma nonpositive_burst_rejected_witness :
  (forall (tag priority : string) (a b queue : Z),
     b <= 0 -> new_Process tag a b priority queue = Raise NonTerminatingProcess) /\
  (forall (j : nat) (line : string),
     sample_lines !! j = Some line -> (2 <= j)%nat ->
     exists p, MLQ.read_line line = Ok p /\ 0 < get_bt (get_pcb p)) /\
  Forall (Forall (fun p => fresh p /\ 0 < get_bt (get_pcb p))) (MLQ.__queues sample_state) /\
  (Forall (fun q => sum_bt q <= Z.of_nat 10) (MLQ.__queues sample_state) ->
   terminated (MLQ.start_processing 10 sample_state)).
Proof.
  exact (nonpositive_burst_rejected sample_lines sample_state 10 sample_init).
Defined.

(** A line declaring BT = 0 stops the construction of the dispatcher. *)
Example zero_burst_line_rejected :
  MLQ.init ["# file"; "# tag; BT; AT; Q; Pr"; "p1;0;0;1;5"]%string
  = Raise NonTerminatingProcess.
Proof. vm_compute. reflexivity. Qed.

(** ** Round Robin: further properties *)

Lemma sum_te_insert (q : list Process) (i : nat) (p p' : Process) :
  q !! i = Some p ->
  sum_te (<[i := p']> q) = sum_te q - get_te (get_pcb p) + get_te (get_pcb p').
Proof.
  revert i. induction q as [| x q IH]; intros [| i] H; try discriminate; simpl in *.
  - injection H as ->. lia.
  - rewrite (IH _ H). lia.
Qed.

Lemma sum_te_fresh (q : list Process) : Forall fresh q -> sum_te q = 0.
Proof. induction 1 as [| p q (Hte & _) _ IH]; simpl; lia. Qed.

Lemma sum_te_finished (q : list Process) :
  Forall live q -> Forall finished q -> sum_te q = sum_bt q.
Proof.
  induction 1 as [| p q (_ & _ & Hp) _ IH]; intros Hf; [done |].
  apply Forall_cons in Hf as [Hd Hf]. unfold finished in Hd. rewrite Hd in Hp.
  simpl. rewrite IH by done. lia.
Qed.

Lemma sum_bt_descriptor (q q' : list Process) :
  map descriptor q = map descriptor q' -> sum_bt q = sum_bt q'.
Proof.
  revert q'. induction q as [| p q IH]; intros [| p' q'] H; try discriminate; [done |].
  simpl in H. injection H as Htag Hat Hbt H. simpl. rewrite (IH _ H). lia.
Qed.

(** X1.  A burst time that is not positive is never used up: with a
    positive quantum, the run of a queue holding one fresh process with
    BT <= 0 preempts it at every slice and chooses it again, and does not
    return, whatever the fuel. *)
Theorem RR_nonpositive_burst_never_returns (fuel : nat) (quantum t0 : Z) (p : Process) :
  0 < quantum ->
  fresh p -> get_bt (get_pcb p) <= 0 ->
  order_queue [p] = Ok [p] ->
  RoundRobin.run fuel quantum [p] t0 = OutOfFuel.
Proof.
  intros HQ (Hte & _ & Hd) Hbt Hs. unfold RoundRobin.run.
  destruct (start_processing_ordered fuel quantum t0 [p] [p] Hs) as (_ & _ & ->).
  unfold ordered. rewrite loop_nonpositive_burst; try done; lia.
Qed.

Lemma RR_nonpositive_burst_never_returns_witness :
  RoundRobin.run 7 3 [zero_burst] 0 = OutOfFuel.
Proof.
  apply RR_nonpositive_burst_never_returns;
    [reflexivity | repeat split; discriminate || reflexivity | discriminate | reflexivity].
Defined.

(** X3.  Round Robin terminates and wastes no tick: with a positive quantum,
    on fresh processes with positive BT whose tags the ordering accepts, fuel
    for the total burst time is enough; the run returns the start time plus
    the total burst time, and leaves every process done with TE = BT and its
    tag, AT and BT as they were. *)
Theorem RR_work_conserving (fuel : nat) (quantum t0 : Z) (q s : list Process) :
  0 < quantum ->
  Forall (fun p => fresh p /\ 0 < get_bt (get_pcb p)) q ->
  order_queue q = Ok s ->
  sum_bt q <= Z.of_nat fuel ->
  exists q',
    RoundRobin.run fuel quantum q t0 = Ok (q', t0 + sum_bt q) /\
    map descriptor q' = map descriptor s /\
    Forall (fun p => is_done (get_pcb p) = true /\
                     get_te (get_pcb p) = get_bt (get_pcb p)) q'.
Proof.
  intros HQ Hq Hs Hfuel.
  destruct (RR_run_total fuel quantum t0 q s HQ Hq Hs Hfuel) as (q' & t' & Hrun).
  destruct (RR_run_rtc _ _ _ _ _ _ Hrun) as (s1 & sf & Hs1 & Hrtc & <- & <-).
  assert (s1 = s) by congruence. subst s1.
  pose proof (ordered_inv quantum t0 q s HQ Hq Hs) as Hinv0.
  pose proof (order_queue_Permutation _ _ Hs) as HP.
  destruct (rr_invariant
              (fun st => RoundRobin.__time st = t0 + sum_te (RoundRobin.__queue st) /\
                         map descriptor (RoundRobin.__queue st) = map descriptor s))
    with (x := (ordered quantum t0 s, Some 0)) (y := (sf, @None Z))
    as [(_ & _ & Hlive & Hdone) [Htime Hdesc]]; try done.
  - intros st i p (HQs & _ & Hl & _) [Ht Hd] Hp Hnd. cbn [fst snd] in *.
    assert (Hlp : live p) by (eapply Forall_lookup_1; eassumption).
    pose proof (dispatched_facts _ (RoundRobin.__time st) p HQs Hlp Hnd)
      as (_ & _ & Htag & Hat & Hbt & Hte & _).
    cbv zeta in *. cbn [after_dispatch RoundRobin.__time RoundRobin.__queue]. split.
    + rewrite (sum_te_insert _ _ _ _ Hp), Hte. lia.
    + rewrite <- Hd. rewrite list_fmap_insert.
      apply list_insert_id. rewrite list_lookup_fmap, Hp. simpl.
      unfold descriptor. now rewrite Htag, Hat, Hbt.
  - simpl. split; [| reflexivity]. rewrite sum_te_fresh; [lia |].
    rewrite <- HP. eapply Forall_impl; [exact Hq |]. now intros p [? _].
  - cbn [fst snd] in *. exists (RoundRobin.__queue sf).
    split.
    + rewrite Hrun. f_equal. f_equal. rewrite Htime.
      rewrite (sum_te_finished _ Hlive Hdone).
      rewrite (sum_bt_descriptor _ _ Hdesc).
      now rewrite (sum_bt_Permutation _ _ HP).
    + split; [exact Hdesc |].
      rewrite Forall_forall in Hlive, Hdone |- *. intros p Hp.
      pose proof (Hdone p Hp) as Hd. destruct (Hlive p Hp) as (_ & _ & Hl).
      unfold finished in Hd. rewrite Hd in Hl. done.
Qed.

Lemma RR_work_conserving_witness :
  exists q',
    RoundRobin.run 8 2 rr_scenario 0 = Ok (q', 0 + sum_bt rr_scenario) /\
    map descriptor q' = map descriptor rr_scenario /\
    Forall (fun p => is_done (get_pcb p) = true /\
                     get_te (get_pcb p) = get_bt (get_pcb p)) q'.
Proof.
  apply (RR_work_conserving 8 2 0 rr_scenario rr_scenario eq_refl rr_scenario_fresh eq_refl).
  discriminate.
Defined.

(** X4.  The data model's identities hold for every process either engine
    has run: WT = CT - AT - BT and TAT = CT - AT, under FCFS from any start
    time and under Round Robin with a positive quantum on fresh processes
    with positive BT.  FCFS answers with the queue it has executed, or with
    the OverflowError of [_calculate_metrics] on times beyond the float
    range. *)
Theorem waiting_and_turnaround (q s : list Process) (t0 : Z) :
  order_queue q = Ok s ->
  (exists qf tf,
     FCFS_executed q t0 = Ok (qf, tf) /\
     FCFS.run q t0 = FCFS_returns qf tf /\
     Forall (fun p =>
               get_wt (get_pcb p)
                 = get_ct (get_pcb p) - get_at (get_pcb p) - get_bt (get_pcb p) /\
               get_tat (get_pcb p) = get_ct (get_pcb p) - get_at (get_pcb p)) qf) /\
  (forall (fuel : nat) (quantum : Z),
     0 < quantum ->
     Forall (fun p => fresh p /\ 0 < get_bt (get_pcb p)) q ->
     sum_bt q <= Z.of_nat fuel ->
     exists qr tr,
       RoundRobin.run fuel quantum q t0 = Ok (qr, tr) /\
       Forall (fun p =>
                 get_wt (get_pcb p)
                   = get_ct (get_pcb p) - get_at (get_pcb p) - get_bt (get_pcb p) /\
                 get_tat (get_pcb p) = get_ct (get_pcb p) - get_at (get_pcb p)) qr).
Proof.
  intros Hs. split.
  - exists (fcfs_schedule t0 s), (t0 + sum_bt q).
    split; [now apply FCFS_executed_sorted |].
    split; [now apply FCFS_run_sorted |].
    apply Forall_lookup. intros i p' Hp'.
    assert (Hi : (i < length s)%nat)
      by (rewrite <- (fcfs_schedule_length t0); eapply lookup_lt_Some, Hp').
    destruct (lookup_lt_is_Some_2 s i Hi) as [p Hp].
    rewrite (fcfs_schedule_lookup t0 s i p Hp) in Hp'. injection Hp' as <-.
    simpl. lia.
  - intros fuel quantum HQ Hq Hfuel.
    destruct (RR_run_total fuel quantum t0 q s HQ Hq Hs Hfuel) as (q' & t' & Hrun).
    exists q', t'. split; [exact Hrun |].
    destruct (RR_run_rtc _ _ _ _ _ _ Hrun) as (s1 & sf & Hs1 & Hrtc & <- & <-).
    assert (s1 = s) by congruence. subst s1.
    pose proof (ordered_inv quantum t0 q s HQ Hq Hs) as Hinv0.
    destruct (rr_invariant
                (fun st =>
                   Forall (fun p =>
                             is_done (get_pcb p) = true ->
                             get_wt (get_pcb p)
                               = get_ct (get_pcb p) - get_at (get_pcb p)
                                 - get_bt (get_pcb p) /\
                             get_tat (get_pcb p)
                               = get_ct (get_pcb p) - get_at (get_pcb p))
                          (RoundRobin.__queue st)))
      with (x := (ordered quantum t0 s, Some 0)) (y := (sf, @None Z))
      as [(_ & _ & _ & Hdone) Hall]; try done.
    + intros st i p (HQs & _ & Hl & _) HP Hp Hnd. cbn [fst snd] in *.
      assert (Hlp : live p) by (eapply Forall_lookup_1; eassumption).
      pose proof (dispatched_facts _ (RoundRobin.__time st) p HQs Hlp Hnd)
        as (_ & _ & _ & Hat & Hbt & _ & _ & _ & _ & _ & Hct).
      cbv zeta in *. cbn [after_dispatch RoundRobin.__queue].
      apply Forall_insert; [exact HP |].
      intros Hd. destruct (Hct Hd) as (_ & Hwt & Htat). rewrite Hat, Hbt. done.
    + simpl. rewrite <- (order_queue_Permutation _ _ Hs).
      eapply Forall_impl; [exact Hq |]. intros p [(_ & _ & Hd) _] Hd'. congruence.
    + cbn [fst snd] in *. rewrite Forall_forall in Hdone, Hall |- *.
      intros p Hp. apply (Hall p Hp), (Hdone p Hp).
Qed.

Lemma waiting_and_turnaround_witness :
  (exists qf tf,
     FCFS_executed rr_scenario 0 = Ok (qf, tf) /\
     FCFS.run rr_scenario 0 = FCFS_returns qf tf /\
     Forall (fun p =>
               get_wt (get_pcb p)
                 = get_ct (get_pcb p) - get_at (get_pcb p) - get_bt (get_pcb p) /\
               get_tat (get_pcb p) = get_ct (get_pcb p) - get_at (get_pcb p)) qf) /\
  (forall (fuel : nat) (quantum : Z),
     0 < quantum ->
     Forall (fun p => fresh p /\ 0 < get_bt (get_pcb p)) rr_scenario ->
     sum_bt rr_scenario <= Z.of_nat fuel ->
     exists qr tr,
       RoundRobin.run fuel quantum rr_scenario 0 = Ok (qr, tr) /\
       Forall (fun p =>
                 get_wt (get_pcb p)
                   = get_ct (get_pcb p) - get_at (get_pcb p) - get_bt (get_pcb p) /\
                 get_tat (get_pcb p) = get_ct (get_pcb p) - get_at (get_pcb p)) qr).
Proof.
  exact (waiting_and_turnaround rr_scenario rr_scenario 0 eq_refl).
Defined.

(** ** Round Robin: the circular scan *)

Lemma scan_front_first (q : list Process) (k0 j : Z) :
  RoundRobin.scan_front q k0 = Some j ->
  exists (i : nat) (p : Process),
    j = k0 + Z.of_nat i /\ q !! i = Some p /\ is_done (get_pcb p) = false /\
    forall (m : nat) (p' : Process),
      (m < i)%nat -> q !! m = Some p' -> is_done (get_pcb p') = true.
Proof.
  revert k0. induction q as [| x q IH]; intros k0 H; [discriminate |].
  simpl in H. destruct (is_done (get_pcb x)) eqn:E; simpl in H.
  - destruct (IH _ H) as (i & p & -> & Hp & Hd & Hbefore).
    exists (S i), p. split; [lia |]. split; [done |]. split; [done |].
    intros [| m] p' Hm Hp'; simpl in Hp'.
    + now injection Hp' as <-.
    + apply (Hbefore m p'); [lia | done].
  - injection H as <-. exists O, x. split; [lia |]. split; [done |]. split; [done |].
    intros m p' Hm. lia.
Qed.

(** The circular scan finds the first process not done after position [k],
    going round to the front when there is none up to the end. *)
Lemma circular_next_cases (q : list Process) (k : nat) :
  match circular_next q k with
  | Some j =>
      exists (i : nat) (p : Process),
        j = Z.of_nat i /\ q !! i = Some p /\ is_done (get_pcb p) = false /\
        (((k < i)%nat /\
          forall m p', (k < m < i)%nat -> q !! m = Some p' -> finished p') \/
         ((i <= k)%nat /\
          (forall m p', (k < m)%nat -> q !! m = Some p' -> finished p') /\
          (forall m p', (m < i)%nat -> q !! m = Some p' -> finished p')))
  | None => Forall finished q
  end.
Proof.
  unfold circular_next.
  destruct (RoundRobin.scan_front (drop (S k) q) (Z.of_nat (S k))) as [j |] eqn:E.
  - apply scan_front_first in E as (i & p & -> & Hp & Hd & Hbefore).
    rewrite lookup_drop in Hp. exists (S k + i)%nat, p.
    split; [lia |]. split; [done |]. split; [done |]. left. split; [lia |].
    intros m p' Hm Hp'. apply (Hbefore (m - S k)%nat p'); [lia |].
    rewrite lookup_drop. now replace (S k + (m - S k))%nat with m by lia.
  - pose proof (scan_front_None _ _ E) as Hafter.
    assert (Hafter' : forall m p', (k < m)%nat -> q !! m = Some p' -> finished p').
    { intros m p' Hm Hp'. rewrite Forall_lookup in Hafter.
      apply (Hafter (m - S k)%nat p').
      rewrite lookup_drop. now replace (S k + (m - S k))%nat with m by lia. }
    destruct (RoundRobin.scan_front q 0) as [j |] eqn:E'.
    + apply scan_front_first in E' as (i & p & -> & Hp & Hd & Hbefore).
      exists i, p. split; [lia |]. split; [done |]. split; [done |]. right.
      split; [| split; [exact Hafter' | exact Hbefore]].
      destruct (Nat.le_gt_cases i k) as [? | Hgt]; [done |]. exfalso.
      pose proof (Hafter' i p Hgt Hp) as Hfin. unfold finished in Hfin. congruence.
    + eapply scan_front_None, E'.
Qed.

(** X5.  [__next_process] is a circular scan.  At the start time it returns
    the head of the queue whatever its done flag (and None on an empty
    queue).  Once the clock has left the start time, with [k] the position of
    the process last dispatched, it returns the first process not done among
    the positions k+1, ..., n-1, 0, ..., k in that order (every position
    before it in that order holds a done process), and None exactly when
    every process is done; it never raises. *)
Theorem next_process_circular (s : RoundRobin.t) (k : nat) :
  RoundRobin.__current_process_index s = Z.of_nat k ->
  (RoundRobin.__time s = RoundRobin.__initial_time s ->
   RoundRobin.__next_process s =
   Ok (match RoundRobin.__queue s with [] => None | _ :: _ => Some 0 end)) /\
  (RoundRobin.__time s <> RoundRobin.__initial_time s ->
   (exists (i : nat) (p : Process),
      RoundRobin.__next_process s = Ok (Some (Z.of_nat i)) /\
      RoundRobin.__queue s !! i = Some p /\ is_done (get_pcb p) = false /\
      forall (m : nat) (p' : Process),
        RoundRobin.__queue s !! m = Some p' ->
        (k < m < i)%nat \/ ((i <= k)%nat /\ ((k < m)%nat \/ (m < i)%nat)) ->
        is_done (get_pcb p') = true) \/
   (RoundRobin.__next_process s = Ok None /\
    Forall (fun p => is_done (get_pcb p) = true) (RoundRobin.__queue s))).
Proof.
  intros Hk. split.
  - intros Ht. unfold RoundRobin.__next_process. rewrite Ht, Z.eqb_refl.
    destruct (RoundRobin.__queue s); reflexivity.
  - intros Ht. rewrite (next_process_spec s k Ht Hk).
    pose proof (circular_next_cases (RoundRobin.__queue s) k) as Hc.
    destruct (circular_next (RoundRobin.__queue s) k) as [j |].
    + left. destruct Hc as (i & p & -> & Hp & Hd & Hcases). exists i, p.
      split; [reflexivity |]. split; [done |]. split; [done |].
      intros m p' Hm Hpos.
      destruct Hcases as [[Hki Hbetween] | (Hik & Hafter & Hbefore)].
      * destruct Hpos as [Hb | [Hik _]]; [| lia]. now apply (Hbetween m p').
      * destruct Hpos as [Hb | [_ [Hgt | Hlt]]]; [lia | |].
        -- now apply (Hafter m p').
        -- now apply (Hbefore m p').
    + right. split; [reflexivity | exact Hc].
Qed.

Lemma next_process_circular_witness :
  (RoundRobin.__time rr_preempted = RoundRobin.__initial_time rr_preempted ->
   RoundRobin.__next_process rr_preempted =
   Ok (match RoundRobin.__queue rr_preempted with [] => None | _ :: _ => Some 0 end)) /\
  (RoundRobin.__time rr_preempted <> RoundRobin.__initial_time rr_preempted ->
   (exists (i : nat) (p : Process),
      RoundRobin.__next_process rr_preempted = Ok (Some (Z.of_nat i)) /\
      RoundRobin.__queue rr_preempted !! i = Some p /\ is_done (get_pcb p) = false /\
      forall (m : nat) (p' : Process),
        RoundRobin.__queue rr_preempted !! m = Some p' ->
        (0 < m < i)%nat \/ ((i <= 0)%nat /\ ((0 < m)%nat \/ (m < i)%nat)) ->
        is_done (get_pcb p') = true) \/
   (RoundRobin.__next_process rr_preempted = Ok None /\
    Forall (fun p => is_done (get_pcb p) = true) (RoundRobin.__queue rr_preempted))).
Proof.
  exact (next_process_circular rr_preempted 0 eq_refl).
Defined.

(** ** Round Robin: the first pass *)

(** An invariant of the loop that also speaks of the process chosen next. *)
Lemma rr_pair_invariant (I : RoundRobin.t * option Z -> Prop) :
  (forall (s : RoundRobin.t) (i : nat) (p : Process),
     rr_inv (s, Some (Z.of_nat i)) -> I (s, Some (Z.of_nat i)) ->
     RoundRobin.__queue s !! i = Some p -> is_done (get_pcb p) = false ->
     I (after_dispatch s i p,
        circular_next (RoundRobin.__queue (after_dispatch s i p)) i)) ->
  forall x y, rtc rr_step x y -> rr_inv x -> I x -> rr_inv y /\ I y.
Proof.
  intros Hstep x y Hrtc. induction Hrtc as [x | x y z Hxy _ IH]; intros Hinv HI; [done |].
  apply IH; [eapply rr_inv_step; eassumption |].
  destruct x as [s [j |]]; [| inversion Hxy].
  destruct (rr_step_inv _ _ _ Hinv Hxy) as (i & p & -> & Hp & _ & Hd & ->).
  now apply Hstep.
Qed.

Lemma circular_next_succ (q : list Process) (k : nat) (p : Process) :
  q !! S k = Some p -> is_done (get_pcb p) = false ->
  circular_next q k = Some (Z.of_nat (S k)).
Proof.
  intros Hp Hd. unfold circular_next. rewrite (drop_S _ _ _ Hp).
  cbn [RoundRobin.scan_front]. now rewrite Hd.
Qed.

Lemma slice_len_fresh (quantum : Z) (p : Process) :
  0 < quantum -> fresh p -> 0 < get_bt (get_pcb p) ->
  slice_len quantum p = Z.min quantum (get_bt (get_pcb p)).
Proof.
  intros HQ (Hte & _ & _) Hbt. unfold slice_len, finishes. rewrite Hte, Z.sub_0_r.
  destruct (Z.leb_spec 1 (get_bt (get_pcb p))); [| lia].
  destruct (Z.leb_spec (get_bt (get_pcb p)) quantum); simpl; lia.
Qed.

Lemma first_slices_snoc (quantum : Z) (q : list Process) (p : Process) :
  first_slices quantum (q ++ [p])
  = first_slices quantum q + Z.min quantum (get_bt (get_pcb p)).
Proof. induction q as [| x q IH]; simpl; [lia |]. rewrite IH. lia. Qed.

Lemma first_slices_nonneg (quantum : Z) (q : list Process) :
  0 < quantum -> Forall (fun p => 0 < get_bt (get_pcb p)) q ->
  0 <= first_slices quantum q.
Proof. intros HQ. induction 1 as [| p q Hp _ IH]; simpl; lia. Qed.

Lemma descriptor_lookup_bt (q s : list Process) (i : nat) (p x : Process) :
  map descriptor q = map descriptor s ->
  q !! i = Some p -> s !! i = Some x -> get_bt (get_pcb p) = get_bt (get_pcb x).
Proof.
  intros Hd Hp Hx.
  assert (H : map descriptor q !! i = Some (descriptor x)).
  { rewrite Hd, list_lookup_fmap, Hx. reflexivity. }
  rewrite list_lookup_fmap, Hp in H. simpl in H. unfold descriptor in H. congruence.
Qed.

(** The first pass dispatches the ordered queue front to back, and later
    passes leave the response times alone. *)
Lemma RR_run_response (fuel : nat) (quantum t0 : Z) (q s : list Process) :
  0 < quantum -> 0 <= t0 ->
  Forall (fun p => fresh p /\ 0 < get_bt (get_pcb p)) q ->
  order_queue q = Ok s ->
  sum_bt q <= Z.of_nat fuel ->
  exists q' t',
    RoundRobin.run fuel quantum q t0 = Ok (q', t') /\
    map descriptor q' = map descriptor s /\
    forall (i : nat) (p : Process),
      q' !! i = Some p ->
      get_rt (get_pcb p) = t0 + first_slices quantum (take i s).
Proof.
  intros HQ H0 Hq Hs Hfuel.
  destruct (RR_run_total fuel quantum t0 q s HQ Hq Hs Hfuel) as (q' & t' & Hrun).
  destruct (RR_run_rtc _ _ _ _ _ _ Hrun) as (s1 & sf & Hs1 & Hrtc & <- & <-).
  assert (s1 = s) by congruence. subst s1.
  pose proof (ordered_inv quantum t0 q s HQ Hq Hs) as Hinv0.
  pose proof (order_queue_Permutation _ _ Hs) as HP.
  assert (Hwf : Forall (fun p => fresh p /\ 0 < get_bt (get_pcb p)) s) by now rewrite <- HP.
  assert (Hbt : Forall (fun p => 0 < get_bt (get_pcb p)) s).
  { eapply Forall_impl; [exact Hwf |]. now intros p [_ ?]. }
  assert (Hpos : forall i, 0 <= first_slices quantum (take i s)).
  { intros i. apply first_slices_nonneg; [done |]. now apply Forall_take. }
  destruct (rr_pair_invariant
    (fun x =>
       RoundRobin.__quantum (fst x) = quantum /\
       map descriptor (RoundRobin.__queue (fst x)) = map descriptor s /\
       exists k : nat,
         (forall i p, (i < k)%nat -> RoundRobin.__queue (fst x) !! i = Some p ->
                      get_rt (get_pcb p) = t0 + first_slices quantum (take i s)) /\
         (forall i p, (k <= i)%nat -> RoundRobin.__queue (fst x) !! i = Some p ->
                      fresh p) /\
         ((k < length s)%nat ->
          snd x = Some (Z.of_nat k) /\
          RoundRobin.__time (fst x) = t0 + first_slices quantum (take k s))))
    with (x := (ordered quantum t0 s, Some 0)) (y := (sf, @None Z))
    as [_ (_ & Hdesc & k & Hrt & _ & Hk)]; try done.
  - intros st i p (HQs & _ & Hl & _) (HQe & Hd & k & Hrt & Hfresh & Hk) Hp Hnd.
    cbn [fst snd] in *.
    assert (Hlp : live p) by (eapply Forall_lookup_1; eassumption).
    pose proof (dispatched_facts _ (RoundRobin.__time st) p HQs Hlp Hnd)
      as (_ & _ & Htag & Hat & Hbtp & _ & _ & _ & _ & Hrtp & _).
    cbv zeta in *. cbn [after_dispatch RoundRobin.__time RoundRobin.__queue
                        RoundRobin.__quantum].
    assert (Hlen : length (RoundRobin.__queue st) = length s).
    { rewrite <- (length_map descriptor), Hd. apply length_map. }
    assert (Hi : (i < length s)%nat).
    { rewrite <- Hlen. eapply lookup_lt_Some, Hp. }
    split; [done |]. split.
    { rewrite <- Hd. rewrite list_fmap_insert.
      apply list_insert_id. rewrite list_lookup_fmap, Hp. simpl.
      unfold descriptor. now rewrite Htag, Hat, Hbtp. }
    destruct (lt_dec k (length s)) as [Hlt | Hge].
    + destruct (Hk Hlt) as [Hik Htime].
      assert (i = k) by (injection Hik; lia). subst i.
      pose proof (Hfresh k p (Nat.le_refl k) Hp) as Hfp.
      destruct (lookup_lt_is_Some_2 s k Hlt) as [x Hx].
      exists (S k). split; [| split].
      * intros i p' Hi' Hp'. destruct (decide (i = k)) as [-> | Hne].
        -- rewrite list_lookup_insert_eq in Hp' by (eapply lookup_lt_Some, Hp).
           injection Hp' as <-. rewrite Hrtp.
           destruct Hfp as (_ & Hneg & _).
           destruct (Z.ltb_spec (get_rt (get_pcb p)) 0); [done | lia].
        -- rewrite list_lookup_insert_ne in Hp' by done.
           apply (Hrt i p'); [lia | done].
      * intros i p' Hi' Hp'. rewrite list_lookup_insert_ne in Hp' by lia.
        apply (Hfresh i p'); [lia | done].
      * intros HS.
        assert (HSq : (S k < length (RoundRobin.__queue st))%nat) by lia.
        destruct (lookup_lt_is_Some_2 _ _ HSq) as [p2 Hp2].
        split.
        -- f_equal. apply (circular_next_succ _ k p2).
           ++ now rewrite list_lookup_insert_ne by lia.
           ++ now destruct (Hfresh (S k) p2 (Nat.le_succ_diag_r k) Hp2) as (_ & _ & ?).
        -- rewrite (take_S_r _ _ _ Hx), first_slices_snoc, Htime, HQe.
           rewrite slice_len_fresh; [| done | done | now destruct Hlp].
           rewrite (descriptor_lookup_bt _ _ _ _ _ Hd Hp Hx). lia.
    + exists k. split; [| split].
      * intros i' p' Hi' Hp'. destruct (decide (i' = i)) as [-> | Hne].
        -- rewrite list_lookup_insert_eq in Hp' by (eapply lookup_lt_Some, Hp).
           injection Hp' as <-. rewrite Hrtp.
           pose proof (Hrt i p Hi' Hp) as Hrti. pose proof (Hpos i).
           destruct (Z.ltb_spec (get_rt (get_pcb p)) 0); [lia | done].
        -- rewrite list_lookup_insert_ne in Hp' by done. now apply (Hrt i' p').
      * intros i' p' Hi' Hp'. rewrite list_lookup_insert_ne in Hp' by lia.
        now apply (Hfresh i' p').
      * intros Hlt. lia.
  - cbn [fst snd ordered RoundRobin.__quantum RoundRobin.__queue RoundRobin.__time].
    split; [done |]. split; [done |]. exists O. split; [| split].
    + intros i p Hi. lia.
    + intros i p _ Hp. rewrite Forall_lookup in Hwf. now destruct (Hwf i p Hp).
    + intros _. split; [reflexivity |]. simpl. lia.
  - cbn [fst snd] in *. exists (RoundRobin.__queue sf), (RoundRobin.__time sf).
    split; [exact Hrun |]. split; [exact Hdesc |].
    intros i p Hp.
    assert (Hlen : length (RoundRobin.__queue sf) = length s).
    { rewrite <- (length_map descriptor), Hdesc. apply length_map. }
    destruct (lt_dec k (length s)) as [Hlt | Hge].
    + destruct (Hk Hlt) as [Hik _]. discriminate.
    + apply (Hrt i p); [| done]. apply lookup_lt_Some in Hp. lia.
Qed.

(** X6.  The response times of Round Robin.  With a positive quantum, from a
    start time that is not negative, on fresh processes with positive BT, the
    first pass dispatches the ordered queue front to back, so the process at
    position [i] of the ordered queue ends with
    RT = t0 + sum over the processes before it of min(quantum, BT);
    later passes leave that RT alone. *)
Theorem RR_response_time (fuel : nat) (quantum t0 : Z) (q s : list Process) :
  0 < quantum -> 0 <= t0 ->
  Forall (fun p => fresh p /\ 0 < get_bt (get_pcb p)) q ->
  order_queue q = Ok s ->
  sum_bt q <= Z.of_nat fuel ->
  exists q' t',
    RoundRobin.run fuel quantum q t0 = Ok (q', t') /\
    map descriptor q' = map descriptor s /\
    forall (i : nat) (p : Process),
      q' !! i = Some p ->
      get_rt (get_pcb p) = t0 + first_slices quantum (take i s).
Proof.
  intros HQ H0 Hq Hs Hfuel. now apply RR_run_response.
Qed.

Lemma RR_response_time_witness :
  exists q' t',
    RoundRobin.run 8 2 rr_scenario 0 = Ok (q', t') /\
    map descriptor q' = map descriptor rr_scenario /\
    forall (i : nat) (p : Process),
      q' !! i = Some p ->
      get_rt (get_pcb p) = 0 + first_slices 2 (take i rr_scenario).
Proof.
  apply (RR_response_time 8 2 0 rr_scenario rr_scenario eq_refl);
    [discriminate | exact rr_scenario_fresh | reflexivity | discriminate].
Defined.

(** ** The dispatcher: the partition into queues *)

Lemma py_index_length {A B : Type} (l : list A) (l' : list B) (i : Z) :
  length l = length l' -> py_index l i = py_index l' i.
Proof. intros H. unfold py_index. now rewrite H. Qed.

Lemma py_index_lt {A : Type} (l : list A) (i : Z) (k : nat) :
  py_index l i = Some k -> (k < length l)%nat.
Proof.
  unfold py_index. intros H.
  destruct ((0 <=? i) && (i <? Z.of_nat (length l))) eqn:E.
  - injection H as <-. apply andb_true_iff in E as [E1 E2].
    apply Z.leb_le in E1. apply Z.ltb_lt in E2. lia.
  - destruct ((- Z.of_nat (length l) <=? i) && (i <? 0)) eqn:E'; [| discriminate].
    injection H as <-. apply andb_true_iff in E' as [E1 E2].
    apply Z.leb_le in E1. apply Z.ltb_lt in E2. lia.
Qed.

Lemma py_index_cases {A : Type} (l : list A) (i : Z) (k : nat) :
  py_index l i = Some k <->
  (0 <= i < Z.of_nat (length l) /\ Z.of_nat k = i) \/
  (- Z.of_nat (length l) <= i < 0 /\ Z.of_nat k = Z.of_nat (length l) + i).
Proof.
  unfold py_index.
  destruct (Z.leb_spec 0 i) as [H1 | H1],
    (Z.ltb_spec i (Z.of_nat (length l))) as [H2 | H2],
    (Z.leb_spec (- Z.of_nat (length l)) i) as [H3 | H3],
    (Z.ltb_spec i 0) as [H4 | H4]; cbn [andb];
    (split; [intros H; try discriminate; injection H as <-; lia
            | intros [[? ?] | [? ?]]; try lia; f_equal; lia]).
Qed.

Lemma py_range_length (n : Z) : length (py_range n) = Z.to_nat n.
Proof. unfold py_range. now rewrite length_map, length_seq. Qed.

(** The partition in closed form, from any queues. *)
Lemma distribute_spec (processes : list Process) :
  forall queues : list (list Process),
    MLQ.distribute processes queues =
    if decide (Forall (fun p => is_Some (py_index queues (get_queue (get_pcb p) - 1)))
                 processes)
    then Ok (imap (fun k q =>
                     q ++ filter (fun p => py_index queues (get_queue (get_pcb p) - 1)
                                           = Some k) processes) queues)
    else Raise IndexError.
Proof.
  induction processes as [| p ps IH]; intros queues.
  - cbn [MLQ.distribute]. destruct (decide (Forall _ [])) as [_ | H]; [| now destruct H].
    f_equal. apply list_eq. intros k. rewrite list_lookup_imap.
    destruct (queues !! k); simpl; [| done]. now rewrite app_nil_r.
  - cbn [MLQ.distribute]. unfold MLQ.append_to, py_getitem, py_store.
    destruct (py_index queues (get_queue (get_pcb p) - 1)) as [k |] eqn:Hk.
    2:{ cbn [bind]. case_decide as H; [| done].
        apply Forall_cons in H as [[? H] _]. congruence. }
    pose proof (py_index_lt _ _ _ Hk) as Hlt.
    destruct (lookup_lt_is_Some_2 _ _ Hlt) as [q Hq]. rewrite Hq. cbn [bind].
    rewrite IH.
    assert (Hsame : forall i : Z, py_index (<[k := q ++ [p]]> queues) i = py_index queues i).
    { intros i. apply py_index_length. apply length_insert. }
    case_decide as H1; case_decide as H2.
    + f_equal. apply list_eq. intros k'. rewrite !list_lookup_imap.
      destruct (decide (k' = k)) as [-> | Hne].
      * rewrite list_lookup_insert_eq by done. rewrite Hq. simpl. f_equal.
        rewrite filter_cons_True by done. rewrite <- app_assoc. simpl. do 2 f_equal.
        apply list_filter_iff. intros x. now rewrite Hsame.
      * rewrite list_lookup_insert_ne by done.
        destruct (queues !! k') as [q' |]; simpl; [| done]. f_equal.
        rewrite filter_cons_False by congruence. f_equal.
        apply list_filter_iff. intros x. now rewrite Hsame.
    + destruct H2. constructor; [now rewrite Hk |].
      eapply Forall_impl; [exact H1 |]. intros x. simpl. now rewrite Hsame.
    + destruct H1. apply Forall_cons in H2 as [_ H2].
      eapply Forall_impl; [exact H2 |]. intros x. simpl. now rewrite Hsame.
    + reflexivity.
Qed.

(** X7.  The partition of [__read_file] in closed form.  A process declaring
    queue [n] goes to position n - 1 of the [max_queues] empty queues, Python
    counting a negative position from the end: a declared 1..max_queues is
    queue [n] itself, a declared 0 is the last queue, -1 the one before it,
    and so on down to 1 - max_queues.  If every process declares a queue in
    that range, the queue at each position holds exactly the processes
    declaring it, in the order of the file; otherwise the partition raises
    IndexError. *)
Theorem distribute_partition (processes : list Process) (max_queues : Z) :
  (forall (p : Process) (k : nat),
     queue_slot max_queues p = Some k <->
     (1 <= get_queue (get_pcb p) <= max_queues /\
      Z.of_nat k = get_queue (get_pcb p) - 1) \/
     (1 - max_queues <= get_queue (get_pcb p) <= 0 /\
      Z.of_nat k = max_queues + get_queue (get_pcb p) - 1)) /\
  MLQ.distribute processes (map (fun _ => []) (py_range max_queues)) =
  if decide (Forall (fun p => is_Some (queue_slot max_queues p)) processes)
  then Ok (map (fun k => filter (fun p => queue_slot max_queues p = Some k) processes)
             (seq 0 (Z.to_nat max_queues)))
  else Raise IndexError.
Proof.
  split.
  - intros p k. unfold queue_slot. rewrite py_index_cases, py_range_length. lia.
  - rewrite distribute_spec.
    assert (Hsame : forall i : Z,
               py_index (map (fun _ : Z => @nil Process) (py_range max_queues)) i
               = py_index (py_range max_queues) i).
    { intros i. apply py_index_length. apply length_map. }
    case_decide as H1; case_decide as H2.
    + f_equal. apply list_eq. intros k.
      rewrite list_lookup_imap, !list_lookup_fmap.
      unfold py_range. rewrite list_lookup_fmap.
      destruct (seq 0 (Z.to_nat max_queues) !! k) as [k' |] eqn:Hk; simpl; [| done].
      apply lookup_seq in Hk as [-> _]. simpl. f_equal.
      apply list_filter_iff. intros x. unfold queue_slot. now rewrite Hsame.
    + destruct H2. eapply Forall_impl; [exact H1 |]. intros x. simpl.
      unfold queue_slot. now rewrite Hsame.
    + destruct H1. eapply Forall_impl; [exact H2 |]. intros x. simpl.
      unfold queue_slot. now rewrite Hsame.
    + reflexivity.
Qed.

(** ** The dispatcher: reading the file *)

Lemma read_lines_spec (lines : list string) :
  forall (i : Z) (processes processes' : list Process) (max_queues max_queues' : Z),
    0 <= i ->
    MLQ.read_lines i lines processes max_queues = Ok (processes', max_queues') ->
    exists new : list Process,
      processes' = processes ++ new /\
      Forall2 (fun line p => MLQ.read_line line = Ok p)
        (drop (Z.to_nat (2 - i)) lines) new /\
      max_queues <= max_queues' /\
      Forall (fun p => get_queue (get_pcb p) <= max_queues') new /\
      (max_queues < max_queues' ->
       Exists (fun p => get_queue (get_pcb p) = max_queues') new).
Proof.
  induction lines as [| l lines IH]; intros i ps ps' m m' Hi H; cbn [MLQ.read_lines] in H.
  - injection H as <- <-. exists []. rewrite app_nil_r, drop_nil.
    split; [done |]. split; [constructor |]. split; [lia |]. split; [constructor | lia].
  - destruct ((i =? 0) || (i =? 1)) eqn:E.
    + apply orb_true_iff in E. rewrite !Z.eqb_eq in E.
      destruct (IH _ _ _ _ _ (ltac:(lia) : 0 <= i + 1) H) as (new & -> & HF & Hm & Hle & Hex).
      exists new. split; [done |]. split; [| done].
      replace (Z.to_nat (2 - i)) with (S (Z.to_nat (2 - (i + 1)))) by lia. exact HF.
    + apply orb_false_iff in E. rewrite !Z.eqb_neq in E.
      inv_bind H. cbv zeta in H.
      destruct (IH _ _ _ _ _ (ltac:(lia) : 0 <= i + 1) H) as (new & -> & HF & Hm & Hle & Hex).
      replace (Z.to_nat (2 - (i + 1))) with O in HF by lia.
      replace (Z.to_nat (2 - i)) with O by lia. cbn [drop] in *.
      exists (a :: new). split; [now rewrite <- app_assoc |].
      split; [now constructor |].
      destruct (Z.gtb_spec (get_queue (get_pcb a)) m) as [Hgt | Hngt].
      * split; [lia |]. split; [constructor; [lia | done] |]. intros Hlt.
        destruct (Z.eq_dec (get_queue (get_pcb a)) m') as [Heq | Hne].
        -- now apply Exists_cons_hd.
        -- apply Exists_cons_tl, Hex. lia.
      * split; [lia |]. split; [constructor; [lia | done] |]. intros Hlt.
        apply Exists_cons_tl, Hex. lia.
Qed.

Lemma concat_insert_snoc {A : Type} (qs : list (list A)) (k : nat) (q : list A) (x : A) :
  qs !! k = Some q -> concat (<[k := q ++ [x]]> qs) ≡ₚ concat qs ++ [x].
Proof.
  revert k. induction qs as [| q0 qs IH]; intros [| k] H; try discriminate; simpl in *.
  - injection H as ->. rewrite <- !app_assoc. apply Permutation_app_head, Permutation_app_comm.
  - rewrite (IH _ H). now rewrite app_assoc.
Qed.

Lemma distribute_concat (processes : list Process) :
  forall queues queues' : list (list Process),
    MLQ.distribute processes queues = Ok queues' ->
    length queues' = length queues /\ concat queues' ≡ₚ concat queues ++ processes.
Proof.
  induction processes as [| p ps IH]; intros queues queues' H; simpl in H.
  - injection H as <-. now rewrite app_nil_r.
  - inv_bind H. apply append_to_Ok in Ha as (k & q & Hk & Hq & ->).
    destruct (IH _ _ H) as [Hlen Hperm]. rewrite length_insert in Hlen.
    split; [done |]. rewrite Hperm, (concat_insert_snoc _ _ _ _ Hq).
    now rewrite <- app_assoc.
Qed.

Lemma concat_empty_queues (rng : list Z) :
  concat (map (fun _ : Z => @nil Process) rng) = [].
Proof. induction rng as [| i rng IH]; simpl; done. Qed.

(** X8.  What [__read_file] makes of a file whose lines all parse.  The
    first two lines are skipped whatever they hold and every later line
    gives one process, in order.  [max_queues] is the highest queue number
    declared, or 0 when none is positive, and that many queues are made.  If
    every process declares a queue of at least 1 - max_queues, the queues
    together hold each process exactly once; if some process declares a
    lower number (with no positive queue declared: any process at all), the
    partition raises IndexError. *)
Theorem read_file_queues (lines : list string) (processes : list Process)
  (max_queues : Z) :
  MLQ.read_lines 0 lines [] 0 = Ok (processes, max_queues) ->
  Forall2 (fun line p => MLQ.read_line line = Ok p) (drop 2 lines) processes /\
  0 <= max_queues /\
  Forall (fun p => get_queue (get_pcb p) <= max_queues) processes /\
  (0 < max_queues -> Exists (fun p => get_queue (get_pcb p) = max_queues) processes) /\
  (Forall (fun p => 1 - max_queues <= get_queue (get_pcb p)) processes ->
   exists queues,
     MLQ.__read_file lines = Ok queues /\
     length queues = Z.to_nat max_queues /\ concat queues ≡ₚ processes) /\
  (Exists (fun p => get_queue (get_pcb p) < 1 - max_queues) processes ->
   MLQ.__read_file lines = Raise IndexError).
Proof.
  intros H.
  destruct (read_lines_spec _ _ _ _ _ _ (Z.le_refl 0) H) as (new & Hnew & HF & Hm & Hle & Hex).
  simpl in Hnew. subst new. change (Z.to_nat (2 - 0)) with 2%nat in HF.
  do 4 (split; [done |]).
  unfold MLQ.__read_file. rewrite H. cbn [bind].
  rewrite distribute_spec.
  assert (Hslot : forall p : Process,
             is_Some (py_index (map (fun _ : Z => @nil Process) (py_range max_queues))
                        (get_queue (get_pcb p) - 1))
             <-> 1 - max_queues <= get_queue (get_pcb p) <= max_queues).
  { intros p. unfold is_Some. split.
    - intros [k Hk]. apply py_index_cases in Hk.
      rewrite length_map, py_range_length in Hk. lia.
    - intros Hr. destruct (Z.le_gt_cases 1 (get_queue (get_pcb p))).
      + exists (Z.to_nat (get_queue (get_pcb p) - 1)). apply py_index_cases.
        rewrite length_map, py_range_length. lia.
      + exists (Z.to_nat (max_queues + get_queue (get_pcb p) - 1)). apply py_index_cases.
        rewrite length_map, py_range_length. lia. }
  split.
  - intros Hlow. case_decide as Hd.
    + eexists. split; [reflexivity |].
      pose proof (distribute_spec processes
                    (map (fun _ : Z => @nil Process) (py_range max_queues))) as Hspec.
      destruct (decide _) as [_ | Hn] in Hspec; [| done].
      apply distribute_concat in Hspec as [Hlen Hperm].
      rewrite length_map, py_range_length in Hlen.
      now rewrite concat_empty_queues in Hperm.
    + destruct Hd. rewrite Forall_forall in Hlow, Hle |- *. intros p Hp.
      apply Hslot. split; [now apply Hlow | now apply Hle].
  - intros Hbad. case_decide as Hd; [| reflexivity].
    apply Exists_exists in Hbad as (p & Hp & Hlt).
    rewrite Forall_forall in Hd. apply Hd, Hslot in Hp. lia.
Qed.

Lemma read_file_queues_witness :
  Forall2 (fun line p => MLQ.read_line line = Ok p) (drop 2 sample_lines)
    (concat (MLQ.__queues sample_state)) /\
  0 <= 2 /\
  Forall (fun p => get_queue (get_pcb p) <= 2) (concat (MLQ.__queues sample_state)) /\
  (0 < 2 -> Exists (fun p => get_queue (get_pcb p) = 2)
              (concat (MLQ.__queues sample_state))) /\
  (Forall (fun p => 1 - 2 <= get_queue (get_pcb p)) (concat (MLQ.__queues sample_state)) ->
   exists queues,
     MLQ.__read_file sample_lines = Ok queues /\
     length queues = Z.to_nat 2 /\
     concat queues ≡ₚ concat (MLQ.__queues sample_state)) /\
  (Exists (fun p => get_queue (get_pcb p) < 1 - 2) (concat (MLQ.__queues sample_state)) ->
   MLQ.__read_file sample_lines = Raise IndexError).
Proof.
  exact (read_file_queues sample_lines (concat (MLQ.__queues sample_state)) 2 eq_refl).
Defined.

(** ** The dispatcher: the end clock *)

Lemma RR_run_end (fuel : nat) (quantum t0 : Z) (q s : list Process) :
  0 < quantum -> wf_queue q -> order_queue q = Ok s -> sum_bt q <= Z.of_nat fuel ->
  exists q',
    RoundRobin.run fuel quantum q t0 = Ok (q', t0 + sum_bt q) /\
    map descriptor q' = map descriptor s.
Proof.
  intros HQ Hq Hs Hfuel.
  destruct (RR_run_total fuel quantum t0 q s HQ Hq Hs Hfuel) as (q' & t' & Hrun).
  destruct (RR_run_rtc _ _ _ _ _ _ Hrun) as (s1 & sf & Hs1 & Hrtc & <- & <-).
  assert (s1 = s) by congruence. subst s1.
  pose proof (ordered_inv quantum t0 q s HQ Hq Hs) as Hinv0.
  pose proof (order_queue_Permutation _ _ Hs) as HP.
  destruct (rr_invariant
              (fun st => RoundRobin.__time st = t0 + sum_te (RoundRobin.__queue st) /\
                         map descriptor (RoundRobin.__queue st) = map descriptor s))
    with (x := (ordered quantum t0 s, Some 0)) (y := (sf, @None Z))
    as [(_ & _ & Hlive & Hdone) [Htime Hdesc]]; try done.
  - intros st i p (HQs & _ & Hl & _) [Ht Hd] Hp Hnd. cbn [fst snd] in *.
    assert (Hlp : live p) by (eapply Forall_lookup_1; eassumption).
    pose proof (dispatched_facts _ (RoundRobin.__time st) p HQs Hlp Hnd)
      as (_ & _ & Htag & Hat & Hbt & Hte & _).
    cbv zeta in *. cbn [after_dispatch RoundRobin.__time RoundRobin.__queue]. split.
    + rewrite (sum_te_insert _ _ _ _ Hp), Hte. lia.
    + rewrite <- Hd. rewrite list_fmap_insert.
      apply list_insert_id. rewrite list_lookup_fmap, Hp. simpl.
      unfold descriptor. now rewrite Htag, Hat, Hbt.
  - simpl. split; [| reflexivity]. rewrite sum_te_fresh; [lia |].
    rewrite <- HP. eapply Forall_impl; [exact Hq |]. now intros p [? _].
  - cbn [fst snd] in *. exists (RoundRobin.__queue sf).
    split; [| exact Hdesc].
    rewrite Hrun. f_equal. f_equal. rewrite Htime.
    rewrite (sum_te_finished _ Hlive Hdone).
    rewrite (sum_bt_descriptor _ _ Hdesc).
    now rewrite (sum_bt_Permutation _ _ HP).
Qed.

Lemma fcfs_schedule_descriptor (s : list Process) :
  forall t : Z, map descriptor (fcfs_schedule t s) = map descriptor s.
Proof.
  induction s as [| p s IH]; intros t; simpl; [done |]. now rewrite IH.
Qed.

Lemma RR_on_nonempty_end (fuel : nat) (quantum t : Z) (q : list Process) :
  0 < quantum -> wf_queue q -> sortable q -> sum_bt q <= Z.of_nat fuel ->
  exists q',
    on_nonempty (RoundRobin.run fuel quantum) q t = Ok (q', t + sum_bt q) /\
    map descriptor q' ≡ₚ map descriptor q.
Proof.
  intros HQ Hwf [-> | [s Hs]] Hfuel.
  - exists []. simpl. split; [do 2 f_equal; lia | done].
  - destruct (RR_run_end fuel quantum t q s HQ Hwf Hs Hfuel) as (q' & Hrun & Hd).
    exists q'. split.
    + destruct (order_queue_nonempty _ _ Hs) as [Hne _]. destruct q; [done |]. exact Hrun.
    + rewrite Hd. apply fmap_Permutation. symmetry. eapply order_queue_Permutation, Hs.
Qed.

Lemma FCFS_on_nonempty_end (t : Z) (q : list Process) :
  sortable q ->
  exists q',
    on_nonempty FCFS.run q t = FCFS_returns q' (t + sum_bt q) /\
    (times_fit t q -> on_nonempty FCFS.run q t = Ok (q', t + sum_bt q)) /\
    map descriptor q' ≡ₚ map descriptor q.
Proof.
  intros [-> | [s Hs]].
  - exists []. simpl. unfold FCFS_returns. simpl.
    split; [do 2 f_equal; lia |]. split; [intros _; do 2 f_equal; lia | done].
  - exists (fcfs_schedule t s).
    destruct (order_queue_nonempty _ _ Hs) as [Hne _].
    split; [destruct q; [done |]; now apply FCFS_run_sorted |].
    split; [intros Hfit; destruct q; [done |]; now apply FCFS_run_fits |].
    rewrite fcfs_schedule_descriptor. apply fmap_Permutation. symmetry.
    eapply order_queue_Permutation, Hs.
Qed.

(** X9.  The dispatcher wastes no tick and loses no process.  On queues of
    fresh processes with positive BT, with tags the ordering accepts and
    fuel for each queue's total burst, [start_processing] from clock [t0]
    ends with the clock at t0 plus the total burst time of the first three
    queues (the processes of a fourth or later queue add nothing), and every
    queue comes out holding the processes it went in with, tag, AT and BT
    unchanged, possibly in another order.  It raises OverflowError instead
    exactly when a time FCFS computed for the third queue is beyond the
    float range, which start time, bursts and arrival times of ordinary size
    exclude. *)
Theorem MLQ_end_clock (fuel : nat) (qs : list (list Process)) (t0 : Z) :
  Forall wf_queue qs -> Forall sortable qs ->
  Forall (fun q => sum_bt q <= Z.of_nat fuel) qs ->
  exists qs' : list (list Process),
    MLQ.start_processing fuel (MLQ.mk qs t0)
    = (if floats_fit (nth 2 qs' [])
       then Ok (MLQ.mk qs' (t0 + sum_bt (concat (take 3 qs))))
       else Raise OverflowError) /\
    (times_fit (t0 + sum_bt (nth 0 qs []) + sum_bt (nth 1 qs [])) (nth 2 qs []) ->
     MLQ.start_processing fuel (MLQ.mk qs t0)
     = Ok (MLQ.mk qs' (t0 + sum_bt (concat (take 3 qs))))) /\
    Forall2 (fun q q' => map descriptor q' ≡ₚ map descriptor q) qs qs'.
Proof.
  intros Hwf Hsort Hfuel.
  assert (Hwf0 : wf_queue []) by constructor.
  assert (Hs0 : sortable []) by now left.
  assert (Hf0 : sum_bt [] <= Z.of_nat fuel) by (simpl; lia).
  destruct (RR_on_nonempty_end fuel 3 t0 (nth 0 qs [])) as (q1' & H1 & Hd1);
    try lia; try (apply nth_Forall; assumption).
  destruct (RR_on_nonempty_end fuel 5 (t0 + sum_bt (nth 0 qs [])) (nth 1 qs []))
    as (q2' & H2 & Hd2); try lia; try (apply nth_Forall; assumption).
  destruct (FCFS_on_nonempty_end (t0 + sum_bt (nth 0 qs []) + sum_bt (nth 1 qs []))
              (nth 2 qs [])) as (q3' & H3 & H3f & Hd3); try (apply nth_Forall; assumption).
  exists (take (length qs) [q1'; q2'; q3'] ++ drop 3 qs).
  assert (Hrefl : forall rest : list (list Process),
             Forall2 (fun q q' => map descriptor q' ≡ₚ map descriptor q) rest rest).
  { intros rest. induction rest; now constructor. }
  assert (Hend : t0 + sum_bt (nth 0 qs []) + sum_bt (nth 1 qs []) + sum_bt (nth 2 qs [])
                 = t0 + sum_bt (concat (take 3 qs))).
  { destruct qs as [| q1 [| q2 [| q3 rest]]];
      cbn [nth length take drop app concat];
      rewrite ?take_nil, ?app_nil_r, ?sum_bt_app; change (sum_bt []) with 0; lia. }
  assert (Hfit3 : floats_fit (nth 2 (take (length qs) [q1'; q2'; q3'] ++ drop 3 qs) [])
                  = floats_fit q3').
  { destruct qs as [| q1 [| q2 [| q3 rest]]]; cbn [nth length take drop app];
      try reflexivity; cbn [nth] in H3; unfold FCFS_returns in H3; cbn [on_nonempty] in H3;
      destruct (floats_fit q3') eqn:E; try reflexivity; discriminate. }
  rewrite Hfit3, <- Hend.
  split.
  { rewrite MLQ_start_processing_table, H1. cbn [bind]. rewrite H2. cbn [bind].
    rewrite H3. unfold FCFS_returns. now destruct (floats_fit q3'). }
  split.
  { intros Hfit. rewrite MLQ_start_processing_table, H1. cbn [bind]. rewrite H2.
    cbn [bind]. now rewrite (H3f Hfit). }
  destruct qs as [| q1 [| q2 [| q3 rest]]];
    cbn [nth length take drop app concat] in *; rewrite ?take_nil, ?app_nil_r.
  - constructor.
  - now repeat constructor.
  - now repeat constructor.
  - constructor; [done |]. constructor; [done |]. constructor; [done |]. apply Hrefl.
Qed.

Lemma MLQ_end_clock_witness :
  exists qs' : list (list Process),
    MLQ.start_processing 10 (MLQ.mk two_queues 0)
    = (if floats_fit (nth 2 qs' [])
       then Ok (MLQ.mk qs' (0 + sum_bt (concat (take 3 two_queues))))
       else Raise OverflowError) /\
    (times_fit (0 + sum_bt (nth 0 two_queues []) + sum_bt (nth 1 two_queues []))
               (nth 2 two_queues []) ->
     MLQ.start_processing 10 (MLQ.mk two_queues 0)
     = Ok (MLQ.mk qs' (0 + sum_bt (concat (take 3 two_queues))))) /\
    Forall2 (fun q q' => map descriptor q' ≡ₚ map descriptor q) two_queues qs'.
Proof.
  exact (MLQ_end_clock 10 two_queues 0 two_queues_wf two_queues_sortable two_queues_fuel).
Defined.

(** ** Ordering an ordered queue *)

Lemma sort_pairs_sorted_id {K A : Type} (leb : K -> K -> bool) (m : list (K * A)) :
  StronglySorted (key_le leb) m -> sort_pairs leb m = m.
Proof.
  induction 1 as [| x m Hs IH Hx]; [done |].
  cbn [sort_pairs foldr]. fold (sort_pairs leb m). rewrite IH.
  destruct m as [| y m]; [done |]. cbn [insert_by].
  apply Forall_cons in Hx as [Hxy _]. unfold key_le in Hxy. now rewrite Hxy.
Qed.

Lemma keyed_map_snd {K A : Type} (key : A -> result K) (m : list (K * A)) :
  Forall (fun kx => key (snd kx) = Ok (fst kx)) m -> keyed key (map snd m) = Ok m.
Proof.
  induction 1 as [| [k x] m Hx _ IH]; [done |].
  simpl in *. rewrite Hx, IH. reflexivity.
Qed.

Lemma py_sort_idempotent {K A : Type} (leb : K -> K -> bool) (key : A -> result K)
  (l s : list A) :
  (forall a b, leb a b = false -> leb b a = true) ->
  (forall a b c, leb a b = true -> leb b c = true -> leb a c = true) ->
  py_sort leb key l = Ok s -> py_sort leb key s = Ok s.
Proof.
  intros Htotal Htrans H. unfold py_sort in *. inv_bind H. injection H as <-.
  destruct (keyed_Ok _ _ _ Ha) as [_ Hkeys].
  rewrite keyed_map_snd by now rewrite sort_pairs_Permutation.
  cbn [bind]. rewrite sort_pairs_sorted_id; [done |].
  now apply sort_pairs_sorted.
Qed.

(** X10.  Ordering is idempotent on queues of uniform tags: when the tags of
    a queue all start with "p", or none does, the queue an engine has ordered
    is left as it is by a second ordering (that of the same engine, or of
    another engine handed the same list). *)
Theorem order_queue_idempotent (q s : list Process) (b : bool) :
  Forall (fun p => startswith_p (get_tag p) = b) q ->
  order_queue q = Ok s ->
  order_queue s = Ok s.
Proof.
  intros Hb Hs.
  pose proof (order_queue_Permutation _ _ Hs) as HP.
  destruct (order_queue_nonempty _ _ Hs) as [Hq Hne].
  destruct (last q) as [l |] eqn:Hl; [| apply last_None in Hl; done].
  destruct (last s) as [l' |] eqn:Hl'; [| apply last_None in Hl'; done].
  rewrite (order_queue_last _ _ Hl) in Hs. rewrite (order_queue_last _ _ Hl').
  rewrite Forall_forall in Hb.
  assert (Hbl : startswith_p (get_tag l) = b).
  { apply Hb. apply last_Some in Hl as [pre ->]. set_solver. }
  assert (Hbl' : startswith_p (get_tag l') = b).
  { apply Hb. rewrite HP. apply last_Some in Hl' as [pre ->]. set_solver. }
  rewrite Hbl in Hs. rewrite Hbl'. destruct b.
  - now apply (py_sort_idempotent leb_ZZ key_suffix q s leb_ZZ_total leb_ZZ_trans).
  - now apply (py_sort_idempotent leb_Zstring key_tag q s leb_Zstring_total leb_Zstring_trans).
Qed.

Lemma order_queue_idempotent_witness : order_queue rr_scenario = Ok rr_scenario.
Proof.
  apply (order_queue_idempotent rr_scenario rr_scenario true);
    [repeat constructor | reflexivity].
Defined.

(** With mixed tags the last process decides anew each time: [a10; p2] is
    ordered by the integers 10 and 2 into [p2; a10], and that queue, whose
    last tag no longer starts with "p", by the tags into [a10; p2]. *)
Example order_queue_mixed_tags :
  exists s, order_queue mixed_tags = Ok s /\ order_queue s = Ok mixed_tags /\ s <> mixed_tags.
Proof. eexists. split; [reflexivity |]. split; [reflexivity | discriminate]. Qed.

(** ** Running an engine again *)

Lemma keyed_Raise_inv {K A : Type} (key : A -> result K) (l : list A) (e : exn) :
  keyed key l = Raise e -> exists x, x ∈ l /\ key x = Raise e.
Proof.
  induction l as [| x l IH]; simpl; [discriminate |].
  destruct (key x) as [k | e' |] eqn:Hk; simpl; [| | discriminate].
  - destruct (keyed key l) as [kl | e' |]; simpl; [discriminate | | discriminate].
    intros H. injection H as ->. destruct (IH eq_refl) as (y & Hy & Hky).
    exists y. split; [now right | done].
  - intros H. injection H as ->. exists x. split; [now left | done].
Qed.

Lemma order_queue_raises (q : list Process) (e : exn) :
  order_queue q = Raise e ->
  (e = IndexError /\ q = []) \/ (e = ValueError /\ q <> []).
Proof.
  unfold order_queue. rewrite py_getitem_last.
  destruct (last q) as [l |] eqn:Hl; simpl.
  2:{ intros H. injection H as <-. left. split; [done |]. now apply last_None. }
  assert (Hne : q <> []) by (intros ->; discriminate).
  destruct (startswith_p (get_tag l)); unfold py_sort; intros H.
  - destruct (keyed key_suffix q) as [kl | e' |] eqn:Hk; simpl in H; try discriminate.
    injection H as ->. apply keyed_Raise_inv in Hk as (x & _ & Hx).
    unfold key_suffix in Hx.
    destruct (py_int_cases (tail1 (get_tag x))) as [[n Hn] | Hn]; rewrite Hn in Hx;
      simpl in Hx; [discriminate |]. injection Hx as <-. now right.
  - destruct (keyed key_tag q) as [kl | e' |] eqn:Hk; simpl in H; try discriminate.
    injection H as ->. apply keyed_Raise_inv in Hk as (x & _ & Hx). discriminate.
Qed.

(** X11.  An FCFS engine runs once.  [_current_process] is never reset: after
    a first [start_processing] it equals the length of the queue, so a
    second [start_processing] on the same engine never returns; it raises
    IndexError at [self._ready_queue[self._current_process]] (or ValueError,
    when the ordering now meets a tag it cannot read). *)
Theorem FCFS_runs_once (q : list Process) (t0 : Z) (s : FCFS.t) :
  FCFS.start_processing (FCFS.init q t0) = Ok s ->
  FCFS._current_process s = Z.of_nat (length (FCFS._ready_queue s)) /\
  exists e, FCFS.start_processing s = Raise e /\ (e = IndexError \/ e = ValueError).
Proof.
  intros H. unfold FCFS.start_processing, FCFS._order_queue, FCFS.init in H.
  cbn [FCFS._ready_queue FCFS._current_process FCFS._time] in H.
  destruct (order_queue q) as [s0 | e |] eqn:Hs0; cbn [bind] in H; try discriminate.
  cbn [FCFS._ready_queue] in H.
  pose proof (FCFS_for_each s0 s0 [] t0 eq_refl) as Hrun.
  cbn [app length Nat.add] in Hrun. change (Z.of_nat 0) with 0 in Hrun.
  rewrite Hrun in H. cbn [bind] in H.
  unfold FCFS._calculate_metrics in H. cbn [FCFS._ready_queue] in H.
  rewrite accumulate_all_spec in H.
  destruct (floats_fit (fcfs_schedule t0 s0)); cbn [bind] in H; [| discriminate].
  destruct (Z.of_nat (length (fcfs_schedule t0 s0)) =? 0); [discriminate |].
  injection H as <-. cbn [FCFS._ready_queue FCFS._current_process].
  rewrite fcfs_schedule_length. split; [reflexivity |].
  unfold FCFS.start_processing, FCFS._order_queue.
  cbn [FCFS._ready_queue FCFS._current_process FCFS._time].
  destruct (order_queue (fcfs_schedule t0 s0)) as [s1 | e |] eqn:Hs1; cbn [bind].
  - exists IndexError. split; [| now left].
    pose proof (order_queue_Permutation _ _ Hs1) as HP.
    apply Permutation_length in HP. rewrite fcfs_schedule_length in HP.
    destruct (order_queue_nonempty _ _ Hs1) as [_ Hne].
    destruct s1 as [| x s1]; [done |].
    cbn [FCFS._ready_queue for_each]. unfold FCFS._excecute_process.
    cbn [FCFS._ready_queue FCFS._current_process].
    rewrite py_getitem_nat, (lookup_ge_None_2 (x :: s1) (length s0)) by lia.
    reflexivity.
  - exists e. split; [reflexivity |].
    destruct (order_queue_raises _ _ Hs1) as [[-> _] | [-> _]]; [now left | now right].
  - now apply order_queue_terminated in Hs1.
Qed.

Lemma FCFS_runs_once_witness :
  FCFS._current_process (FCFS.mk (fcfs_schedule 0 rr_scenario) 2 8)
  = Z.of_nat (length (FCFS._ready_queue (FCFS.mk (fcfs_schedule 0 rr_scenario) 2 8))) /\
  exists e, FCFS.start_processing (FCFS.mk (fcfs_schedule 0 rr_scenario) 2 8) = Raise e /\
            (e = IndexError \/ e = ValueError).
Proof.
  exact (FCFS_runs_once rr_scenario 0 (FCFS.mk (fcfs_schedule 0 rr_scenario) 2 8) eq_refl).
Defined.

(** X12.  A new Round Robin engine on a queue that is already finished runs
    its first process once more.  At the start time [__next_process] returns
    the head of the queue without looking at its done flag: the head, whose
    remaining time is 0, is run for a whole quantum and preempted, its TE
    growing to BT + quantum and the clock by the quantum; only then does the
    scan find every process done.  The other processes, and the CT, WT, TAT
    and done flag of the head, are left as they were. *)
Theorem RR_finished_queue_head_runs_again (fuel : nat) (quantum t0 : Z)
  (q s : list Process) (p : Process) :
  0 < quantum ->
  order_queue q = Ok (p :: s) ->
  Forall (fun x => is_done (get_pcb x) = true /\
                   get_te (get_pcb x) = get_bt (get_pcb x)) q ->
  exists p',
    RoundRobin.run (S fuel) quantum q t0 = Ok (p' :: s, t0 + quantum) /\
    get_te (get_pcb p') = get_bt (get_pcb p) + quantum /\
    get_et (get_pcb p') = t0 + quantum /\
    is_done (get_pcb p') = true /\
    metrics p' = (get_tag p, (get_wt (get_pcb p), get_ct (get_pcb p),
                              (if get_rt (get_pcb p) <? 0 then t0 else get_rt (get_pcb p)),
                              get_tat (get_pcb p))).
Proof.
  intros HQ Hs Hq.
  rewrite (order_queue_Permutation _ _ Hs) in Hq.
  apply Forall_cons in Hq as [[Hd Hte] Hrest].
  assert (Hfin : finishes quantum p = false).
  { unfold finishes. rewrite Hte, Z.sub_diag. reflexivity. }
  exists (rr_saved t0 (t0 + quantum) p).
  split.
  - unfold RoundRobin.run.
    destruct (start_processing_ordered (S fuel) quantum t0 q (p :: s) Hs) as (_ & _ & ->).
    cbn [RoundRobin.loop]. unfold ordered.
    assert (He : RoundRobin.__excecute_process (RoundRobin.mk quantum t0 t0 (p :: s) 0 0) 0
                 = Ok (RoundRobin.mk quantum (t0 + slice_len quantum p) t0
                         (dispatched quantum t0 p :: s) t0 (Z.of_nat 0), true))
      by exact (excecute_middle [] s p quantum t0 t0 0 0 HQ).
    rewrite He. cbn [bind].
    rewrite next_process_dispatched by (unfold slice_len; rewrite Hfin; lia).
    cbn [bind]. unfold circular_next.
    assert (Hall : Forall finished (dispatched quantum t0 p :: s)).
    { constructor.
      - unfold finished, dispatched. rewrite Hfin. clear -Hd.
        destruct_process p. pcb_cbv. now destruct (_ <? 0).
      - eapply Forall_impl; [exact Hrest |]. now intros x [? _]. }
    rewrite !scan_front_all_done; [| exact Hall |].
    2:{ cbn [drop]. now apply Forall_cons in Hall as [_ ?]. }
    destruct fuel; cbn [RoundRobin.loop bind RoundRobin.__queue RoundRobin.get_time
                        RoundRobin.__time];
      unfold dispatched, slice_len; rewrite Hfin; reflexivity.
  - clear -Hd Hte. destruct_process p. unfold metrics. pcb_cbv.
    destruct (_ <? 0); cbv [get_te get_bt get_et is_done get_pcb];
      (split; [lia |]); (split; [lia |]); (split; [done |]); reflexivity.
Qed.

Lemma RR_finished_queue_head_runs_again_witness :
  exists p',
    RoundRobin.run 1 2 rr_scenario_done 8
    = Ok (p' :: [mkProcess "p2" (mkPCB 1 4 4 8 3 2 7 8 1 "1" true)], 8 + 2) /\
    get_te (get_pcb p') = 4 + 2 /\
    get_et (get_pcb p') = 8 + 2 /\
    is_done (get_pcb p') = true /\
    metrics p' = ("p1"%string, (2, 6, (if 0 <? 0 then 8 else 0), 6)).
Proof.
  apply (RR_finished_queue_head_runs_again 0 2 8 rr_scenario_done
           [mkProcess "p2" (mkPCB 1 4 4 8 3 2 7 8 1 "1" true)]
           (mkProcess "p1" (mkPCB 0 4 4 6 2 0 6 6 1 "1" true)));
    [reflexivity | reflexivity | repeat constructor].
Defined.

(** ** Round Robin: what every state of the loop satisfies *)

Lemma dispatched_finishing_et (quantum now : Z) (p : Process) :
  finishes quantum p = true ->
  get_et (get_pcb (dispatched quantum now p)) = get_ct (get_pcb (dispatched quantum now p)).
Proof.
  intros Hf. unfold dispatched. rewrite Hf. clear Hf.
  destruct_process p. pcb_cbv. now destruct (_ <? 0).
Qed.

(** X13.  In every state the Round Robin loop passes through (positive
    quantum, fresh processes with positive BT): the clock is the start time
    plus the time all processes have executed; a process that is not done
    has executed a whole number of quanta; and a process that is done has
    its end time equal to its completion time. *)
Theorem RR_loop_accounting (quantum t0 : Z) (q s : list Process) (st : RoundRobin.t)
  (n : option Z) :
  0 < quantum ->
  Forall (fun p => fresh p /\ 0 < get_bt (get_pcb p)) q ->
  order_queue q = Ok s ->
  rtc rr_step (ordered quantum t0 s, Some 0) (st, n) ->
  RoundRobin.__time st = t0 + sum_te (RoundRobin.__queue st) /\
  Forall (fun p =>
            (is_done (get_pcb p) = false -> (quantum | get_te (get_pcb p))) /\
            (is_done (get_pcb p) = true -> get_et (get_pcb p) = get_ct (get_pcb p)))
    (RoundRobin.__queue st).
Proof.
  intros HQ Hq Hs Hrtc.
  pose proof (ordered_inv quantum t0 q s HQ Hq Hs) as Hinv0.
  pose proof (order_queue_Permutation _ _ Hs) as HP.
  destruct (rr_invariant
              (fun st =>
                 RoundRobin.__quantum st = quantum /\
                 RoundRobin.__time st = t0 + sum_te (RoundRobin.__queue st) /\
                 Forall (fun p =>
                           (is_done (get_pcb p) = false -> (quantum | get_te (get_pcb p))) /\
                           (is_done (get_pcb p) = true ->
                            get_et (get_pcb p) = get_ct (get_pcb p)))
                   (RoundRobin.__queue st)))
    with (x := (ordered quantum t0 s, Some 0)) (y := (st, n))
    as [_ (_ & Htime & Hall)]; try done.
  - intros s1 i p (HQs & _ & Hl & _) (HQe & Ht & Hall) Hp Hnd. cbn [fst snd] in *.
    assert (Hlp : live p) by (eapply Forall_lookup_1; eassumption).
    pose proof (dispatched_facts _ (RoundRobin.__time s1) p HQs Hlp Hnd)
      as (_ & _ & _ & _ & _ & Hte & _ & Hdone & _).
    cbv zeta in *.
    cbn [after_dispatch RoundRobin.__time RoundRobin.__queue RoundRobin.__quantum].
    split; [done |]. split.
    + rewrite (sum_te_insert _ _ _ _ Hp), Hte. lia.
    + apply Forall_insert; [done |].
      pose proof (Forall_lookup_1 _ _ _ _ Hall Hp) as [Hdiv _].
      rewrite Hdone, Hte. unfold slice_len.
      destruct (finishes (RoundRobin.__quantum s1) p) eqn:Hf.
      * split; [done |]. intros _. now apply dispatched_finishing_et.
      * split; [| done]. intros _. rewrite HQe.
        apply Z.divide_add_r; [now apply Hdiv | apply Z.divide_refl].
  - cbn [fst ordered RoundRobin.__quantum RoundRobin.__time RoundRobin.__queue].
    assert (Hfresh : Forall fresh s).
    { rewrite <- HP. eapply Forall_impl; [exact Hq |]. now intros p [? _]. }
    split; [done |]. split.
    + rewrite sum_te_fresh by done. lia.
    + eapply Forall_impl; [exact Hfresh |]. intros p (Hte & _ & Hd).
      rewrite Hte, Hd. split; [intros _; apply Z.divide_0_r | done].
Qed.

Lemma RR_loop_accounting_witness :
  RoundRobin.__time rr_preempted = 0 + sum_te (RoundRobin.__queue rr_preempted) /\
  Forall (fun p =>
            (is_done (get_pcb p) = false -> (2 | get_te (get_pcb p))) /\
            (is_done (get_pcb p) = true -> get_et (get_pcb p) = get_ct (get_pcb p)))
    (RoundRobin.__queue rr_preempted).
Proof.
  apply (RR_loop_accounting 2 0 rr_scenario rr_scenario rr_preempted (Some 1) eq_refl
           rr_scenario_fresh eq_refl).
  apply rtc_once. eapply rr_step_expropiated; reflexivity.
Defined.

(** ** What the engines never do *)

Lemma slice_len_pos (quantum : Z) (p : Process) : 0 < quantum -> 1 <= slice_len quantum p.
Proof.
  intros HQ. unfold slice_len, finishes.
  destruct (Z.leb_spec 1 (get_bt (get_pcb p) - get_te (get_pcb p))); simpl; [| lia].
  destruct (Z.leb_spec (get_bt (get_pcb p) - get_te (get_pcb p)) quantum); lia.
Qed.

Lemma dispatched_input_fields (quantum now : Z) (p : Process) :
  input_fields (dispatched quantum now p) = input_fields p.
Proof.
  unfold dispatched. destruct (finishes quantum p);
    destruct_process p; unfold input_fields; pcb_cbv; now destruct (_ <? 0).
Qed.

Lemma fcfs_executed_input_fields (t : Z) (p : Process) :
  input_fields (fcfs_executed t p) = input_fields p.
Proof. destruct_process p. reflexivity. Qed.

(** The loop, on any queue: it raises nothing, and what it returns holds the
    processes it was given, whatever a dispatch leaves unchanged being
    unchanged. *)
Lemma loop_outcome {A : Type} (f : Process -> A) (fuel : nat) :
  (forall quantum now p, f (dispatched quantum now p) = f p) ->
  forall (s : RoundRobin.t) (n : option Z),
    valid_next s n -> RoundRobin.__initial_time s <= RoundRobin.__time s ->
    match RoundRobin.loop fuel s n with
    | Ok s' => map f (RoundRobin.__queue s') = map f (RoundRobin.__queue s)
    | Raise _ => False
    | OutOfFuel => True
    end.
Proof.
  intros Hf. induction fuel as [| fuel IH]; intros s [j |] Hn Ht;
    cbn [RoundRobin.loop]; try done.
  destruct Hn as (i & p & -> & Hp).
  destruct (Z.lt_ge_cases 0 (RoundRobin.__quantum s)) as [HQ | HQ].
  - rewrite (excecute_process_spec s i p HQ Hp). cbn [bind].
    pose proof (slice_len_pos _ p HQ) as Hlen.
    rewrite (next_process_spec _ i); [| simpl; lia | reflexivity]. cbn [bind].
    match goal with |- context [RoundRobin.loop fuel ?s1 ?n1] =>
      specialize (IH s1 n1); destruct (RoundRobin.loop fuel s1 n1) as [s' | e |] end.
    + rewrite IH.
      * cbn [RoundRobin.__queue]. rewrite list_fmap_insert.
        apply list_insert_id. rewrite list_lookup_fmap, Hp. simpl. now rewrite Hf.
      * destruct (circular_next _ i) as [j |] eqn:E; [| done].
        apply circular_next_Some in E as (i' & p' & -> & Hp' & _). now exists i', p'.
      * simpl. lia.
    + apply IH.
      * destruct (circular_next _ i) as [j |] eqn:E; [| done].
        apply circular_next_Some in E as (i' & p' & -> & Hp' & _). now exists i', p'.
      * simpl. lia.
    + done.
  - rewrite (excecute_process_no_quantum s i p) by (done || lia). cbn [bind].
    match goal with |- context [RoundRobin.loop fuel ?s1 ?n1] =>
      specialize (IH s1 n1); destruct (RoundRobin.loop fuel s1 n1) as [s' | e |] end.
    + rewrite IH; [reflexivity | now exists i, p | simpl; lia].
    + apply IH; [now exists i, p | simpl; lia].
    + done.
Qed.

Lemma RR_run_outcome {A : Type} (f : Process -> A) (fuel : nat) (quantum t : Z)
  (q : list Process) :
  (forall quantum now p, f (dispatched quantum now p) = f p) ->
  match RoundRobin.run fuel quantum q t with
  | Ok (q', _) => map f q' ≡ₚ map f q
  | Raise e => order_queue q = Raise e
  | OutOfFuel => True
  end.
Proof.
  intros Hf. unfold RoundRobin.run.
  destruct (order_queue q) as [s | e |] eqn:Hs.
  - destruct (start_processing_ordered fuel quantum t q s Hs) as (_ & _ & ->).
    pose proof (loop_outcome f fuel Hf (ordered quantum t s) (Some 0)) as Hloop.
    destruct (RoundRobin.loop fuel (ordered quantum t s) (Some 0)) as [s' | e |];
      cbn [bind].
    + rewrite Hloop.
      * cbn [ordered RoundRobin.__queue]. apply fmap_Permutation. symmetry.
        eapply order_queue_Permutation, Hs.
      * destruct (order_queue_nonempty _ _ Hs) as [_ Hne].
        destruct s as [| p s]; [done |]. now exists O, p.
      * simpl. lia.
    + destruct Hloop.
      * destruct (order_queue_nonempty _ _ Hs) as [_ Hne].
        destruct s as [| p s]; [done |]. now exists O, p.
      * simpl. lia.
    + done.
  - unfold RoundRobin.start_processing, RoundRobin.__order_queue.
    cbn [RoundRobin.init RoundRobin.__queue]. now rewrite Hs.
  - now apply order_queue_terminated in Hs.
Qed.

Lemma fcfs_schedule_fields {A : Type} (f : Process -> A) (s : list Process) :
  (forall t p, f (fcfs_executed t p) = f p) ->
  forall t : Z, map f (fcfs_schedule t s) = map f s.
Proof.
  intros Hf. induction s as [| p s IH]; intros t; simpl; [done |]. now rewrite Hf, IH.
Qed.

Lemma FCFS_run_outcome {A : Type} (f : Process -> A) (t : Z) (q : list Process) :
  (forall t p, f (fcfs_executed t p) = f p) ->
  match FCFS.run q t with
  | Ok (q', _) => map f q' ≡ₚ map f q
  | Raise e =>
      order_queue q = Raise e \/
      (e = OverflowError /\
       exists q' t', FCFS_executed q t = Ok (q', t') /\ floats_fit q' = false)
  | OutOfFuel => False
  end.
Proof.
  intros Hf. destruct (order_queue q) as [s | e |] eqn:Hs.
  - rewrite (FCFS_run_sorted q s t Hs). unfold FCFS_returns.
    destruct (floats_fit (fcfs_schedule t s)) eqn:Hfit.
    + cbv beta iota. rewrite (fcfs_schedule_fields f s Hf).
      apply fmap_Permutation. symmetry. eapply order_queue_Permutation, Hs.
    + right. split; [reflexivity |]. exists (fcfs_schedule t s), (t + sum_bt q).
      split; [now apply FCFS_executed_sorted | exact Hfit].
  - unfold FCFS.run, FCFS.start_processing, FCFS._order_queue.
    cbn [FCFS.init FCFS._ready_queue]. rewrite Hs. now left.
  - now apply order_queue_terminated in Hs.
Qed.

Lemma on_nonempty_outcome {A : Type} (f : Process -> A)
  (run : list Process -> Z -> result (list Process * Z)) (q : list Process) (t : Z) :
  match run q t with
  | Ok (q', _) => map f q' ≡ₚ map f q
  | Raise e => order_queue q = Raise e \/ e = OverflowError
  | OutOfFuel => True
  end ->
  match on_nonempty run q t with
  | Ok (q', _) => map f q' ≡ₚ map f q
  | Raise e => e = ValueError \/ e = OverflowError
  | OutOfFuel => True
  end.
Proof.
  destruct q as [| p q]; [intros _; cbn [on_nonempty]; reflexivity |]. cbn [on_nonempty].
  destruct (run (p :: q) t) as [[q' t'] | e |]; try done.
  intros [H | H]; [| now right].
  destruct (order_queue_raises _ _ H) as [[_ ?] | [? _]]; [done | now left].
Qed.

Lemma MLQ_start_processing_outcome {A : Type} (f : Process -> A) (fuel : nat)
  (qs : list (list Process)) (t0 : Z) :
  (forall quantum now p, f (dispatched quantum now p) = f p) ->
  (forall t p, f (fcfs_executed t p) = f p) ->
  match MLQ.start_processing fuel (MLQ.mk qs t0) with
  | Ok s' => Forall2 (fun q q' => map f q' ≡ₚ map f q) qs (MLQ.__queues s')
  | Raise e => e = ValueError \/ e = OverflowError
  | OutOfFuel => True
  end.
Proof.
  intros Hrr Hfcfs. rewrite MLQ_start_processing_table.
  assert (HRR : forall quantum t q,
             match on_nonempty (RoundRobin.run fuel quantum) q t with
             | Ok (q', _) => map f q' ≡ₚ map f q
             | Raise e => e = ValueError \/ e = OverflowError
             | OutOfFuel => True
             end).
  { intros quantum t q. apply on_nonempty_outcome.
    pose proof (RR_run_outcome f fuel quantum t q Hrr) as H.
    destruct (RoundRobin.run fuel quantum q t) as [[q' t'] | e |]; try done. now left. }
  pose proof (HRR 3 t0 (nth 0 qs [])) as H1.
  destruct (on_nonempty (RoundRobin.run fuel 3) (nth 0 qs []) t0)
    as [[q1' t1] | |]; cbn [bind]; try done.
  pose proof (HRR 5 t1 (nth 1 qs [])) as H2.
  destruct (on_nonempty (RoundRobin.run fuel 5) (nth 1 qs []) t1)
    as [[q2' t2] | |]; cbn [bind]; try done.
  assert (H3 : match on_nonempty FCFS.run (nth 2 qs []) t2 with
               | Ok (q', _) => map f q' ≡ₚ map f (nth 2 qs [])
               | Raise e => e = ValueError \/ e = OverflowError
               | OutOfFuel => True
               end).
  { apply on_nonempty_outcome. pose proof (FCFS_run_outcome f t2 (nth 2 qs []) Hfcfs) as H.
    destruct (FCFS.run (nth 2 qs []) t2) as [[q' t'] | e |]; try done.
    destruct H as [H | [H _]]; [now left | now right]. }
  destruct (on_nonempty FCFS.run (nth 2 qs []) t2) as [[q3' t3] | |]; cbn [bind]; try done.
  cbn [MLQ.__queues].
  assert (Hrefl : forall rest : list (list Process),
             Forall2 (fun q q' => map f q' ≡ₚ map f q) rest rest).
  { intros rest. induction rest; now constructor. }
  destruct qs as [| q1 [| q2 [| q3 rest]]];
    cbn [nth length take drop app] in *; rewrite ?take_nil, ?app_nil_r.
  - constructor.
  - now repeat constructor.
  - now repeat constructor.
  - constructor; [done |]. constructor; [done |]. constructor; [done |]. apply Hrefl.
Qed.

(** X15.  What the engines raise.  The ordering step raises IndexError on
    the empty queue and ValueError on a tag it cannot read, and nothing
    else.  Round Robin raises only what its ordering step raises: the
    IndexError of the scan in [__next_process] is always caught and every
    process chosen is in the queue.  FCFS raises what its ordering step
    raises or, having executed the whole queue, the OverflowError of
    [_calculate_metrics] when one of the times does not convert to a float;
    the division there never meets zero.  The dispatcher skips empty
    queues, so ValueError and OverflowError are all it can raise. *)
Theorem engines_raise_only_ordering_errors :
  (forall q e, order_queue q = Raise e ->
               (e = IndexError /\ q = []) \/ (e = ValueError /\ q <> [])) /\
  (forall q t e,
     FCFS.run q t = Raise e ->
     order_queue q = Raise e \/
     (e = OverflowError /\
      exists q' t', FCFS_executed q t = Ok (q', t') /\ floats_fit q' = false)) /\
  (forall fuel quantum q t e,
     RoundRobin.run fuel quantum q t = Raise e -> order_queue q = Raise e) /\
  (forall fuel s e,
     MLQ.start_processing fuel s = Raise e -> e = ValueError \/ e = OverflowError).
Proof.
  split; [exact order_queue_raises |]. split; [| split].
  - intros q t e H.
    pose proof (FCFS_run_outcome input_fields t q fcfs_executed_input_fields) as Ho.
    now rewrite H in Ho.
  - intros fuel quantum q t e H.
    pose proof (RR_run_outcome input_fields fuel quantum t q dispatched_input_fields) as Ho.
    now rewrite H in Ho.
  - intros fuel [qs t0] e H.
    pose proof (MLQ_start_processing_outcome input_fields fuel qs t0
                  dispatched_input_fields fcfs_executed_input_fields) as Ho.
    now rewrite H in Ho.
Qed.

(** X16.  The dispatcher keeps what the input file said.  Whatever the
    queues hold, when [start_processing] returns, every queue holds the
    processes it went in with, each with the tag, BT, AT, queue number and
    priority it had, possibly in another order: the engines write TE, RT,
    WT, CT, TAT, the end time and the done flag only. *)
Theorem MLQ_keeps_input_fields (fuel : nat) (qs : list (list Process)) (t0 : Z)
  (s' : MLQ.t) :
  MLQ.start_processing fuel (MLQ.mk qs t0) = Ok s' ->
  Forall2 (fun q q' => map input_fields q' ≡ₚ map input_fields q) qs (MLQ.__queues s').
Proof.
  intros H.
  pose proof (MLQ_start_processing_outcome input_fields fuel qs t0
                dispatched_input_fields fcfs_executed_input_fields) as Ho.
  now rewrite H in Ho.
Qed.

Lemma MLQ_keeps_input_fields_witness :
  Forall2 (fun q q' => map input_fields q' ≡ₚ map input_fields q)
    (MLQ.__queues sample_state) (MLQ.__queues sample_done).
Proof.
  exact (MLQ_keeps_input_fields 10 (MLQ.__queues sample_state) 0 sample_done sample_run).
Defined.

(** ** The dispatcher: the results file *)

Ltac pair_eq :=
  repeat match goal with |- (_, _) = (_, _) => apply f_equal2 end;
  try reflexivity; try lia.

Lemma total_app (field : PCB -> Z) (q q' : list Process) :
  total field (q ++ q') = total field q + total field q'.
Proof. induction q as [| p q IH]; simpl; [done |]. rewrite IH. lia. Qed.

Lemma py_str_cases (n : Z) : (exists x, py_str n = Ok x) \/ py_str n = Raise ValueError.
Proof. unfold py_str. destruct (_ <=? _); eauto. Qed.

Lemma float_limit_digits : float_limit <= 10 ^ Z.of_nat max_str_digits.
Proof. apply Z.leb_le. vm_compute. reflexivity. Qed.

Lemma py_str_fits (n : Z) : fits_float n = true -> exists x, py_str n = Ok x.
Proof.
  unfold fits_float, py_str. intros H. apply Z.ltb_lt in H.
  pose proof float_limit_digits.
  destruct (Z.leb_spec (10 ^ Z.of_nat max_str_digits) (Z.abs n)); [lia | eauto].
Qed.

(** A line is written or the f-string raises ValueError. *)
Lemma metrics_line_cases (p : Process) :
  (exists row, MLQ.metrics_line p = Ok row) \/ MLQ.metrics_line p = Raise ValueError.
Proof.
  unfold MLQ.metrics_line. cbv zeta.
  destruct (py_str_cases (get_bt (get_pcb p))) as [[? ->] | ->]; [| now right].
  destruct (py_str_cases (get_at (get_pcb p))) as [[? ->] | ->]; [| now right].
  destruct (py_str_cases (get_queue (get_pcb p))) as [[? ->] | ->]; [| now right].
  destruct (py_str_cases (get_wt (get_pcb p))) as [[? ->] | ->]; [| now right].
  destruct (py_str_cases (get_ct (get_pcb p))) as [[? ->] | ->]; [| now right].
  destruct (py_str_cases (get_rt (get_pcb p))) as [[? ->] | ->]; [| now right].
  destruct (py_str_cases (get_tat (get_pcb p))) as [[? ->] | ->]; [| now right].
  left. cbn [bind]. eauto.
Qed.

Lemma metrics_line_fits (p : Process) :
  metrics_fit p = true -> exists row, MLQ.metrics_line p = Ok row.
Proof.
  unfold metrics_fit. cbv zeta. rewrite !andb_true_iff.
  intros [[[[[[H1 H2] H3] H4] H5] H6] H7].
  unfold MLQ.metrics_line. cbv zeta.
  destruct (py_str_fits _ H1) as [? ->]. destruct (py_str_fits _ H2) as [? ->].
  destruct (py_str_fits _ H3) as [? ->]. destruct (py_str_fits _ H4) as [? ->].
  destruct (py_str_fits _ H5) as [? ->]. destruct (py_str_fits _ H6) as [? ->].
  destruct (py_str_fits _ H7) as [? ->]. cbn [bind]. eauto.
Qed.

(** The loop over one queue, when every line is written. *)
Lemma write_queue_rows (q : list Process) :
  forall (rows written : list string) (a b c d n : Z),
    Forall2 (fun p row => MLQ.metrics_line p = Ok row) q rows ->
    MLQ.write_queue q (written, (a, b, c, d), n) =
    ((written ++ rows,
      (a + total get_wt q, b + total get_ct q, c + total get_rt q, d + total get_tat q),
      n + Z.of_nat (length q)), Ok tt).
Proof.
  induction q as [| p q IH]; intros rows written a b c d n H.
  - apply Forall2_nil_inv_l in H as ->.
    cbn [MLQ.write_queue total foldr length]. rewrite app_nil_r. pair_eq.
  - apply Forall2_cons_inv_l in H as (row & rows' & Hrow & Hrows & ->).
    cbn [MLQ.write_queue]. rewrite Hrow, (IH rows' _ _ _ _ _ _ Hrows).
    change (total ?f (p :: q)) with (f (get_pcb p) + total f q).
    cbn [length]. rewrite <- app_assoc. cbn [app]. pair_eq.
Qed.

(** The loop over one queue, when a line raises: the lines before it are
    written and the loop is left. *)
Lemma write_queue_raises (pre post : list Process) (p : Process) (e : exn) :
  forall (rows written : list string) (a b c d n : Z),
    Forall2 (fun p row => MLQ.metrics_line p = Ok row) pre rows ->
    MLQ.metrics_line p = Raise e ->
    exists totals m,
      MLQ.write_queue (pre ++ p :: post) (written, (a, b, c, d), n) =
      ((written ++ rows, totals, m), Raise e).
Proof.
  induction pre as [| x pre IH]; intros rows written a b c d n H He.
  - apply Forall2_nil_inv_l in H as ->.
    cbn [app MLQ.write_queue]. rewrite He, app_nil_r. eauto.
  - apply Forall2_cons_inv_l in H as (row & rows' & Hrow & Hrows & ->).
    cbn [app MLQ.write_queue]. rewrite Hrow.
    destruct (IH rows' (written ++ [row]) (a + get_wt (get_pcb x)) (b + get_ct (get_pcb x))
                (c + get_rt (get_pcb x)) (d + get_tat (get_pcb x)) (n + 1) Hrows He)
      as (totals & m & ->).
    rewrite <- app_assoc. cbn [app]. eauto.
Qed.

Lemma write_queue_app (q q' : list Process) :
  forall acc : list string * (Z * Z * Z * Z) * Z,
    MLQ.write_queue (q ++ q') acc =
    match MLQ.write_queue q acc with
    | (acc', Ok _) => MLQ.write_queue q' acc'
    | (acc', r) => (acc', r)
    end.
Proof.
  induction q as [| p q IH]; intros [[written [[[a b] c] d]] n]; [reflexivity |].
  cbn [app MLQ.write_queue].
  destruct (MLQ.metrics_line p); [apply IH | reflexivity | reflexivity].
Qed.

(** The two nested loops are one loop over the queues put end to end. *)
Lemma write_queues_concat (qs : list (list Process)) :
  forall acc : list string * (Z * Z * Z * Z) * Z,
    MLQ.write_queues qs acc = MLQ.write_queue (concat qs) acc.
Proof.
  induction qs as [| q qs IH]; intros acc; [reflexivity |].
  cbn [MLQ.write_queues concat]. rewrite write_queue_app.
  destruct (MLQ.write_queue q acc) as [acc' [[] | e |]]; [apply IH | reflexivity | reflexivity].
Qed.

(** [get_metrics] when every process line is written: the averages line
    follows, unless a quotient raises. *)
Lemma get_metrics_rows (s : MLQ.t) (rows : list string) :
  let processes := concat (MLQ.__queues s) in
  Forall2 (fun p row => MLQ.metrics_line p = Ok row) processes rows ->
  MLQ.get_metrics s =
  match MLQ.averages_line (total get_wt processes) (total get_ct processes)
          (total get_rt processes) (total get_tat processes)
          (Z.of_nat (length processes)) with
  | Ok line => (MLQ.metrics_header :: rows ++ [line], Ok tt)
  | Raise e => (MLQ.metrics_header :: rows, Raise e)
  | OutOfFuel => (MLQ.metrics_header :: rows, OutOfFuel)
  end.
Proof.
  intros processes H. unfold MLQ.get_metrics.
  rewrite write_queues_concat. fold processes.
  rewrite (write_queue_rows processes rows _ _ _ _ _ _ H). cbn [app].
  rewrite !Z.add_0_l. reflexivity.
Qed.

(** [get_metrics] when a process line raises: the file ends with the line
    before it. *)
Lemma get_metrics_raises (s : MLQ.t) (k : nat) (p : Process) (rows : list string)
  (e : exn) :
  let processes := concat (MLQ.__queues s) in
  processes !! k = Some p ->
  Forall2 (fun p row => MLQ.metrics_line p = Ok row) (take k processes) rows ->
  MLQ.metrics_line p = Raise e ->
  MLQ.get_metrics s = (MLQ.metrics_header :: rows, Raise e).
Proof.
  intros processes Hp Hrows He. unfold MLQ.get_metrics.
  rewrite write_queues_concat. fold processes.
  rewrite <- (take_drop_middle processes k p Hp).
  destruct (write_queue_raises (take k processes) (drop (S k) processes) p e rows
              [MLQ.metrics_header] 0 0 0 0 0)
    as ([[[a b] c] d] & m & ->); [exact Hrows | exact He |].
  reflexivity.
Qed.

Lemma total_bound (field : PCB -> Z) (q : list Process) :
  Forall (fun p => fits_float (field (get_pcb p)) = true) q ->
  Z.abs (total field q) <= (float_limit - 1) * Z.of_nat (length q).
Proof.
  induction 1 as [| p q Hp _ IH]; [simpl; lia |].
  change (total field (p :: q)) with (field (get_pcb p) + total field q).
  cbn [length]. unfold fits_float in Hp. apply Z.ltb_lt in Hp. lia.
Qed.

Lemma true_divide_fits (a n : Z) :
  0 < n -> Z.abs a <= (float_limit - 1) * n -> exists x, true_divide a n = Ok x.
Proof.
  intros Hn Ha. unfold true_divide.
  destruct (Z.eqb_spec n 0); [lia |].
  destruct (Z.leb_spec (float_limit * Z.abs n) (Z.abs a)); [nia | eauto].
Qed.

Lemma averages_line_fits (q : list Process) :
  q <> [] -> forallb metrics_fit q = true ->
  exists line,
    MLQ.averages_line (total get_wt q) (total get_ct q) (total get_rt q) (total get_tat q)
      (Z.of_nat (length q)) = Ok line.
Proof.
  intros Hne Hfit.
  assert (Hn : 0 < Z.of_nat (length q)) by (destruct q; [done | simpl; lia]).
  assert (Hall : Forall (fun p => metrics_fit p = true) q).
  { apply List.Forall_forall. now apply forallb_forall. }
  assert (H : forall field : PCB -> Z,
             (forall p, metrics_fit p = true -> fits_float (field (get_pcb p)) = true) ->
             exists x, true_divide (total field q) (Z.of_nat (length q)) = Ok x).
  { intros field Hf. apply true_divide_fits; [exact Hn |]. apply total_bound.
    eapply Forall_impl; [exact Hall | exact Hf]. }
  unfold MLQ.averages_line.
  destruct (H get_wt) as [? ->].
  { intros p. unfold metrics_fit. cbv zeta. rewrite !andb_true_iff. tauto. }
  destruct (H get_ct) as [? ->].
  { intros p. unfold metrics_fit. cbv zeta. rewrite !andb_true_iff. tauto. }
  destruct (H get_rt) as [? ->].
  { intros p. unfold metrics_fit. cbv zeta. rewrite !andb_true_iff. tauto. }
  destruct (H get_tat) as [? ->].
  { intros p. unfold metrics_fit. cbv zeta. rewrite !andb_true_iff. tauto. }
  cbn [bind]. eauto.
Qed.

Lemma rows_fit (q : list Process) :
  forallb metrics_fit q = true ->
  exists rows, Forall2 (fun p row => MLQ.metrics_line p = Ok row) q rows.
Proof.
  induction q as [| p q IH]; [exists []; constructor |].
  cbn [forallb]. rewrite andb_true_iff. intros [Hp Hq].
  destruct (metrics_line_fits p Hp) as [row Hrow]. destruct (IH Hq) as [rows Hrows].
  exists (row :: rows). now constructor.
Qed.

Lemma Forall2_fields_concat {A : Type} (f : Process -> A) (qs qs' : list (list Process)) :
  Forall2 (fun q q' => map f q' ≡ₚ map f q) qs qs' ->
  length (concat qs') = length (concat qs).
Proof.
  induction 1 as [| q q' qs qs' Hq _ IH]; [done |].
  simpl. rewrite !length_app, IH. f_equal.
  apply Permutation_length in Hq. now rewrite !length_map in Hq.
Qed.

(** X14.  The results file.  For a file of at most three queues that the
    dispatcher has read and run (so that every process was executed),
    [get_metrics] writes the header and then one line per process line of
    the input (every line after the first two), the queues in order and each
    queue in the order its engine left it, followed by the line of the four
    averages: the totals of WT, CT, RT and TAT over all processes divided by
    the number of process lines, printed with two decimals.  When a process
    line cannot be printed (an integer beyond the digit limit of [str]) the
    file ends with the line before it and ValueError is raised.  When the
    input has no process line, the division by [num_processes] raises
    ZeroDivisionError after the header has been written; when a total is
    beyond the float range the division raises OverflowError after the
    process lines have been written.  With numbers within the float range
    and one process line at least, [get_metrics] returns and the file is
    complete. *)
Theorem MLQ_get_metrics_outcome (lines : list string) (fuel : nat) (s s' : MLQ.t) :
  MLQ.init lines = Ok s ->
  (length (MLQ.__queues s) <= 3)%nat ->
  MLQ.start_processing fuel s = Ok s' ->
  let processes := concat (MLQ.__queues s') in
  let averages :=
    MLQ.averages_line (total get_wt processes) (total get_ct processes)
      (total get_rt processes) (total get_tat processes)
      (Z.of_nat (length lines - 2)) in
  length processes = (length lines - 2)%nat /\
  (forall rows : list string,
     Forall2 (fun p row => MLQ.metrics_line p = Ok row) processes rows ->
     MLQ.get_metrics s' =
     match averages with
     | Ok line => (MLQ.metrics_header :: rows ++ [line], Ok tt)
     | Raise e => (MLQ.metrics_header :: rows, Raise e)
     | OutOfFuel => (MLQ.metrics_header :: rows, OutOfFuel)
     end) /\
  (forall (k : nat) (p : Process) (rows : list string) (e : exn),
     processes !! k = Some p ->
     Forall2 (fun p row => MLQ.metrics_line p = Ok row) (take k processes) rows ->
     MLQ.metrics_line p = Raise e ->
     e = ValueError /\ MLQ.get_metrics s' = (MLQ.metrics_header :: rows, Raise e)) /\
  ((length lines <= 2)%nat ->
   MLQ.get_metrics s' = ([MLQ.metrics_header], Raise ZeroDivisionError)) /\
  ((2 < length lines)%nat -> forallb metrics_fit processes = true ->
   exists (rows : list string) (line : string),
     Forall2 (fun p row => MLQ.metrics_line p = Ok row) processes rows /\
     averages = Ok line /\
     MLQ.get_metrics s' = (MLQ.metrics_header :: rows ++ [line], Ok tt)).
Proof.
  intros Hinit Hqueues Hrun processes averages.
  assert (Hlen : length processes = (length lines - 2)%nat).
  { unfold processes. destruct s as [qs t0].
    pose proof (MLQ_start_processing_outcome input_fields fuel qs t0
                  dispatched_input_fields fcfs_executed_input_fields) as Hkept.
    rewrite Hrun in Hkept. rewrite (Forall2_fields_concat _ _ _ Hkept).
    unfold MLQ.init, MLQ.__read_file in Hinit. inv_bind Hinit. injection Hinit as <- _.
    inv_bind Ha. destruct a0 as [ps m]. cbn [MLQ.__queues].
    destruct (read_lines_spec _ _ _ _ _ _ (Z.le_refl 0) Ha0) as (new & Hnew & HF & _).
    simpl in Hnew. subst new. change (Z.to_nat (2 - 0)) with 2%nat in HF.
    apply distribute_concat in Ha as [_ Hperm].
    rewrite concat_empty_queues in Hperm. cbn [app] in Hperm.
    rewrite (Permutation_length Hperm).
    apply Forall2_length in HF. rewrite <- HF. apply length_drop. }
  assert (Hrows : forall rows : list string,
             Forall2 (fun p row => MLQ.metrics_line p = Ok row) processes rows ->
             MLQ.get_metrics s' =
             match averages with
             | Ok line => (MLQ.metrics_header :: rows ++ [line], Ok tt)
             | Raise e => (MLQ.metrics_header :: rows, Raise e)
             | OutOfFuel => (MLQ.metrics_header :: rows, OutOfFuel)
             end).
  { intros rows H. rewrite (get_metrics_rows s' rows H). fold processes.
    unfold averages. now rewrite Hlen. }
  split; [exact Hlen |]. split; [exact Hrows |]. split; [| split].
  - intros k p rows e Hp Hpre He. split.
    + destruct (metrics_line_cases p) as [[row Hrow] | Hrow]; congruence.
    + exact (get_metrics_raises s' k p rows e Hp Hpre He).
  - intros Hshort.
    assert (Hnil : processes = []) by (apply length_zero_iff_nil; lia).
    rewrite (Hrows []) by (rewrite Hnil; constructor).
    unfold averages. replace (length lines - 2)%nat with O by lia. reflexivity.
  - intros Hlong Hfit.
    destruct (rows_fit processes Hfit) as [rows Hr].
    destruct (averages_line_fits processes) as [line Hline]; [| exact Hfit |].
    { intros Hnil. rewrite Hnil in Hlen. simpl in Hlen. lia. }
    rewrite Hlen in Hline. fold averages in Hline.
    exists rows, line. split; [exact Hr |]. split; [exact Hline |].
    rewrite (Hrows rows Hr), Hline. reflexivity.
Qed.

Lemma MLQ_get_metrics_outcome_witness :
  let processes := concat (MLQ.__queues sample_done) in
  let averages :=
    MLQ.averages_line (total get_wt processes) (total get_ct processes)
      (total get_rt processes) (total get_tat processes)
      (Z.of_nat (length sample_lines - 2)) in
  length processes = (length sample_lines - 2)%nat /\
  (forall rows : list string,
     Forall2 (fun p row => MLQ.metrics_line p = Ok row) processes rows ->
     MLQ.get_metrics sample_done =
     match averages with
     | Ok line => (MLQ.metrics_header :: rows ++ [line], Ok tt)
     | Raise e => (MLQ.metrics_header :: rows, Raise e)
     | OutOfFuel => (MLQ.metrics_header :: rows, OutOfFuel)
     end) /\
  (forall (k : nat) (p : Process) (rows : list string) (e : exn),
     processes !! k = Some p ->
     Forall2 (fun p row => MLQ.metrics_line p = Ok row) (take k processes) rows ->
     MLQ.metrics_line p = Raise e ->
     e = ValueError /\
     MLQ.get_metrics sample_done = (MLQ.metrics_header :: rows, Raise e)) /\
  ((length sample_lines <= 2)%nat ->
   MLQ.get_metrics sample_done = ([MLQ.metrics_header], Raise ZeroDivisionError)) /\
  ((2 < length sample_lines)%nat -> forallb metrics_fit processes = true ->
   exists (rows : list string) (line : string),
     Forall2 (fun p row => MLQ.metrics_line p = Ok row) processes rows /\
     averages = Ok line /\
     MLQ.get_metrics sample_done = (MLQ.metrics_header :: rows ++ [line], Ok tt)).
Proof.
  apply (MLQ_get_metrics_outcome sample_lines 10 sample_state sample_done sample_init);
    [vm_compute; lia | exact sample_run].
Defined.

(** The results file of the sample input. *)
Example sample_results_file :
  MLQ.get_metrics sample_done =
  ([MLQ.metrics_header;
    ("p1; 10; 0; 1; 5; 0; 10; 0; 10" ++ nl)%string;
    ("p2; 2; 0; 2;  4; 10; 12; 10; 12" ++ nl)%string;
    ("WT=5.00; CT=11.00; RT=5.00; TAT=11.00;" ++ nl)%string], Ok tt).
Proof. vm_compute. reflexivity. Qed.

(** A completion time beyond the float range, in a queue that Round Robin
    ran: the process line is written (the number has 309 digits, within the
    digit limit), then the division raises OverflowError and the averages
    line is missing. *)
Example results_file_overflow :
  let p := mkProcess "p1" (mkPCB 0 (2 ^ 1024) (2 ^ 1024) (2 ^ 1024) 0 0 (2 ^ 1024)
                                 (2 ^ 1024) 1 "1" true) in
  exists row,
    MLQ.metrics_line p = Ok row /\
    MLQ.get_metrics (MLQ.mk [[p]] (2 ^ 1024)) = ([MLQ.metrics_header; row], Raise OverflowError).
Proof. eexists. split; vm_compute; reflexivity. Qed.

(** ** Round Robin against FCFS *)

Lemma first_slices_le (quantum : Z) (q : list Process) :
  first_slices quantum q <= sum_bt q.
Proof. induction q as [| p q IH]; simpl; lia. Qed.

Lemma descriptor_lookup_tag (q s : list Process) (i : nat) (p x : Process) :
  map descriptor q = map descriptor s ->
  q !! i = Some p -> s !! i = Some x -> get_tag p = get_tag x.
Proof.
  intros Hd Hp Hx.
  assert (H : map descriptor q !! i = Some (descriptor x)).
  { rewrite Hd, list_lookup_fmap, Hx. reflexivity. }
  rewrite list_lookup_fmap, Hp in H. simpl in H. unfold descriptor in H. congruence.
Qed.

(** X17.  Round Robin answers no later than FCFS.  On the same queue of
    fresh processes with positive BT, from the same start time t0 >= 0, both
    engines end at the same clock and order the queue the same way, and the
    process at each position has under Round Robin (any positive quantum) a
    response time that is at most its response time under FCFS.  FCFS
    answers with the queue it has executed, or with the OverflowError of
    [_calculate_metrics] on times beyond the float range. *)
Theorem RR_responds_no_later_than_FCFS (fuel : nat) (quantum t0 : Z)
  (q s : list Process) :
  0 < quantum -> 0 <= t0 ->
  Forall (fun p => fresh p /\ 0 < get_bt (get_pcb p)) q ->
  order_queue q = Ok s ->
  sum_bt q <= Z.of_nat fuel ->
  exists qr qf t,
    RoundRobin.run fuel quantum q t0 = Ok (qr, t) /\
    FCFS_executed q t0 = Ok (qf, t) /\
    FCFS.run q t0 = FCFS_returns qf t /\
    length qr = length qf /\
    forall (i : nat) (pr pf : Process),
      qr !! i = Some pr -> qf !! i = Some pf ->
      get_tag pr = get_tag pf /\ get_rt (get_pcb pr) <= get_rt (get_pcb pf).
Proof.
  intros HQ H0 Hq Hs Hfuel.
  destruct (RR_run_response fuel quantum t0 q s HQ H0 Hq Hs Hfuel)
    as (qr & t' & Hrun & Hdesc & Hrt).
  destruct (RR_run_end fuel quantum t0 q s HQ Hq Hs Hfuel) as (qr' & Hrun' & _).
  assert (t' = t0 + sum_bt q) by congruence. subst t'.
  exists qr, (fcfs_schedule t0 s), (t0 + sum_bt q).
  split; [exact Hrun |]. split; [now apply FCFS_executed_sorted |].
  split; [now apply FCFS_run_sorted |].
  split.
  { rewrite fcfs_schedule_length, <- (length_map descriptor qr), Hdesc. apply length_map. }
  intros i pr pf Hpr Hpf.
  assert (Hi : (i < length s)%nat).
  { rewrite <- (fcfs_schedule_length t0). eapply lookup_lt_Some, Hpf. }
  destruct (lookup_lt_is_Some_2 s i Hi) as [x Hx].
  rewrite (fcfs_schedule_lookup _ _ _ _ Hx) in Hpf. injection Hpf as <-.
  split.
  - rewrite (descriptor_lookup_tag _ _ _ _ _ Hdesc Hpr Hx). reflexivity.
  - rewrite (Hrt _ _ Hpr). pose proof (first_slices_le quantum (take i s)).
    destruct_process x. pcb_cbv. simpl. lia.
Qed.

Lemma RR_responds_no_later_than_FCFS_witness :
  exists qr qf t,
    RoundRobin.run 8 2 rr_scenario 0 = Ok (qr, t) /\
    FCFS_executed rr_scenario 0 = Ok (qf, t) /\
    FCFS.run rr_scenario 0 = FCFS_returns qf t /\
    length qr = length qf /\
    forall (i : nat) (pr pf : Process),
      qr !! i = Some pr -> qf !! i = Some pf ->
      get_tag pr = get_tag pf /\ get_rt (get_pcb pr) <= get_rt (get_pcb pf).
Proof.
  apply (RR_responds_no_later_than_FCFS 8 2 0 rr_scenario rr_scenario eq_refl);
    [discriminate | exact rr_scenario_fresh | reflexivity | discriminate].
Defined.

(** ** Round Robin: the rounds *)

Lemma sum_te_rounds (quantum r : Z) (q : list Process) :
  forall c : nat,
    in_round quantum r c q ->
    sum_te q = executed_by quantum (r + 1) (take c q) + executed_by quantum r (drop c q).
Proof.
  induction q as [| x q IH]; intros c H.
  - now rewrite take_nil, drop_nil.
  - pose proof (H O x eq_refl) as Hx.
    assert (Htail : forall c', (forall j, (S j <? c)%nat = (j <? c')%nat) ->
                               in_round quantum r c' q).
    { intros c' Hc j p Hp. rewrite (H (S j) p Hp), Hc. reflexivity. }
    destruct c as [| c].
    + cbn [take drop executed_by foldr sum_te] in *. fold (sum_te q).
      fold (executed_by quantum r q).
      rewrite (IH O (Htail O (fun j => eq_refl))).
      rewrite take_0, drop_0. cbn [executed_by foldr]. fold (executed_by quantum r q).
      cbn [Nat.ltb Nat.leb] in Hx. lia.
    + cbn [take drop executed_by foldr sum_te] in *. fold (sum_te q).
      fold (executed_by quantum (r + 1) (take c q)).
      fold (executed_by quantum r (drop c q)).
      rewrite (IH c (Htail c (fun j => eq_refl))).
      cbn [Nat.ltb Nat.leb] in Hx. lia.
Qed.

Lemma executed_by_descriptor (quantum rounds : Z) (q q' : list Process) :
  map descriptor q = map descriptor q' ->
  executed_by quantum rounds q = executed_by quantum rounds q'.
Proof.
  revert q'. induction q as [| p q IH]; intros [| p' q'] H; try discriminate; [done |].
  simpl in H. injection H as Htag Hat Hbt H. simpl. rewrite (IH _ H). lia.
Qed.

Lemma executed_by_take (quantum rounds : Z) (n : nat) (q q' : list Process) :
  map descriptor q = map descriptor q' ->
  executed_by quantum rounds (take n q) = executed_by quantum rounds (take n q').
Proof.
  intros H. apply executed_by_descriptor.
  change (descriptor <$> take n q = descriptor <$> take n q').
  change (descriptor <$> q = descriptor <$> q') in H.
  now rewrite !fmap_take, H.
Qed.

Lemma executed_by_drop (quantum rounds : Z) (n : nat) (q q' : list Process) :
  map descriptor q = map descriptor q' ->
  executed_by quantum rounds (drop n q) = executed_by quantum rounds (drop n q').
Proof.
  intros H. apply executed_by_descriptor.
  change (descriptor <$> drop n q = descriptor <$> drop n q').
  change (descriptor <$> q = descriptor <$> q') in H.
  now rewrite !fmap_drop, H.
Qed.

Lemma slices_needed_in_round (quantum r : Z) (p : Process) :
  0 < quantum ->
  r * quantum < get_bt (get_pcb p) <= (r + 1) * quantum ->
  slices_needed quantum p = r + 1.
Proof.
  intros HQ Hr. unfold slices_needed. symmetry.
  apply (Z.div_unique _ _ _ (get_bt (get_pcb p) - 1 - r * quantum)); lia.
Qed.

Lemma live_finished (p : Process) :
  live p -> finished p -> get_te (get_pcb p) = get_bt (get_pcb p).
Proof. intros (_ & _ & Hl) Hf. unfold finished in Hf. now rewrite Hf in Hl. Qed.

(** When the scan has chosen position [i], the processes it passed over are
    done, so the queue is as if the round had come to [i]. *)
Lemma in_round_next (quantum r : Z) (c i : nat) (q : list Process) :
  0 < quantum -> 0 <= r -> Forall live q ->
  in_round quantum r c q ->
  next_in_round c q (Some (Z.of_nat i)) ->
  exists r', 0 <= r' /\ in_round quantum r' i q.
Proof.
  intros HQ Hr Hlive H (i0 & Hi0 & Hcases).
  apply Nat2Z.inj in Hi0. subst i0. rewrite Forall_lookup in Hlive.
  destruct Hcases as [[Hci Hbetween] | (Hic & Hafter & Hbefore)].
  - exists r. split; [done |]. intros j x Hx. pose proof (H j x Hx) as Hj.
    destruct (Nat.ltb_spec j i) as [Hji | Hji], (Nat.ltb_spec j c) as [Hjc | Hjc];
      try lia; try exact Hj.
    pose proof (live_finished x (Hlive j x Hx) (Hbetween j x (conj Hjc Hji) Hx)). lia.
  - exists (r + 1). split; [lia |]. intros j x Hx. pose proof (H j x Hx) as Hj.
    destruct (Nat.ltb_spec j i) as [Hji | Hji], (Nat.ltb_spec j c) as [Hjc | Hjc];
      try lia; try exact Hj.
    + pose proof (live_finished x (Hlive j x Hx) (Hbefore j x Hji Hx)). lia.
    + pose proof (live_finished x (Hlive j x Hx) (Hafter j x Hjc Hx)). lia.
Qed.

(** A dispatch gives the process at position [i] its next slice. *)
Lemma in_round_dispatched (quantum r now : Z) (i : nat) (q : list Process) (p : Process) :
  0 < quantum -> live p -> is_done (get_pcb p) = false ->
  q !! i = Some p ->
  in_round quantum r i q ->
  r * quantum < get_bt (get_pcb p) /\
  (finishes quantum p = true -> get_bt (get_pcb p) <= (r + 1) * quantum) /\
  in_round quantum r (S i) (<[i := dispatched quantum now p]> q).
Proof.
  intros HQ Hl Hd Hp H.
  pose proof (H i p Hp) as Hte. rewrite Nat.ltb_irrefl in Hte.
  pose proof (dispatched_facts quantum now p HQ Hl Hd)
    as (_ & _ & _ & _ & Hbt' & Hte' & _).
  cbv zeta in *.
  destruct Hl as (_ & _ & Hl). rewrite Hd in Hl.
  assert (Hfin : finishes quantum p = true ->
                 get_bt (get_pcb p) <= (r + 1) * quantum).
  { unfold finishes. intros E. apply andb_true_iff in E as [_ E].
    apply Z.leb_le in E. lia. }
  split; [lia |]. split; [exact Hfin |].
  intros j x Hx. destruct (decide (j = i)) as [-> | Hne].
  - rewrite list_lookup_insert_eq in Hx by (eapply lookup_lt_Some, Hp).
    injection Hx as <-. rewrite (proj2 (Nat.ltb_lt i (S i)) (Nat.lt_succ_diag_r i)).
    rewrite Hte', Hbt'. unfold slice_len.
    destruct (finishes quantum p) eqn:E.
    + specialize (Hfin eq_refl). lia.
    + unfold finishes in E. apply andb_false_iff in E. rewrite !Z.leb_gt in E. lia.
  - rewrite list_lookup_insert_ne in Hx by done. rewrite (H j x Hx).
    destruct (Nat.ltb_spec j i), (Nat.ltb_spec j (S i)); try lia; reflexivity.
Qed.

(** X18.  The completion times of Round Robin in closed form.  With a
    positive quantum, on fresh processes with positive BT, the loop serves
    the ordered queue in rounds, each process not yet done getting one slice
    per round in queue order.  The process at position [i], which needs
    k = ceil(BT / quantum) slices, completes when it and the processes
    before it have had [k] slices and the processes after it [k - 1]:
    CT = t0 + sum over j <= i of min(BT_j, k * quantum)
            + sum over j > i of min(BT_j, (k - 1) * quantum). *)
Theorem RR_completion_time (fuel : nat) (quantum t0 : Z) (q s : list Process) :
  0 < quantum ->
  Forall (fun p => fresh p /\ 0 < get_bt (get_pcb p)) q ->
  order_queue q = Ok s ->
  sum_bt q <= Z.of_nat fuel ->
  exists q' t',
    RoundRobin.run fuel quantum q t0 = Ok (q', t') /\
    map descriptor q' = map descriptor s /\
    forall (i : nat) (p : Process),
      q' !! i = Some p ->
      get_ct (get_pcb p) = rr_completion quantum t0 s i p.
Proof.
  intros HQ Hq Hs Hfuel.
  destruct (RR_run_total fuel quantum t0 q s HQ Hq Hs Hfuel) as (q' & t' & Hrun).
  destruct (RR_run_rtc _ _ _ _ _ _ Hrun) as (s1 & sf & Hs1 & Hrtc & <- & <-).
  assert (s1 = s) by congruence. subst s1.
  pose proof (ordered_inv quantum t0 q s HQ Hq Hs) as Hinv0.
  pose proof (order_queue_Permutation _ _ Hs) as HP.
  assert (Hwf : Forall (fun p => fresh p /\ 0 < get_bt (get_pcb p)) s) by now rewrite <- HP.
  destruct (rr_pair_invariant
    (fun x =>
       RoundRobin.__quantum (fst x) = quantum /\
       map descriptor (RoundRobin.__queue (fst x)) = map descriptor s /\
       RoundRobin.__time (fst x) = t0 + sum_te (RoundRobin.__queue (fst x)) /\
       (forall j p, RoundRobin.__queue (fst x) !! j = Some p ->
                    is_done (get_pcb p) = true ->
                    get_ct (get_pcb p) = rr_completion quantum t0 s j p) /\
       exists (r : Z) (c : nat),
         0 <= r /\ in_round quantum r c (RoundRobin.__queue (fst x)) /\
         next_in_round c (RoundRobin.__queue (fst x)) (snd x)))
    with (x := (ordered quantum t0 s, Some 0)) (y := (sf, @None Z))
    as [(_ & _ & _ & Hdone) (_ & Hdesc & _ & Hct & _)]; try done.
  - intros st i p (HQs & _ & Hl & _) (HQe & Hd & Ht & Hct & r & c & Hr & Hround & Hnext)
      Hp Hnd.
    cbn [fst snd] in *.
    assert (Hlp : live p) by (eapply Forall_lookup_1; eassumption).
    destruct (in_round_next quantum r c i _ HQ Hr Hl Hround Hnext) as (r' & Hr' & Hround').
    pose proof (dispatched_facts _ (RoundRobin.__time st) p HQs Hlp Hnd)
      as (_ & _ & Htag & Hat & Hbtp & Hte & _ & Hfinishes & _ & _ & Hmarked).
    cbv zeta in *. rewrite HQe in *.
    destruct (in_round_dispatched quantum r' (RoundRobin.__time st) i _ p
                HQ Hlp Hnd Hp Hround') as (Hlow & Hhigh & Hround'').
    cbn [after_dispatch RoundRobin.__time RoundRobin.__queue RoundRobin.__quantum].
    rewrite HQe.
    assert (Hd' : map descriptor
                    (<[i := dispatched quantum (RoundRobin.__time st) p]>
                       (RoundRobin.__queue st)) = map descriptor s).
    { rewrite <- Hd. rewrite list_fmap_insert.
      apply list_insert_id. rewrite list_lookup_fmap, Hp. simpl.
      unfold descriptor. now rewrite Htag, Hat, Hbtp. }
    assert (Ht' : RoundRobin.__time st + slice_len quantum p
                  = t0 + sum_te (<[i := dispatched quantum (RoundRobin.__time st) p]>
                                   (RoundRobin.__queue st))).
    { rewrite (sum_te_insert _ _ _ _ Hp), Hte. lia. }
    split; [done |]. split; [exact Hd' |]. split; [exact Ht' |]. split.
    + intros j x Hx Hxd. destruct (decide (j = i)) as [-> | Hne].
      * rewrite list_lookup_insert_eq in Hx by (eapply lookup_lt_Some, Hp).
        injection Hx as <-. destruct (Hmarked Hxd) as (Hctx & _).
        rewrite Hctx, Ht'. rewrite (sum_te_rounds _ _ _ _ Hround'').
        unfold rr_completion.
        rewrite (slices_needed_in_round quantum r').
        2: done.
        2:{ rewrite Hbtp. split; [done |]. apply Hhigh. now rewrite <- Hfinishes. }
        replace (r' + 1 - 1) with r' by lia.
        rewrite (executed_by_take _ _ (S i) _ s Hd').
        rewrite (executed_by_drop _ _ (S i) _ s Hd').
        lia.
      * rewrite list_lookup_insert_ne in Hx by done. now apply Hct.
    + exists r', (S i). split; [done |]. split; [exact Hround'' |].
      pose proof (circular_next_cases
                    (<[i := dispatched quantum (RoundRobin.__time st) p]>
                       (RoundRobin.__queue st)) i) as Hc.
      destruct (circular_next _ i) as [j |]; [| done].
      destruct Hc as (i' & p' & -> & _ & _ & Hcases). exists i'. split; [done |].
      destruct Hcases as [[Hlt Hbetween] | (Hle & Hafter & Hbefore)].
      * left. split; [lia |]. intros m x Hm. apply Hbetween. lia.
      * right. split; [lia |]. split; [| exact Hbefore].
        intros m x Hm. apply Hafter. lia.
  - cbn [fst snd ordered RoundRobin.__quantum RoundRobin.__queue RoundRobin.__time].
    assert (Hfresh : Forall fresh s).
    { eapply Forall_impl; [exact Hwf |]. now intros p [? _]. }
    split; [done |]. split; [done |]. split; [rewrite sum_te_fresh by done; lia |].
    split.
    + intros j p Hp Hpd. rewrite Forall_lookup in Hfresh.
      destruct (Hfresh j p Hp) as (_ & _ & Hnd). congruence.
    + exists 0, O. split; [lia |]. split.
      * intros j p Hp. rewrite Forall_lookup in Hwf.
        destruct (Hwf j p Hp) as [(Hte & _) Hbt]. rewrite Hte. cbn [Nat.ltb Nat.leb]. lia.
      * exists O. split; [done |]. left. split; [lia |]. intros m p Hm. lia.
  - cbn [fst snd] in *. exists (RoundRobin.__queue sf), (RoundRobin.__time sf).
    split; [exact Hrun |]. split; [exact Hdesc |].
    intros i p Hp. apply Hct; [done |].
    rewrite Forall_lookup in Hdone. apply (Hdone i p Hp).
Qed.

Lemma RR_completion_time_witness :
  exists q' t',
    RoundRobin.run 8 2 rr_scenario 0 = Ok (q', t') /\
    map descriptor q' = map descriptor rr_scenario /\
    forall (i : nat) (p : Process),
      q' !! i = Some p ->
      get_ct (get_pcb p) = rr_completion 2 0 rr_scenario i p.
Proof.
  apply (RR_completion_time 8 2 0 rr_scenario rr_scenario eq_refl rr_scenario_fresh eq_refl).
  discriminate.
Defined.

(** ** Round Robin: the number of dispatches *)

Lemma dispatches_left_insert (quantum : Z) (q : list Process) (i : nat) (p p' : Process) :
  q !! i = Some p ->
  dispatches_left quantum (<[i := p']> q)
  = dispatches_left quantum q - slices_left quantum p + slices_left quantum p'.
Proof.
  revert i. induction q as [| x q IH]; intros [| i] H; try discriminate; simpl in *.
  - injection H as ->. lia.
  - rewrite (IH _ H). lia.
Qed.

Lemma slices_left_nonneg (quantum : Z) (p : Process) :
  0 < quantum -> live p -> 0 <= slices_left quantum p.
Proof.
  intros HQ (_ & _ & Hl). unfold slices_left.
  destruct (is_done (get_pcb p)); [lia |]. apply Z.div_pos; lia.
Qed.

Lemma slices_left_not_done (quantum : Z) (p : Process) :
  0 < quantum -> live p -> is_done (get_pcb p) = false -> 1 <= slices_left quantum p.
Proof.
  intros HQ (_ & _ & Hl) Hd. unfold slices_left. rewrite Hd in *.
  apply Z.div_le_lower_bound; lia.
Qed.

Lemma slices_left_dispatched (quantum now : Z) (p : Process) :
  0 < quantum -> live p -> is_done (get_pcb p) = false ->
  slices_left quantum (dispatched quantum now p) = slices_left quantum p - 1.
Proof.
  intros HQ Hl Hd.
  pose proof (dispatched_facts quantum now p HQ Hl Hd)
    as (_ & _ & _ & _ & Hbt & Hte & _ & Hfin & _).
  cbv zeta in *. destruct Hl as (_ & _ & Hl). rewrite Hd in Hl.
  unfold slices_left. rewrite Hd, Hfin, Hbt, Hte. unfold slice_len.
  destruct (finishes quantum p) eqn:E; unfold finishes in E.
  - apply andb_true_iff in E as [_ E]. apply Z.leb_le in E.
    symmetry. apply Z.sub_move_r. symmetry.
    apply (Z.div_unique _ _ _ (get_bt (get_pcb p) - get_te (get_pcb p) - 1)); lia.
  - apply andb_false_iff in E. rewrite !Z.leb_gt in E.
    replace (get_bt (get_pcb p) - (get_te (get_pcb p) + quantum) + quantum - 1)
      with (get_bt (get_pcb p) - get_te (get_pcb p) + quantum - 1 + (-1) * quantum) by lia.
    rewrite Z.div_add by lia. lia.
Qed.

Lemma dispatches_left_ge (quantum : Z) (q : list Process) (i : nat) (p : Process) :
  0 < quantum -> Forall live q -> q !! i = Some p ->
  slices_left quantum p <= dispatches_left quantum q.
Proof.
  intros HQ H. revert i. induction H as [| x q Hx Hq IH]; intros [| i] Hp;
    try discriminate; simpl in *.
  - injection Hp as ->.
    assert (0 <= dispatches_left quantum q).
    { clear -HQ Hq. induction Hq as [| y q Hy _ IH]; simpl; [lia |].
      pose proof (slices_left_nonneg quantum y HQ Hy). lia. }
    lia.
  - pose proof (IH _ Hp). pose proof (slices_left_nonneg quantum x HQ Hx). lia.
Qed.

Lemma dispatches_left_finished (quantum : Z) (q : list Process) :
  Forall finished q -> dispatches_left quantum q = 0.
Proof.
  induction 1 as [| p q Hp _ IH]; simpl; [done |].
  unfold slices_left. unfold finished in Hp. rewrite Hp, IH. lia.
Qed.

Lemma dispatches_left_fresh (quantum : Z) (q : list Process) :
  Forall fresh q -> dispatches_left quantum q = dispatches quantum q.
Proof.
  induction 1 as [| p q (Hte & _ & Hd) _ IH]; simpl; [done |].
  unfold slices_left, slices_needed. rewrite Hd, Hte, IH, Z.sub_0_r. reflexivity.
Qed.

Lemma dispatches_Permutation (quantum : Z) (q s : list Process) :
  q ≡ₚ s -> dispatches quantum q = dispatches quantum s.
Proof. induction 1; simpl; lia. Qed.

(** The loop turns once for every slice still needed, and no more. *)
Lemma loop_exact (fuel : nat) :
  forall (s : RoundRobin.t) (n : option Z),
    rr_inv (s, n) ->
    if decide (dispatches_left (RoundRobin.__quantum s) (RoundRobin.__queue s)
               <= Z.of_nat fuel)
    then exists s', RoundRobin.loop fuel s n = Ok s'
    else RoundRobin.loop fuel s n = OutOfFuel.
Proof.
  induction fuel as [| fuel IH]; intros s [j |] Hinv.
  - pose proof Hinv as (HQ & Ht & Hlive & i & p & -> & Hp & Hd). simpl in *.
    assert (Hl : live p) by (eapply Forall_lookup_1; eassumption).
    pose proof (slices_left_not_done _ p HQ Hl Hd).
    pose proof (dispatches_left_ge _ _ _ _ HQ Hlive Hp).
    case_decide; [lia | reflexivity].
  - destruct Hinv as (_ & _ & _ & Hdone). simpl in Hdone.
    rewrite (dispatches_left_finished _ _ Hdone).
    case_decide; [eexists; reflexivity | lia].
  - pose proof Hinv as (HQ & Ht & Hlive & i & p & -> & Hp & Hd). simpl in *.
    assert (Hl : live p) by (eapply Forall_lookup_1; eassumption).
    destruct (rr_step_spec s i p HQ Ht Hp Hl Hd) as [He Hn].
    rewrite He. cbn [bind]. rewrite Hn. cbn [bind].
    specialize (IH _ _ (rr_inv_after s i p Hinv Hp Hd)).
    cbn [after_dispatch RoundRobin.__quantum RoundRobin.__queue] in IH.
    rewrite (dispatches_left_insert _ _ _ _ _ Hp), slices_left_dispatched in IH by done.
    repeat case_decide; try lia; exact IH.
  - destruct Hinv as (_ & _ & _ & Hdone). simpl in Hdone.
    rewrite (dispatches_left_finished _ _ Hdone).
    case_decide; [eexists; reflexivity | lia].
Qed.

(** X19.  The dispatches Round Robin makes.  With a positive quantum, on
    fresh processes with positive BT, the [while] loop turns exactly once
    for every slice: the sum over the processes of BT / quantum rounded up.
    With fuel for that many turns the run returns, and with less it does
    not. *)
Theorem RR_dispatch_count (fuel : nat) (quantum t0 : Z) (q s : list Process) :
  0 < quantum ->
  Forall (fun p => fresh p /\ 0 < get_bt (get_pcb p)) q ->
  order_queue q = Ok s ->
  (dispatches quantum q <= Z.of_nat fuel ->
   exists q' t', RoundRobin.run fuel quantum q t0 = Ok (q', t')) /\
  (Z.of_nat fuel < dispatches quantum q ->
   RoundRobin.run fuel quantum q t0 = OutOfFuel).
Proof.
  intros HQ Hq Hs.
  pose proof (order_queue_Permutation _ _ Hs) as HP.
  pose proof (loop_exact fuel (ordered quantum t0 s) (Some 0)
                (ordered_inv quantum t0 q s HQ Hq Hs)) as Hloop.
  cbn [ordered RoundRobin.__quantum RoundRobin.__queue] in Hloop.
  rewrite dispatches_left_fresh in Hloop.
  2:{ rewrite <- HP. eapply Forall_impl; [exact Hq |]. now intros p [? _]. }
  rewrite <- (dispatches_Permutation _ _ _ HP) in Hloop.
  unfold RoundRobin.run.
  destruct (start_processing_ordered fuel quantum t0 q s Hs) as (_ & _ & ->).
  fold (ordered quantum t0 s) in Hloop.
  case_decide as Hd; split; intros Hf; try lia.
  - destruct Hloop as [s' ->]. cbn [bind]. eauto.
  - now rewrite Hloop.
Qed.

Lemma RR_dispatch_count_witness :
  (dispatches 2 rr_scenario <= Z.of_nat 4 ->
   exists q' t', RoundRobin.run 4 2 rr_scenario 0 = Ok (q', t')) /\
  (Z.of_nat 4 < dispatches 2 rr_scenario ->
   RoundRobin.run 4 2 rr_scenario 0 = OutOfFuel).
Proof.
  exact (RR_dispatch_count 4 2 0 rr_scenario rr_scenario eq_refl rr_scenario_fresh eq_refl).
Defined.

(** ** The dispatcher: lines that do not parse *)

Lemma split_semicolon_length (s : string) :
  length (split_semicolon s) = S (semicolons s).
Proof.
  induction s as [| c s IH]; [reflexivity |].
  cbn [split_semicolon semicolons]. destruct (Ascii.eqb c ";"%char).
  - cbn [length]. now rewrite IH.
  - destruct (split_semicolon s) as [| f fs]; [discriminate | exact IH].
Qed.

(** X20.  A process line must hold exactly four semicolons.  The unpacking
    [tag, bt, at, queue, priority = line.split(";")] raises ValueError on
    any other line, a blank one included, and a file with such a line after
    its two header lines cannot be loaded: [MLQ(filename)] does not return. *)
Theorem line_needs_five_fields (lines : list string) (j : nat) (line : string) :
  lines !! j = Some line -> (2 <= j)%nat ->
  semicolons line <> 4%nat ->
  MLQ.read_line line = Raise ValueError /\
  forall s, MLQ.init lines <> Ok s.
Proof.
  intros Hj H2 Hn.
  assert (Hline : MLQ.read_line line = Raise ValueError).
  { unfold MLQ.read_line. pose proof (split_semicolon_length line) as Hlen.
    destruct (split_semicolon line) as [| tag [| bt [| a [| queue [| priority [|]]]]]];
      try reflexivity.
    simpl in Hlen. lia. }
  split; [exact Hline |].
  intros s Hs. unfold MLQ.init, MLQ.__read_file in Hs.
  inv_bind Hs. inv_bind Ha. destruct a0 as [ps m].
  destruct (read_lines_Ok _ _ _ _ _ _ Ha0) as [_ Hall].
  destruct (Hall j line Hj) as (p & Hp & _); [lia |]. congruence.
Qed.

Lemma line_needs_five_fields_witness :
  MLQ.read_line EmptyString = Raise ValueError /\
  forall s, MLQ.init blank_line_file <> Ok s.
Proof.
  apply (line_needs_five_fields blank_line_file 2 EmptyString);
    [reflexivity | lia | discriminate].
Defined.
